(** * Codedswitchmonatize: the mining script and the LED connectivity check

    A shallow embedding of [New_Better_mining.py] (a Razor Enhanced
    script) and of [led_connection_test.py], and the properties of the
    gathering loop proved on it.

    The script is a client of a scripting host ([Player], [Items],
    [Mobiles], [Journal], [Timer], [Misc], ...).  The host is not part of
    the repository, so it enters the development as a record of
    observation functions ([Host]); everything the script does to the
    host is appended to a trace of calls, and what the host answers may
    depend on that trace and on the clock. *)

From Stdlib Require Import ZArith Ascii String QArith Lia.
From stdpp Require Import base numbers list gmap strings pretty sorting.

Set Warnings "-register-all".

Local Open Scope string_scope.
Local Open Scope Z_scope.
Local Open Scope list_scope.

(** ** Python values shared by both programs *)

(** [needle in hay] on strings. *)
Definition str_contains (needle hay : string) : bool :=
  match String.index 0 needle hay with
  | Some _ => true
  | None => false
  end.

Module Mining.

(** ** Configuration and parameters (lines 14-69) *)

Definition beetle_serial : Z := 0x002340B0.
Definition autoFightMacroName : string := "pvm_AttackGrey.py".
Definition oreCooldown : Z := 1200000.
Definition alert : bool := false.
Definition SMELT_ON_TRIGGERS : bool := true.
Definition runebookBank : Z := 0x40DEBDDF.
Definition runebookMining : Z := 0x43AAC7A3.

Definition scanRadius : Z := 30.

Definition oreStaticIDs : list Z :=
  [ 0x053E; 0x053B; 0x0540; 0x0541; 0x0542; 0x0543; 0x0544; 0x0545;
    0x0546; 0x0547; 0x0548; 0x0549;
    0x0459; 0x045A; 0x045B; 0x045C;
    0x1771; 0x1772; 0x1773; 0x1774; 0x1775; 0x1776; 0x1777; 0x1778;
    0x1779; 0x177A; 0x177B; 0x177C; 0x177D; 0x177E; 0x177F; 0x1780 ].

Definition miningPauseMS : Z := 300.
Definition dragDelay : Z := 300.
Definition recallPause : Z := 3000.
Definition timeoutOnWaitAction : Z := 2000.
Definition fastDelay : Z := 100.
Definition medDelay : Z := 200.

Definition oreID : Z := 0x19B9.
Definition ingotIDs : list Z := [0x1BF2; 0x1BEF].
Definition otherResourceIDs : list Z :=
  [0x3192; 0x3193; 0x3194; 0x3195; 0x3196; 0x3197; 0x3198].

Definition PROSPECT_TOOL_ID : Z := 0x0FB4.
Definition miningToolIDs : list Z :=
  [0x0E85; 0x0F39; 0x0E86; 0x0F43; 0x0F44; 0x0F45].

(** [x in l] on lists of integers. *)
Definition py_in (x : Z) (l : list Z) : bool := bool_decide (x ∈ l).

(** ** Host objects *)

Record Position := mkPosition { X : Z; Y : Z; Z_ : Z }.

Record TileInfo := mkTileInfo { StaticID : Z; StaticZ : Z }.

(** An item as the script sees it.  The optional fields are the
    attributes the script reads through [hasattr] / [getattr] with a
    default. *)
Inductive Item := mkItem {
  Serial : Z;
  ItemID : Z;
  Name : string;
  Layer : option Z;
  Amount : option Z;
  Weight : option Z;
  Contains : option (list Item)
}.

Record Mobile := mkMobile {
  MSerial : Z;
  Body : Z;
  MName : string;
  MPosition : Position;
  Backpack : option Item;
  MContains : option (list Item)
}.

(** [PathFinding.Route()] with the fields the script sets. *)
Record Route := mkRoute {
  MaxRetry : Z;
  StopIfStuck : bool;
  RX : Z;
  RY : Z
}.

(** A value held in an attribute of the [auto_smelter] module: a Python
    list of ints, a typed [List[Int32]], or anything else. *)
Inductive PyVal :=
| PyIntList (l : list Z)
| PyInt32List (l : list Z)
| PyOther.

(** ** Calls made to the host *)

(** Message texts are recorded as the source writes them; format fields
    of f-strings stay in the text as written. *)
Inductive Call :=
| Misc_SendMessage (text : string) (color : option Z)
| Misc_Pause (ms : Z)
| Misc_Resync
| Misc_NoOperation
| Misc_ScriptRun (name : string)
| Misc_FocusUOWindow
| Friend_ChangeList (name : string)
| Gumps_ResetGump
| Gumps_WaitForGump (gump ms : Z)
| Gumps_SendAction (gump button : Z)
| Items_UseItem (serial : Z)
| Items_Move (serial dest amount : Z)
| Items_MoveOnGround (serial amount px py pz : Z)
| Mobiles_UseMobile (serial : Z)
| Player_EquipItem (serial : Z)
| Player_HeadMessage (color : Z) (text : string)
| Player_HeadTarget (serial : Z)
| Target_Cancel
| Target_WaitForTarget (ms : Z) (flag : bool)
| Target_TargetExecute (tx ty tz tid : Z)
| Journal_Clear
| PathFinding_Go (route : option Route)
| Speak (text : string)
| Smelter_invoked.

(** ** The state *)

(** What the host can see: the clock (milliseconds), the timers of the
    [Timer] class and the calls made so far, newest first. *)
Record World := mkWorld {
  clock : Z;
  timers : gmap string Z;
  trace : list Call
}.

Module OreSpot.
Record t := mk { x : Z; y : Z; z : Z; id : Z }.
End OreSpot.

(** The module-level variables of the script, next to the world. *)
Record State := mkState {
  world : World;
  oreSpots : list OreSpot.t;
  oreSpotCoords : option Route;
  blockCount : Z;
  lastRune : Z;
  beetle : Z;
  weightLimit : Z;
  (** the attributes of [auto_smelter]; [None] while the name [smelter]
      is not bound *)
  smelter : option (gmap string PyVal);
  (** [maybe_run_smelter_when_spilling_or_overweight] is not [None] *)
  smelter_linked : bool
}.

Definition set_world (f : World → World) (s : State) : State :=
  mkState (f (world s)) (oreSpots s) (oreSpotCoords s) (blockCount s)
          (lastRune s) (beetle s) (weightLimit s) (smelter s) (smelter_linked s).
Definition set_oreSpots (l : list OreSpot.t) (s : State) : State :=
  mkState (world s) l (oreSpotCoords s) (blockCount s)
          (lastRune s) (beetle s) (weightLimit s) (smelter s) (smelter_linked s).
Definition set_oreSpotCoords (r : option Route) (s : State) : State :=
  mkState (world s) (oreSpots s) r (blockCount s)
          (lastRune s) (beetle s) (weightLimit s) (smelter s) (smelter_linked s).
Definition set_blockCount (n : Z) (s : State) : State :=
  mkState (world s) (oreSpots s) (oreSpotCoords s) n
          (lastRune s) (beetle s) (weightLimit s) (smelter s) (smelter_linked s).
Definition set_lastRune (n : Z) (s : State) : State :=
  mkState (world s) (oreSpots s) (oreSpotCoords s) (blockCount s)
          n (beetle s) (weightLimit s) (smelter s) (smelter_linked s).
Definition set_beetle (n : Z) (s : State) : State :=
  mkState (world s) (oreSpots s) (oreSpotCoords s) (blockCount s)
          (lastRune s) n (weightLimit s) (smelter s) (smelter_linked s).
Definition set_weightLimit (n : Z) (s : State) : State :=
  mkState (world s) (oreSpots s) (oreSpotCoords s) (blockCount s)
          (lastRune s) (beetle s) n (smelter s) (smelter_linked s).
Definition set_smelter (m : option (gmap string PyVal)) (s : State) : State :=
  mkState (world s) (oreSpots s) (oreSpotCoords s) (blockCount s)
          (lastRune s) (beetle s) (weightLimit s) m (smelter_linked s).
Definition set_smelter_linked (b : bool) (s : State) : State :=
  mkState (world s) (oreSpots s) (oreSpotCoords s) (blockCount s)
          (lastRune s) (beetle s) (weightLimit s) (smelter s) b.

Definition record_call (c : Call) (w : World) : World :=
  mkWorld (clock w) (timers w) (c :: trace w).
Definition advance (ms : Z) (w : World) : World :=
  mkWorld (clock w + ms) (timers w) (trace w).

(** ** Exceptions and the script monad *)

(** The class of what the auto-smelter helper raises, as the [except]
    clauses of [_wrapped_smelter] tell them apart: a [TypeError], another
    [Exception], or a [BaseException] that is no [Exception]. *)
Inductive exc_class := TypeError | Exception | BaseException.

(** What can be raised: the halt of [Stop], the [IndexError] of
    [oreSpots[0]] and [oreSpots.pop(0)] on an empty list, and the
    exceptions of the auto-smelter helper with their message.  The calls
    of the host's API are taken to return normally. *)
Inductive exc :=
| ScriptStop
| IndexError
| HelperError (c : exc_class) (msg : string).

(** A run returns, raises, or is cut short by the fuel of its loops. *)

Inductive outcome (A : Type) :=
| Ret (a : A) (s : State)
| Raise (e : exc) (s : State)
| OutOfFuel.
Arguments Ret {A} a s.
Arguments Raise {A} e s.
Arguments OutOfFuel {A}.

Definition M (A : Type) : Type := State → outcome A.

Definition ret {A} (a : A) : M A := fun s => Ret a s.
Definition bind {A B} (m : M A) (k : A → M B) : M B :=
  fun s => match m s with
           | Ret a s' => k a s'
           | Raise e s' => Raise e s'
           | OutOfFuel => OutOfFuel
           end.
Definition raise {A} (e : exc) : M A := fun s => Raise e s.
Definition gets {A} (f : State → A) : M A := fun s => Ret (f s) s.
Definition modify (f : State → State) : M unit := fun s => Ret tt (f s).

Declare Scope py_scope.
Delimit Scope py_scope with py.
Notation "x <- m ;; k" := (bind m (fun x => k))
  (at level 100, m at next level, right associativity) : py_scope.
Notation "m ;; k" := (bind m (fun _ => k))
  (at level 100, right associativity) : py_scope.
Local Open Scope py_scope.

(** A host observation: the answer depends on the world only. *)
Definition observe {A} (f : World → A) : M A := gets (fun s => f (world s)).
(** A host call: recorded in the trace. *)
Definition call (c : Call) : M unit := modify (set_world (record_call c)).
(** [Misc.Pause(ms)]: recorded, and the clock moves on by [ms]. *)
Definition pause (ms : Z) : M unit :=
  modify (set_world (fun w => advance ms (record_call (Misc_Pause ms) w))).
Definition SendMessage (text : string) (color : Z) : M unit :=
  call (Misc_SendMessage text (Some color)).

(** Loop control for [while] and [for] bodies. *)
Inductive ctl (L : Type) := Continue (l : L) | Break (l : L).
Arguments Continue {L} l.
Arguments Break {L} l.

(** [while cond: body], threading the loop's local variables [l]. *)
Fixpoint while_loop {L} (fuel : nat) (cond : L → M bool)
    (body : L → M (ctl L)) (l : L) : M L :=
  match fuel with
  | O => fun _ => OutOfFuel
  | S fuel' =>
      c <- cond l ;;
      if c : bool then
        r <- body l ;;
        match r with
        | Continue l' => while_loop fuel' cond body l'
        | Break l' => ret l'
        end
      else ret l
  end.

(** [for a in l: body], with [break]. *)
Fixpoint for_loop {A L} (xs : list A) (body : A → L → M (ctl L)) (l : L) : M L :=
  match xs with
  | [] => ret l
  | a :: xs' =>
      r <- body a l ;;
      match r with
      | Continue l' => for_loop xs' body l'
      | Break l' => ret l'
      end
  end.

(** [for a in l: body] without [break] and without local variables. *)
Definition for_each {A} (xs : list A) (body : A → M unit) : M unit :=
  for_loop xs (fun a _ => body a ;; ret (Continue tt)) tt.

(** ** The [Timer] class *)

(** Modelled from the spec: the host's [Timer] class is not in the
    repository.  Section 3 of the specification describes it as a mapping
    from key to expiry timestamp, whose entries are checked and never
    purged: [Timer.Create name ms] records [clock + ms] under [name], and
    [Timer.Check name] is true while such an entry exists and its expiry
    lies ahead. *)
Definition timer_active (name : string) (w : World) : bool :=
  match timers w !! name with
  | Some expiry => clock w <? expiry
  | None => false
  end.
(** Modelled from the spec: [Timer.Check(name)]. *)
Definition Timer_Check (name : string) : M bool := observe (timer_active name).
(** Modelled from the spec: [Timer.Create(name, ms)]. *)
Definition Timer_Create (name : string) (ms : Z) : M unit :=
  modify (set_world (fun w =>
    mkWorld (clock w) (<[name := clock w + ms]> (timers w)) (trace w))).

(** ['%i,%i' % (x, y)] *)
Definition coord_key (px py : Z) : string := pretty px +:+ "," +:+ pretty py.

(** [str.isupper()] and [str.lower()], on ASCII letters. *)
Definition is_upper_ascii (c : ascii) : bool :=
  let n := Z.of_nat (nat_of_ascii c) in (65 <=? n) && (n <=? 90).
Definition is_lower_ascii (c : ascii) : bool :=
  let n := Z.of_nat (nat_of_ascii c) in (97 <=? n) && (n <=? 122).
Fixpoint py_isupper_from (seen : bool) (s : string) : bool :=
  match s with
  | EmptyString => seen
  | String c r =>
      if is_lower_ascii c then false
      else py_isupper_from (seen || is_upper_ascii c) r
  end.
Definition py_isupper : string → bool := py_isupper_from false.
Definition lower_ascii (c : ascii) : ascii :=
  if is_upper_ascii c then ascii_of_nat (nat_of_ascii c + 32) else c.
Fixpoint py_lower (s : string) : string :=
  match s with
  | EmptyString => EmptyString
  | String c r => String (lower_ascii c) (py_lower r)
  end.

(** [sorted(l, key=key)]: Python's sort is stable, so its result is the
    one of any stable sort; insertion after the last element whose key
    is not larger. *)
Fixpoint insert_by {A} (key : A → Z) (a : A) (l : list A) : list A :=
  match l with
  | [] => [a]
  | b :: l' => if key b <=? key a then b :: insert_by key a l' else a :: b :: l'
  end.
Definition sorted {A} (l : list A) (key : A → Z) : list A :=
  foldl (fun acc a => insert_by key a acc) [] l.

(** ** The host *)

Inductive MobileFilter := DefaultFilter | toonFilter | invulFilter.

(** What [import auto_smelter] and the [from auto_smelter import ...]
    after it give. *)
Inductive import_result :=
| NoModule
| NoEntryPoint (attrs : gmap string PyVal)
| Imported (attrs : gmap string PyVal).

Record Host := mkHost {
  Player_GetRealSkillValue : string → World → Q;
  Player_Weight : World → Z;
  Player_MaxWeight : World → Z;
  Player_Mount : World → bool;
  Player_Position : World → Position;
  Player_Serial : World → Z;
  Player_GetItemOnLayer : string → World → option Item;
  Player_Backpack_Contains : World → list Item;
  Player_Backpack_Serial : World → Z;
  Player_DistanceTo : Mobile → World → Z;
  Statics_GetStaticsTileInfo : Z → Z → World → list TileInfo;
  Journal_SearchByType : string → string → World → bool;
  Journal_Search : string → World → bool;
  Target_HasTarget : World → bool;
  Target_GetTargetFromList : string → World → option Mobile;
  (** the result of the [PathFinding.Go] at the head of the trace *)
  PathFinding_Go_result : World → bool;
  Items_FindBySerial : Z → World → option Item;
  Items_FindByID : Z → Z → Z → option Z → World → option Item;
  (** [Items.ApplyFilter] of the corpse filter of [CheckEnemy] *)
  Items_ApplyFilter_corpses : World → list Item;
  Mobiles_FindBySerial : Z → World → option Mobile;
  Mobiles_ApplyFilter : MobileFilter → World → list Mobile;
  Mobiles_Select : list Mobile → string → World → option Mobile;
  import_auto_smelter : import_result;
  (** [auto_smelter.maybe_run_smelter_when_spilling_or_overweight]:
      returns ([None]) or raises, given the module's attributes *)
  smelter_run : gmap string PyVal → World → option (exc_class * string)
}.

Section Script.

Context (h : Host).

(** Modelled from the spec: the bare name [Stop] of lines 8 and 434 is
    bound nowhere in the script; the specification (4.1, 7(a)) has it
    halt the control loop, so evaluating it ends the script with an
    exception that no handler of the script receives. *)
Definition Stop {A} : M A := raise ScriptStop.

(** Lines 6-8. *)
Definition skill_check : M unit :=
  skill <- observe (Player_GetRealSkillValue h "Mining") ;;
  if negb (Qle_bool 40 skill) then
    SendMessage "Mining skill too low, stopping" 33 ;;
    Stop
  else ret tt.

(** Line 66. *)
Definition init_weightLimit : M unit :=
  mw <- observe (Player_MaxWeight h) ;;
  modify (set_weightLimit (mw - 400)).

(** *** Auto-smelter integration (lines 85-145) *)

Definition needs_normalizing (attr : string) (current : PyVal) : bool :=
  py_isupper attr && str_contains "_ID" attr &&
  match current with
  | PyIntList (_ :: _) => true
  | _ => false
  end.

Definition _to_int32_list (v : PyVal) : PyVal :=
  match v with
  | PyIntList l => PyInt32List l
  | _ => v
  end.

Definition _normalize_smelter_lists : M unit :=
  sm <- gets smelter ;;
  match sm with
  | None => ret tt
  | Some attrs =>
      let normalized :=
        filter (fun kv => needs_normalizing kv.1 kv.2 = true) (map_to_list attrs) in
      modify (set_smelter (Some (map_imap (fun attr current =>
        Some (if needs_normalizing attr current
              then _to_int32_list current else current)) attrs))) ;;
      match normalized with
      | [] => ret tt
      | _ :: _ => SendMessage "Auto-smelter lists normalized: {normalized}" 66
      end
  end.

(** The imported helper, [_smelter_run]. *)
Definition _smelter_run : M unit :=
  call Smelter_invoked ;;
  sm <- gets smelter ;;
  r <- observe (smelter_run h (default ∅ sm)) ;;
  match r with
  | None => ret tt
  | Some (c, msg) => raise (HelperError c msg)
  end.

(** [try: body / except ...]: [handler] receives what the body raised;
    an exception raised by the handler itself leaves the statement. *)
Definition try_except {A} (body : M A) (handler : exc → M A) : M A :=
  fun s => match body s with
           | Raise e s' => handler e s'
           | r => r
           end.

Definition _wrapped_smelter : M unit :=
  b <- gets beetle ;;
  beetle_mobile <- (if b =? 0 then ret None
                    else observe (Mobiles_FindBySerial h b)) ;;
  far <- match beetle_mobile with
         | Some m => d <- observe (Player_DistanceTo h m) ;; ret (18 <? d)
         | None => ret false
         end ;;
  if far : bool then ret tt
  else
    try_except _smelter_run (fun e =>
      match e with
      | HelperError TypeError msg =>
          if str_contains "List[Int32]" msg then
            _normalize_smelter_lists ;;
            _smelter_run
          else SendMessage "Auto-smelter error: {exc}" 33
      | HelperError Exception msg =>
          SendMessage "Auto-smelter error: {exc}" 33
      | _ => raise e
      end).

(** Lines 108-144. *)
Definition link_smelter : M unit :=
  if SMELT_ON_TRIGGERS then
    match import_auto_smelter h with
    | Imported attrs =>
        modify (set_smelter (Some
          (<["SMELT_BEETLE_MAX_WEIGHT" := PyOther]>
          (<["BEETLE_WEIGHT_TRIGGER" := PyOther]>
          (<["SMELTER_COOLDOWN_MS" := PyOther]>
          (<["ORE_SPILL_MIN_COUNT" := PyOther]>
          (<["ORE_SPILL_RADIUS" := PyOther]>
          (<["DEBUG_MODE" := PyOther]>
          (<["BEETLE_SERIAL" := PyOther]> attrs))))))))) ;;
        _normalize_smelter_lists ;;
        modify (set_smelter_linked true) ;;
        SendMessage "Auto-smelter linked. Spill + beetle weight triggers active." 66
    | NoEntryPoint attrs =>
        modify (set_smelter (Some attrs)) ;;
        modify (set_smelter_linked false) ;;
        SendMessage "auto_smelter.py not found or failed to import; auto-smelt disabled." 33
    | NoModule =>
        modify (set_smelter_linked false) ;;
        SendMessage "auto_smelter.py not found or failed to import; auto-smelt disabled." 33
    end
  else ret tt.

(** [if SMELT_ON_TRIGGERS and maybe_run_smelter_when_spilling_or_overweight:
        maybe_run_smelter_when_spilling_or_overweight()] *)
Definition smelt_trigger : M unit :=
  linked <- gets smelter_linked ;;
  if SMELT_ON_TRIGGERS && linked then _wrapped_smelter else ret tt.

(** Truth value of a serial or [None]. *)
Definition truthy (r : option Z) : bool :=
  match r with
  | Some n => negb (n =? 0)
  | None => false
  end.

(** [oreSpots[0]] *)
Definition oreSpots_0 : M OreSpot.t :=
  l <- gets oreSpots ;;
  match l with
  | sp :: _ => ret sp
  | [] => raise IndexError
  end.

(** *** Mining tool (lines 300-343) *)

Definition FindPickaxe : M (option Z) :=
  lh <- observe (Player_GetItemOnLayer h "LeftHand") ;;
  match (match lh with
         | Some it => if py_in (ItemID it) miningToolIDs then Some it else None
         | None => None
         end) with
  | Some it =>
      SendMessage "--> Found equipped mining tool: {lh.Name}" 66 ;;
      ret (Some (Serial it))
  | None =>
  rh <- observe (Player_GetItemOnLayer h "RightHand") ;;
  match (match rh with
         | Some it => if py_in (ItemID it) miningToolIDs then Some it else None
         | None => None
         end) with
  | Some it =>
      SendMessage "--> Found equipped mining tool: {rh.Name}" 66 ;;
      ret (Some (Serial it))
  | None =>
  items <- observe (Player_Backpack_Contains h) ;;
  match List.find (fun item => py_in (ItemID item) miningToolIDs) items with
  | Some item =>
      SendMessage "--> Found mining tool in backpack: {item.Name}" 66 ;;
      ret (Some (Serial item))
  | None =>
  bp <- observe (Player_Backpack_Serial h) ;;
  pickaxe <- observe (Items_FindByID h 0x0E85 (-1) bp (Some 1)) ;;
  match pickaxe with
  | Some it =>
      SendMessage "Equipping pickaxe..." 66 ;;
      call (Player_EquipItem (Serial it)) ;;
      pause 600 ;;
      ret (Some (Serial it))
  | None =>
      SendMessage "ERROR: No pickaxe found in backpack!" 33 ;;
      ret None
  end end end end.

(** The test of lines 333-334 and 338-339. *)
Definition in_hand (serial : Z) : M bool :=
  lh <- observe (Player_GetItemOnLayer h "LeftHand") ;;
  rh <- observe (Player_GetItemOnLayer h "RightHand") ;;
  ret (match lh with Some it => Serial it =? serial | None => false end
       || match rh with Some it => Serial it =? serial | None => false end).

Definition EquipPickaxe : M (option Z) :=
  serial <- FindPickaxe ;;
  if negb (truthy serial) then
    call (Player_HeadMessage 35 "You must have a pickaxe to mine!") ;;
    pause 800 ;;
    ret None
  else
    let sn := default 0 serial in
    held <- in_hand sn ;;
    if held : bool then ret serial
    else
      call (Player_EquipItem sn) ;;
      pause 600 ;;
      held' <- in_hand sn ;;
      if held' : bool then
        SendMessage "--> Pickaxe equipped successfully" 66 ;;
        ret serial
      else
        SendMessage "--> Failed to equip pickaxe" 33 ;;
        ret None.

(** *** Travel (lines 158-174) *)

Definition RecallNextSpot : M unit :=
  call Gumps_ResetGump ;;
  SendMessage "--> Recall to Mining Spot" 77 ;;
  call (Items_UseItem runebookMining) ;;
  call (Gumps_WaitForGump 1431013363 timeoutOnWaitAction) ;;
  rune <- gets lastRune ;;
  call (Gumps_SendAction 1431013363 rune) ;;
  pause recallPause ;;
  pause 2000 ;;
  modify (set_lastRune (rune + 6)) ;;
  rune' <- gets lastRune ;;
  (if 95 <? rune' then modify (set_lastRune 5) else ret tt) ;;
  pause 1000 ;;
  EquipPickaxe ;;
  ret tt.

(** Lines 176-185.  [runebookMining] is assigned at line 31, so the test
    of line 178 fails; the script calls the function nowhere. *)
Definition RecallBack : M unit :=
  call (Items_UseItem runebookMining) ;;
  call (Gumps_WaitForGump 1431013363 timeoutOnWaitAction) ;;
  rune <- gets lastRune ;;
  call (Gumps_SendAction 1431013363 rune) ;;
  pause recallPause ;;
  EquipPickaxe ;;
  ret tt.

(** *** Discovery (lines 200-221) *)

(** The key of the two [sorted] calls (lines 220 and 798):
    [sqrt((spot.x - Player.Position.X)**2 + (spot.y - Player.Position.Y)**2)].
    The argument of [sqrt] is an exact integer, and [sqrt] is strictly
    increasing on the integers map coordinates give, so ordering by the
    square root is ordering by its argument; the key is kept as the
    squared distance. *)
Definition distance_key (p : Position) (spot : OreSpot.t) : Z :=
  (OreSpot.x spot - X p) ^ 2 + (OreSpot.y spot - Y p) ^ 2.

Definition sort_oreSpots : M unit :=
  p <- observe (Player_Position h) ;;
  l <- gets oreSpots ;;
  modify (set_oreSpots (sorted l (distance_key p))).

(** Lines 213-216, for one cell. *)
Definition scan_cell (cx cy : Z) : M unit :=
  staticsTileInfo <- observe (Statics_GetStaticsTileInfo h cx cy) ;;
  if 0 <? Z.of_nat (length staticsTileInfo) then
    for_each staticsTileInfo (fun tile =>
      for_each oreStaticIDs (fun staticid =>
        if staticid =? StaticID tile then
          active <- Timer_Check (coord_key cx cy) ;;
          if negb active then
            l <- gets oreSpots ;;
            modify (set_oreSpots
              (l ++ [OreSpot.mk cx cy (StaticZ tile) (StaticID tile)]))
          else ret tt
        else ret tt))
  else ret tt.

(** The loops of lines 209-219.  Their guards are those of the source;
    the fuel handed to them by [ScanStatic] is the number of cells. *)
Definition scan_rows (fuel : nat) (minY maxX maxY : Z) (xy : Z * Z) : M (Z * Z) :=
  while_loop fuel
    (fun xy => ret (xy.1 <=? maxX))
    (fun xy =>
       y' <- while_loop fuel
               (fun y => ret (y <=? maxY))
               (fun y => scan_cell xy.1 y ;; ret (Continue (y + 1)))
               xy.2 ;;
       ret (Continue (xy.1 + 1, minY)))
    xy.

Definition ScanStatic : M unit :=
  SendMessage "--> Scan for Ore Spots Started" 77 ;;
  minX <- observe (fun w => X (Player_Position h w) - scanRadius) ;;
  maxX <- observe (fun w => X (Player_Position h w) + scanRadius) ;;
  minY <- observe (fun w => Y (Player_Position h w) - scanRadius) ;;
  maxY <- observe (fun w => Y (Player_Position h w) + scanRadius) ;;
  scan_rows (Z.to_nat (2 * scanRadius + 2)) minY maxX maxY (minX, minY) ;;
  sort_oreSpots ;;
  SendMessage "--> Total Ore Spots: %i" 77.

Definition RangeOreSpot : M bool :=
  playerX <- observe (fun w => X (Player_Position h w)) ;;
  playerY <- observe (fun w => Y (Player_Position h w)) ;;
  sp <- oreSpots_0 ;;
  let spotX := OreSpot.x sp in
  let spotY := OreSpot.y sp in
  ret ((playerX - 1 <=? spotX) && (spotX <=? playerX + 1)
       && ((playerY - 1 <=? spotY) && (spotY <=? playerY + 1))).

(** [item.ItemID == oreID or item.ItemID in ingotIDs or
     item.ItemID in otherResourceIDs] (lines 528 and 706) *)
Definition is_resource (item : Item) : bool :=
  (ItemID item =? oreID) || py_in (ItemID item) ingotIDs
  || py_in (ItemID item) otherResourceIDs.

(** *** Hostile presence (lines 497-531) *)

Definition CheckEnemy (fuel : nat) : M unit :=
  enemy <- observe (Target_GetTargetFromList h "enemywar") ;;
  match enemy with
  | None => ret tt
  | Some _ =>
      call (Misc_ScriptRun autoFightMacroName) ;;
      while_loop fuel
        (fun en : option Mobile => ret (bool_decide (is_Some en)))
        (fun en =>
           Timer_Create "Fight" 2500 ;;
           pause 1000 ;;
           found <- observe (Mobiles_FindBySerial h (from_option MSerial 0 en)) ;;
           match found with
           | Some e =>
               d <- observe (Player_DistanceTo h e) ;;
               if 1 <? d then
                 let enemyPosition := MPosition e in
                 call (PathFinding_Go (Some
                   (mkRoute 5 false (X enemyPosition) (Y enemyPosition - 1)))) ;;
                 call (Misc_ScriptRun autoFightMacroName)
               else
                 running <- Timer_Check "Fight" ;;
                 if negb running then
                   call (Misc_ScriptRun autoFightMacroName) ;;
                   Timer_Create "Fight" 2500
                 else ret tt
           | None => ret tt
           end ;;
           en' <- observe (Target_GetTargetFromList h "enemywar") ;;
           ret (Continue en'))
        enemy ;;
      corpses <- observe (Items_ApplyFilter_corpses h) ;;
      pause dragDelay ;;
      for_each corpses (fun corpse =>
        for_each (default [] (Contains corpse)) (fun item =>
          if is_resource item then
            bp <- observe (Player_Backpack_Serial h) ;;
            call (Items_Move (Serial item) bp 0) ;;
            pause dragDelay
          else ret tt)) ;;
      coords <- gets oreSpotCoords ;;
      call (PathFinding_Go coords)
  end.

(** *** Moving to the ore spot (lines 230-298) *)

(** Set [X] and [Y] of the global route. *)
Definition aim (rx ry : Z) : M unit :=
  modify (set_oreSpotCoords (Some (mkRoute 5 false rx ry))).
(** [PathFinding.Go(oreSpotCoords)] *)
Definition go_oreSpotCoords : M bool :=
  coords <- gets oreSpotCoords ;;
  call (PathFinding_Go coords) ;;
  observe (PathFinding_Go_result h).

(** Lines 235-260; [false] stands for the [return] of line 260. *)
Definition first_approach : M bool :=
  sp <- oreSpots_0 ;;
  let sx := OreSpot.x sp in
  let sy := OreSpot.y sp in
  aim sx (sy + 1) ;;
  ok <- go_oreSpotCoords ;;
  if ok : bool then pause 800 ;; ret true
  else
    call Misc_Resync ;;
    aim (sx + 1) sy ;;
    ok <- go_oreSpotCoords ;;
    if ok : bool then call (Misc_SendMessage "Second Try" None) ;; ret true
    else
      aim (sx - 1) sy ;;
      ok <- go_oreSpotCoords ;;
      if ok : bool then call (Misc_SendMessage "Third Try" None) ;; ret true
      else
        aim sx (sy - 1) ;;
        call (Misc_SendMessage "Final Try" None) ;;
        ok <- go_oreSpotCoords ;;
        if ok : bool then call Misc_NoOperation ;; ret true
        else ret false.

(** Lines 272-294. *)
Definition second_approach : M unit :=
  call Misc_Resync ;;
  sp <- oreSpots_0 ;;
  let sx := OreSpot.x sp in
  let sy := OreSpot.y sp in
  aim sx (sy + 1) ;;
  ok <- go_oreSpotCoords ;;
  if ok : bool then pause 800
  else
    aim (sx + 1) sy ;;
    ok <- go_oreSpotCoords ;;
    if ok : bool then call (Misc_SendMessage "Second Try" None)
    else
      aim (sx - 1) sy ;;
      ok <- go_oreSpotCoords ;;
      if ok : bool then call (Misc_SendMessage "Third Try" None)
      else
        aim sx (sy - 1) ;;
        call (Misc_SendMessage "Final Try" None) ;;
        go_oreSpotCoords ;;
        ret tt.

Definition MoveToOreSpot (fuel : nat) : M unit :=
  oreSpots_0 ;;
  SendMessage "--> Moving to Ore Spot: %i, %i" 77 ;;
  call Misc_Resync ;;
  on <- first_approach ;;
  if on : bool then
    call Misc_Resync ;;
    (** the loop variables: [pathlock], and whether line 296 returned *)
    r <- while_loop fuel
           (fun _ : Z * bool => inrange <- RangeOreSpot ;; ret (negb inrange))
           (fun l =>
              CheckEnemy fuel ;;
              smelt_trigger ;;
              pause 100 ;;
              let pathlock := l.1 + 1 in
              if 350 <? pathlock then
                second_approach ;;
                ret (Break (0, true))
              else ret (Continue (pathlock, false)))
           (0, false) ;;
    if r.2 : bool then ret tt
    else
      oreSpots_0 ;;
      SendMessage "--> Reached Ore Spot: %i, %i" 77
  else ret tt.

(** *** Prospecting (lines 345-356) *)

Definition UseProspectorTool : M bool :=
  bp <- observe (Player_Backpack_Serial h) ;;
  prospector <- observe (Items_FindByID h PROSPECT_TOOL_ID (-1) bp None) ;;
  match prospector with
  | None =>
      SendMessage "--> No prospector's tool found!" 33 ;;
      ret false
  | Some tool =>
      call (Items_UseItem (Serial tool)) ;;
      call (Target_WaitForTarget 500 false) ;;
      p <- observe (Player_Position h) ;;
      call (Target_TargetExecute (X p) (Y p) (Z_ p) 0) ;;
      pause 500 ;;
      traces <- observe (Journal_SearchByType h "You find traces of" "Regular") ;;
      (if traces : bool then SendMessage "--> {Journal.GetLastText()}" 66
       else ret tt) ;;
      ret true
  end.

(** *** The companion carrier (lines 533-730) *)

Definition CanMove : M bool :=
  w <- observe (Player_Weight h) ;;
  mw <- observe (Player_MaxWeight h) ;;
  ret (w <? mw).

Definition is_pack_animal (mobile : Mobile) : bool :=
  py_in (Body mobile)
        [0x317; 0x318; 0x319; 0x31F; 0x320; 0x321; 0x322; 0x323; 0xE2; 0xCC; 0xE4]
  || str_contains "pack" (py_lower (MName mobile))
  || str_contains "beetle" (py_lower (MName mobile)).

Definition GetBeetle : M (option Mobile) :=
  b <- gets beetle ;;
  near <- (if negb (b =? 0) then
             SendMessage "Looking for beetle with serial: 0x{beetle:X}" 66 ;;
             beetle_mobile <- observe (Mobiles_FindBySerial h b) ;;
             match beetle_mobile with
             | Some m =>
                 distance <- observe (Player_DistanceTo h m) ;;
                 if distance <? 15 then
                   SendMessage "Found beetle by serial at distance: {distance} tiles" 66 ;;
                   ret (Some m)
                 else
                   SendMessage "Beetle found but too far away: {distance} tiles" 33 ;;
                   ret None
             | None => ret None
             end
           else ret None) ;;
  match near with
  | Some m => ret (Some m)
  | None =>
      SendMessage "Searching for any nearby pack animal..." 66 ;;
      mobiles <- observe (Mobiles_ApplyFilter h DefaultFilter) ;;
      found <- for_loop mobiles (fun mobile (_ : option Mobile) =>
                 distance <- observe (Player_DistanceTo h mobile) ;;
                 if is_pack_animal mobile && (distance <? 15) then
                   old_serial <- gets beetle ;;
                   modify (set_beetle (MSerial mobile)) ;;
                   SendMessage "Found pack animal: {name} (0x{beetle:X}) at {distance} tiles" 66 ;;
                   (if negb (old_serial =? MSerial mobile) then
                      SendMessage "Updated beetle serial to: 0x{beetle:X}" 66
                    else ret tt) ;;
                   ret (Break (Some mobile))
                 else ret (Continue None)) None ;;
      match found with
      | Some m => ret (Some m)
      | None =>
          SendMessage "ERROR: No pack animal found within 15 tiles!" 33 ;;
          ret None
      end
  end.

(** [getattr(item, 'Layer', -1) == 21], first match of the loop. *)
Definition on_layer_21 (items : list Item) : option Item :=
  List.find (fun item => default (-1) (Layer item) =? 21) items.

(** The search for the beetle's pack, written twice in the source
    (lines 566-580 and 681-696). *)
Definition find_beetle_pack (beetle_mobile : Mobile) : M (option Item) :=
  match Backpack beetle_mobile with
  | Some pack => ret (Some pack)
  | None =>
      match from_option on_layer_21 None (MContains beetle_mobile) with
      | Some pack => ret (Some pack)
      | None =>
          beetle_item <- observe (Items_FindBySerial h (MSerial beetle_mobile)) ;;
          ret (match beetle_item with
               | Some bi => from_option on_layer_21 None (Contains bi)
               | None => None
               end)
      end
  end.

(** Lines 585-600: the weight the pack is taken to hold.  The products
    of line 594 are products of integers and are kept exact. *)
Definition held_weight (it : Item) : Z :=
  let amt := match Amount it with Some 0 | None => 1 | Some a => a end in
  let wt := match Weight it with Some 0 | None => 1 | Some a => a end in
  amt * wt.
Definition pack_weight (beetle_pack : Item) : Z :=
  let total_weight :=
    match Weight beetle_pack with
    | Some w => w
    | None =>
        foldl (fun total it =>
                 let w := held_weight it in
                 if (0 <=? w) && (w <=? 200) then total + w else total)
              0 (default [] (Contains beetle_pack))
    end in
  if 10000 <? total_weight then 1000 else total_weight.

(** The host calls inside the [try] return normally in this model, so
    the handler of lines 608-610 is not entered. *)
Definition BeetleHasCapacity (beetle_mobile : Mobile) (required_capacity : Z) : M bool :=
  beetle_pack <- find_beetle_pack beetle_mobile ;;
  match beetle_pack with
  | None =>
      SendMessage "Could not find beetle pack!" 33 ;;
      ret false
  | Some pack =>
      let max_beetle_weight := 400 in
      let remaining_capacity := max_beetle_weight - pack_weight pack in
      SendMessage "Beetle pack weight: {total_weight}/{max_beetle_weight} stones (Remaining: {remaining_capacity} stones)" 66 ;;
      if (remaining_capacity <? 0) && (-100 <? remaining_capacity) then
        SendMessage "Beetle nearly full, allowing small items" 66 ;;
        ret (required_capacity <=? 10)
      else ret (required_capacity <=? remaining_capacity)
  end.

Definition TransferItemsToBeetle (beetle_mobile : option Mobile) : M bool :=
  match beetle_mobile with
  | None =>
      SendMessage "ERROR: Invalid beetle mobile!" 33 ;;
      ret false
  | Some bm =>
      beetle_pack <- find_beetle_pack bm ;;
      match beetle_pack with
      | None =>
          SendMessage "--> Beetle pack not found! Cannot transfer items." 33 ;;
          ret false
      | Some pack =>
          SendMessage "--> Transferring items to beetle (unlimited capacity)" 66 ;;
          contents <- observe (Player_Backpack_Contains h) ;;
          let ore_items := List.filter is_resource contents in
          match ore_items with
          | [] =>
              SendMessage "--> No items to transfer" 77 ;;
              ret true
          | _ :: _ =>
              moveCount <- for_loop ore_items (fun item (moveCount : Z) =>
                item_ref <- observe (Items_FindBySerial h (Serial item)) ;;
                match item_ref with
                | None => ret (Continue moveCount)
                | Some _ =>
                    call (Items_Move (Serial item) (Serial pack) 0) ;;
                    pause 100 ;;
                    after <- observe (Items_FindBySerial h (Serial item)) ;;
                    match after with
                    | None => ret (Continue (moveCount + 1))
                    | Some _ =>
                        SendMessage "Failed to move {item.Name}" 33 ;;
                        ret (Continue moveCount)
                    end
                end) 0 ;;
              if 0 <? moveCount then
                SendMessage "--> Successfully moved {moveCount} items to beetle" 66 ;;
                pause 400 ;;
                ret true
              else
                SendMessage "--> No items were moved to the beetle" 77 ;;
                ret false
          end
      end
  end.

(** Lines 624-639: [Some r] when line 638 returns [r]. *)
Definition call_beetle_over (bm : Mobile) : M (option bool) :=
  SendMessage "--> Overweight, trying to get beetle to come to us..." 33 ;;
  call (Player_HeadTarget (MSerial bm)) ;;
  me <- observe (Player_Serial h) ;;
  call (Player_HeadTarget me) ;;
  pause 1000 ;;
  while_loop 6
    (fun wait_time : Z => ret (wait_time <? 5))
    (fun wait_time =>
       current_dist <- observe (Player_DistanceTo h bm) ;;
       if current_dist <=? 2 then ret (Break wait_time)
       else
         pause 1000 ;;
         SendMessage "Waiting for beetle to come to us... {wait_time}/5 seconds (Distance: {current_dist} tiles)" 66 ;;
         ret (Continue (wait_time + 1)))
    0 ;;
  d <- observe (Player_DistanceTo h bm) ;;
  if d <=? 2 then
    SendMessage "Beetle is close, transferring items..." 66 ;;
    r <- TransferItemsToBeetle (Some bm) ;;
    ret (Some r)
  else
    SendMessage "--> Could not get beetle to come to us, trying to move..." 33 ;;
    ret None.

(** Lines 642-668: [false] when line 667 returns. *)
Definition walk_to_beetle (bm : Mobile) : M bool :=
  mounted <- observe (Player_Mount h) ;;
  (if mounted : bool then
     SendMessage "--> Dismounting to move" 66 ;;
     me <- observe (Player_Serial h) ;;
     call (Mobiles_UseMobile me) ;;
     pause 1200
   else ret tt) ;;
  let target_x := X (MPosition bm) in
  let target_y := Y (MPosition bm) in
  SendMessage "Attempting direct path to beetle..." 66 ;;
  call (PathFinding_Go (Some (mkRoute 2 true target_x target_y))) ;;
  ok <- observe (PathFinding_Go_result h) ;;
  reached <-
    (if ok : bool then
       SendMessage "Successfully moved to beetle!" 66 ;;
       ret true
     else
       SendMessage "Direct path failed, trying alternate approaches..." 33 ;;
       found <- for_loop
         [(0, 1); (1, 0); (0, -1); (-1, 0); (1, 1); (1, -1); (-1, 1); (-1, -1)]
         (fun d (_ : bool) =>
            SendMessage "Trying coordinates: ({path.X}, {path.Y})" 66 ;;
            call (PathFinding_Go
                    (Some (mkRoute 2 true (target_x + d.1) (target_y + d.2)))) ;;
            ok <- observe (PathFinding_Go_result h) ;;
            if ok : bool then
              SendMessage "Successfully moved to position near beetle!" 66 ;;
              ret (Break true)
            else ret (Continue false))
         false ;;
       if found : bool then ret true
       else
         SendMessage "ERROR: Could not find path to beetle!" 33 ;;
         ret false) ;;
  if reached : bool then pause 800 ;; ret true else ret false.

Definition MoveToBeetle : M bool :=
  SendMessage "Attempting to find beetle..." 66 ;;
  beetle_mobile <- GetBeetle ;;
  match beetle_mobile with
  | None =>
      SendMessage "ERROR: Could not find beetle nearby!" 33 ;;
      ret false
  | Some bm =>
      SendMessage "Found beetle at distance: {Player.DistanceTo(beetle_mobile)} tiles" 66 ;;
      distance <- observe (Player_DistanceTo h bm) ;;
      if distance <=? 2 then
        SendMessage "Already next to beetle, transferring items..." 66 ;;
        TransferItemsToBeetle (Some bm)
      else
        can <- CanMove ;;
        early <- (if negb can then call_beetle_over bm else ret None) ;;
        match early with
        | Some r => ret r
        | None =>
            current_distance <- observe (Player_DistanceTo h bm) ;;
            arrived <- (if 2 <? current_distance then walk_to_beetle bm
                        else ret true) ;;
            if arrived : bool then
              final_distance <- observe (Player_DistanceTo h bm) ;;
              if final_distance <=? 2 then
                SendMessage "In range ({final_distance} tiles), transferring items..." 66 ;;
                TransferItemsToBeetle (Some bm)
              else
                SendMessage "ERROR: Still too far from beetle! Distance: {final_distance} tiles" 33 ;;
                ret false
            else ret false
        end
  end.

(** *** One extraction attempt (lines 413-495) *)

Definition txt_no_metal : string := "There is no metal here to mine.".
Definition txt_loosen : string := "You loosen".
Definition txt_worn_out : string := "You have worn out your tool!".
Definition txt_can_not_mine : string := "You can not mine there.".
Definition txt_no_line_of_sight : string := "You have no line of sight".
Definition txt_dig_some : string := "You dig some".
Definition txt_receive : string := "You receive".
Definition txt_have_received : string := "You have received".
Definition txt_riding : string := "You can't dig while riding or flying.".

Definition sys (text : string) (w : World) : bool :=
  Journal_SearchByType h text "System" w.

(** The disjunction of lines 445-454. *)
Definition poll_done (w : World) : bool :=
  sys txt_no_metal w || sys txt_loosen w || sys txt_worn_out w
  || sys txt_can_not_mine w || sys txt_no_line_of_sight w
  || sys txt_dig_some w || sys txt_receive w
  || Journal_Search h txt_have_received w
  || sys txt_riding w
  || negb (timer_active "mineTimer" w).

(** Lines 415-430: before the tool is looked for. *)
Definition MineOnce_prepare (fuel : nat) : M unit :=
  mounted <- observe (Player_Mount h) ;;
  (if mounted : bool then
     SendMessage "--> Dismounting to mine" 66 ;;
     me <- observe (Player_Serial h) ;;
     call (Mobiles_UseMobile me) ;;
     pause 800
   else ret tt) ;;
  targeting <- observe (Target_HasTarget h) ;;
  (if targeting : bool then
     SendMessage "--> Detected block, canceling target!" 77 ;;
     call Target_Cancel ;;
     pause 300
   else ret tt) ;;
  CheckEnemy fuel ;;
  smelt_trigger ;;
  call Journal_Clear.

(** Lines 415-457: up to the end of the polling loop. *)
Definition MineOnce_swing (fuel : nat) : M unit :=
  MineOnce_prepare fuel ;;
  pickaxe <- EquipPickaxe ;;
  if negb (truthy pickaxe) then
    SendMessage "--> No mining tool available! Stopping script." 33 ;;
    Stop
  else
    call Target_Cancel ;;
    call (Target_WaitForTarget 300 false) ;;
    call (Items_UseItem (default 0 pickaxe)) ;;
    call (Target_WaitForTarget 300 false) ;;
    sp <- oreSpots_0 ;;
    call (Target_TargetExecute (OreSpot.x sp) (OreSpot.y sp)
                               (OreSpot.z sp) (OreSpot.id sp)) ;;
    pause 200 ;;
    Timer_Create "mineTimer" 5000 ;;
    while_loop fuel
      (fun _ : unit => done <- observe poll_done ;; ret (negb done))
      (fun _ => smelt_trigger ;; pause 100 ;; ret (Continue tt))
      tt.

(** [Timer.Create('%i,%i' % (oreSpots[0].x, oreSpots[0].y), oreCooldown)] *)
Definition cooldown_oreSpot : M unit :=
  sp <- oreSpots_0 ;;
  Timer_Create (coord_key (OreSpot.x sp) (OreSpot.y sp)) oreCooldown.

(** Lines 459-495: the decision taken from the journal. *)
Definition MineOnce_outcome : M bool :=
  riding <- observe (sys txt_riding) ;;
  if riding : bool then
    SendMessage "--> Cannot mine while mounted, dismounting..." 33 ;;
    mounted <- observe (Player_Mount h) ;;
    (if mounted : bool then
       me <- observe (Player_Serial h) ;;
       call (Mobiles_UseMobile me) ;;
       pause 300
     else ret tt) ;;
    ret true
  else
  no_metal <- observe (sys txt_no_metal) ;;
  if no_metal : bool then
    SendMessage "--> Ore spot depleted" 77 ;;
    cooldown_oreSpot ;;
    ret false
  else
  worn <- observe (sys txt_worn_out) ;;
  if worn : bool then
    SendMessage "--> Tool worn out, finding new pickaxe" 33 ;;
    EquipPickaxe ;;
    ret true
  else
  blocked <- observe (fun w => sys txt_can_not_mine w || sys txt_no_line_of_sight w) ;;
  if blocked : bool then
    n <- gets blockCount ;;
    modify (set_blockCount (n + 1)) ;;
    n' <- gets blockCount ;;
    if 3 <? n' then
      modify (set_blockCount 0) ;;
      SendMessage "--> Possible block detected, marking spot as depleted" 77 ;;
      cooldown_oreSpot ;;
      ret false
    else ret true
  else
  success <- observe (fun w => sys txt_dig_some w || sys txt_receive w
                               || sys txt_loosen w
                               || Journal_Search h txt_have_received w) ;;
  if success : bool then
    SendMessage "--> Mining successful!" 63 ;;
    call Journal_Clear ;;
    pause miningPauseMS ;;
    ret true
  else
  running <- Timer_Check "mineTimer" ;;
  if negb running then
    SendMessage "--> Mining timed out, marking spot as depleted" 77 ;;
    cooldown_oreSpot ;;
    ret false
  else ret false.

Definition MineOnce (fuel : nat) : M bool :=
  MineOnce_swing fuel ;;
  MineOnce_outcome.

(** *** Mining one location (lines 358-411) *)

Definition maxAttempts : Z := 20.

(** [item.ItemID in [oreID] + ingotIDs + otherResourceIDs] (line 384) *)
Definition is_droppable (item : Item) : bool :=
  py_in (ItemID item) ([oreID] ++ ingotIDs ++ otherResourceIDs).

(** Lines 383-388. *)
Definition drop_on_ground : M unit :=
  contents <- observe (Player_Backpack_Contains h) ;;
  for_loop contents (fun item (_ : unit) =>
    if is_droppable item then
      p <- observe (Player_Position h) ;;
      call (Items_MoveOnGround (Serial item) 1 (X p) (Y p) (Z_ p)) ;;
      SendMessage "--> Dropped items on ground!" 33 ;;
      pause 50 ;;
      ret (Break tt)
    else ret (Continue tt)) tt.

(** Lines 379-392, after [MoveToBeetle] has answered [moved]: [true]
    when the [break] of line 392 is taken. *)
Definition forced_drop (moved : bool) : M bool :=
  if negb moved then
    SendMessage "--> Failed to transfer items to beetle, trying to continue mining" 33 ;;
    w <- observe (Player_Weight h) ;;
    mw <- observe (Player_MaxWeight h) ;;
    if mw - 10 <=? w then
      SendMessage "--> CRITICAL: Too heavy to move!" 33 ;;
      drop_on_ground ;;
      smelt_trigger ;;
      ret true
    else ret false
  else ret false.

(** Lines 378-399: [false] when one of the two [break]s is taken. *)
Definition offload_check (fuel : nat) (attempts : Z) : M bool :=
  w <- observe (Player_Weight h) ;;
  limit <- gets weightLimit ;;
  if (limit - 40 <=? w) || ((0 <? attempts) && (attempts mod 8 =? 0)) then
    moved <- MoveToBeetle ;;
    critical <- forced_drop moved ;;
    if critical : bool then ret false
    else
      w <- observe (Player_Weight h) ;;
      mw <- observe (Player_MaxWeight h) ;;
      if w <? mw - 20 then
        MoveToOreSpot fuel ;;
        ret true
      else
        SendMessage "--> Still too heavy to return to mining spot" 33 ;;
        smelt_trigger ;;
        ret false
  else ret true.

(** The body of the [while] of line 371, on the loop's variables
    [(attempts, miningSuccess)]. *)
Definition MineSpot_body (fuel : nat) (l : Z * bool) : M (ctl (Z * bool)) :=
  let attempts := l.1 in
  smelt_trigger ;;
  (if attempts =? 1 then pause 100 else ret tt) ;;
  go_on <- offload_check fuel attempts ;;
  if go_on : bool then
    miningSuccess <- MineOnce fuel ;;
    let attempts := attempts + 1 in
    if miningSuccess : bool then
      let attempts := 0 in
      pause miningPauseMS ;;
      ret (Continue (attempts, miningSuccess))
    else
      SendMessage "--> Spot depleted or mining failed" 77 ;;
      pause 100 ;;
      ret (Continue (attempts, miningSuccess))
  else ret (Break l).

Definition MineSpot_cond (l : Z * bool) : M bool :=
  ret (l.2 && (l.1 <? maxAttempts)).

Definition MineSpot_loop (fuel : nat) (l : Z * bool) : M (Z * bool) :=
  while_loop fuel MineSpot_cond (MineSpot_body fuel) l.

Definition MineSpotUntilDepleted (fuel : nat) : M unit :=
  SendMessage "--> Mining spot until depleted..." 77 ;;
  mounted <- observe (Player_Mount h) ;;
  (if mounted : bool then
     me <- observe (Player_Serial h) ;;
     call (Mobiles_UseMobile me) ;;
     pause 300
   else ret tt) ;;
  SendMessage "--> Prospecting the area..." 66 ;;
  UseProspectorTool ;;
  pause 300 ;;
  l <- MineSpot_loop fuel (0, true) ;;
  if maxAttempts <=? l.1 then
    SendMessage "--> Maximum mining attempts reached, moving to next spot" 33
  else ret tt.

(** *** The control loop (lines 747-800) *)

Definition say (text : string) : M unit := call (Speak text).

Definition safetyNet : M unit :=
  if alert then
    toon <- observe (Mobiles_ApplyFilter h toonFilter) ;;
    invul <- observe (Mobiles_ApplyFilter h invulFilter) ;;
    match toon, invul with
    | _ :: _, _ =>
        call Misc_FocusUOWindow ;;
        say "Hey, someone is here. You should tab over and take a look" ;;
        toonName <- observe (Mobiles_Select h toon "Nearest") ;;
        if toonName is Some _ then SendMessage "Toon Near: {toonName.Name}" 33
        else ret tt
    | [], _ :: _ =>
        say "Hey, something invulnerable here. You should tab over and take a look" ;;
        invulName <- observe (Mobiles_Select h invul "Nearest") ;;
        if invulName is Some _
        then SendMessage "Uh Oh: Invul! Who is {invulName.Name}" 33
        else ret tt
    | [], [] => call Misc_NoOperation
    end
  else ret tt.

(** [oreSpots.pop(0)] *)
Definition pop_0 : M unit :=
  l <- gets oreSpots ;;
  match l with
  | _ :: rest => modify (set_oreSpots rest)
  | [] => raise IndexError
  end.

(** Lines 797-798: the visited spot leaves the list, the rest is sorted. *)
Definition remove_visited : M unit :=
  pop_0 ;;
  sort_oreSpots.

(** The body of the [while] of line 785. *)
Definition visit_nearest (fuel : nat) : M unit :=
  safetyNet ;;
  smelt_trigger ;;
  MoveToOreSpot fuel ;;
  MineSpotUntilDepleted fuel ;;
  smelt_trigger ;;
  remove_visited.

Definition onLoop : bool := true.

(** The body of the [while onLoop] of line 777. *)
Definition travel_cycle (fuel : nat) : M unit :=
  smelt_trigger ;;
  RecallNextSpot ;;
  ScanStatic ;;
  while_loop fuel
    (fun i : Z =>
       l <- gets oreSpots ;;
       ret (negb (bool_decide (l = [])) && (i <? Z.of_nat (length l))))
    (fun i => visit_nearest fuel ;; ret (Continue i))
    0 ;;
  modify (set_oreSpots []) ;;
  pause 100.

(** Lines 773-800. *)
Definition main (fuel : nat) : M unit :=
  call (Friend_ChangeList "mining") ;;
  SendMessage "--> Starting Open World Mining" 77 ;;
  EquipPickaxe ;;
  while_loop fuel
    (fun _ : unit => ret onLoop)
    (fun _ => travel_cycle fuel ;; ret (Continue tt))
    tt ;;
  ret tt.

(** The script from its first line. *)
Definition script (fuel : nat) : M unit :=
  skill_check ;;
  init_weightLimit ;;
  link_smelter ;;
  main fuel.

End Script.

(** The state the script starts in (lines 15, 79-86). *)
Definition initial_state (w : World) : State :=
  mkState w [] None 0 5 beetle_serial 0 None false.

End Mining.

(** * [led_connection_test.py] *)

Module LedTest.

Definition PORT : Z := 5200.
Definition TIMEOUT_SECONDS : Q := 3.

(** The exceptions [sock.connect] can raise, by class: [socket.timeout],
    any other [OSError], or a class outside [OSError]. *)
Inductive py_exc :=
| socket_timeout
| OSError (errno : Z)
| OtherError (name : string).

(** A socket object. *)
Record Socket := mkSocket {
  timeout : option Q;
  connected_to : option (string * Z);
  closed : bool
}.

(** The sockets created so far; a socket is named by its index. *)
Abbreviation Sockets := (list Socket).

Inductive result (A : Type) :=
| Returned (a : A) (st : Sockets)
| Raised (e : py_exc) (st : Sockets).
Arguments Returned {A} a st.
Arguments Raised {A} e st.

Definition update (sock : nat) (f : Socket → Socket) (st : Sockets) : Sockets :=
  match st !! sock with
  | Some so => <[sock := f so]> st
  | None => st
  end.

(** [settimeout], called with the constant 3.0 on the socket just made,
    and [close], in the [finally], are taken to succeed. *)
Definition settimeout (sock : nat) (t : Q) : Sockets → Sockets :=
  update sock (fun so => mkSocket (Some t) (connected_to so) (closed so)).
Definition close (sock : nat) : Sockets → Sockets :=
  update sock (fun so => mkSocket (timeout so) (connected_to so) true).

Section Network.

(** What [socket.socket(AF_INET, SOCK_STREAM)] does, given the sockets
    made so far: [None] when it makes a socket, or the exception it
    raises (an [OSError] when the process has no descriptor left, for
    one). *)
Context (creation : Sockets → option py_exc).

(** What the network does with a connection attempt made with a given
    timeout: [None] when it is established, or the exception raised. *)
Context (network : string * Z → option Q → option py_exc).

(** Line 23, before the [try]. *)
Definition socket_socket (st : Sockets) : result nat :=
  match creation st with
  | None => Returned (List.length st) (st ++ [mkSocket None None false])%list
  | Some e => Raised e st
  end.

Definition connect (sock : nat) (address : string * Z) (st : Sockets) : result unit :=
  match network address (from_option timeout None (st !! sock)) with
  | None =>
      Returned tt (update sock (fun so =>
        mkSocket (timeout so) (Some address) (closed so)) st)
  | Some e => Raised e st
  end.

(** [except (socket.timeout, OSError)] *)
Definition handled (e : py_exc) : bool :=
  match e with
  | socket_timeout | OSError _ => true
  | OtherError _ => false
  end.

(** [try: ... finally: cleanup] *)
Definition try_finally {A} (r : result A) (cleanup : Sockets → Sockets) : result A :=
  match r with
  | Returned a st => Returned a (cleanup st)
  | Raised e st => Raised e (cleanup st)
  end.

Definition try_connect (address : string * Z) (st : Sockets) : result bool :=
  match socket_socket st with
  | Raised e st => Raised e st
  | Returned sock st =>
      let st := settimeout sock TIMEOUT_SECONDS st in
      try_finally
        (match connect sock address st with
         | Returned _ st' => Returned true st'
         | Raised e st' =>
             if handled e then Returned false st' else Raised e st'
         end)
        (close sock)
  end.

(** Lines 36-41 of [main], after the prompt: the line printed. *)
Definition report (ip_address : string) (st : Sockets) : result string :=
  let target := (ip_address, PORT) in
  match try_connect target st with
  | Returned true st' => Returned "SUCCESS: Connection established!" st'
  | Returned false st' => Returned "FAILURE: Could not connect." st'
  | Raised e st' => Raised e st'
  end.

End Network.

(** [str.isspace] of one character, for the code points below 256: the
    ASCII white space of [str.strip] (9-13, 28-32), NEL and the no-break
    space. *)
Definition is_space (c : ascii) : bool :=
  let n := Z.of_nat (nat_of_ascii c) in
  ((9 <=? n) && (n <=? 13)) || ((28 <=? n) && (n <=? 32))
  || (n =? 133) || (n =? 160).

(** [str.lstrip()], [str.rstrip()] and [str.strip()]. *)
Fixpoint py_lstrip (s : string) : string :=
  match s with
  | EmptyString => EmptyString
  | String c r => if is_space c then py_lstrip r else s
  end.
Fixpoint py_rstrip (s : string) : string :=
  match s with
  | EmptyString => EmptyString
  | String c r =>
      match py_rstrip r with
      | EmptyString => if is_space c then EmptyString else String c EmptyString
      | r' => String c r'
      end
  end.
Definition py_strip (s : string) : string := py_rstrip (py_lstrip s).

(** How a run of the program ends: at the end of [main], at a
    [sys.exit], or at an exception nothing catches. *)
Inductive ending :=
| Finished
| SystemExit (code : Z)
| Uncaught (e : py_exc).

(** What a run leaves: the lines it printed, its ending, the sockets. *)
Record Run := mkRun {
  printed : list string;
  ended : ending;
  sockets : Sockets
}.

(** Lines 12-18, on the line [input] gives: [None] stands for the
    [sys.exit(1)] after the message of line 16. *)
Definition prompt_for_ip (typed : string) : option string :=
  let ip_address := py_strip typed in
  if String.eqb ip_address "" then None else Some ip_address.

Section Program.
Context (creation : Sockets → option py_exc).
Context (network : string * Z → option Q → option py_exc).

(** Lines 34-41. *)
Definition main (typed : string) (st : Sockets) : Run :=
  match prompt_for_ip typed with
  | None => mkRun ["FAILURE: No IP address provided."] (SystemExit 1) st
  | Some ip_address =>
      let target := (ip_address, PORT) in
      match try_connect creation network target st with
      | Returned true st' => mkRun ["SUCCESS: Connection established!"] Finished st'
      | Returned false st' => mkRun ["FAILURE: Could not connect."] Finished st'
      | Raised e st' => mkRun [] (Uncaught e) st'
      end
  end.

End Program.

(** An address that refuses the connection, one that answers, and one
    whose name cannot be encoded. *)
Definition demo_network : string * Z → option Q → option py_exc :=
  fun address _ =>
    if String.eqb address.1 "192.168.0.100" then None
    else if String.eqb address.1 "192.168.0.101" then Some socket_timeout
    else if String.eqb address.1 "a..b" then Some (OtherError "UnicodeError")
    else Some (OSError 111).

(** Every socket asked for is made; and a process that is out of file
    descriptors ([EMFILE]). *)
Definition demo_creation : Sockets → option py_exc := fun _ => None.
Definition exhausted : Sockets → option py_exc := fun _ => Some (OSError 24).

End LedTest.

(** * Hosts and states to run the script on *)

Module MiningHosts.
Import Mining.

(** The result of a run that returned. *)
Definition returned {A} (r : outcome A) (s : State) : State :=
  match r with
  | Ret _ s' => s'
  | _ => s
  end.


Definition pickaxe_item : Item :=
  mkItem 0x4001 0x0E85 "pickaxe" (Some 2) (Some 1) (Some 11) None.
Definition ore_item : Item :=
  mkItem 0x5001 0x19B9 "iron ore" None (Some 10) (Some 12) None.
Definition ingots : Item :=
  mkItem 0x5002 0x1BF2 "iron ingots" None (Some 10) (Some 10) None.
(** A pack that holds 400 stones: four piles of a hundred. *)
Definition beetle_pack_full : Item :=
  mkItem 0x6001 0x0E75 "backpack" (Some 21) (Some 1) None
         (Some [ingots; ingots; ingots; ingots]).
Definition beetle_mobile : Mobile :=
  mkMobile beetle_serial 0x317 "a giant beetle" (mkPosition 101 100 0)
           (Some beetle_pack_full) None.

(** A host given by the answers that vary between the runs below; the
    agent stands at (100, 100), holds a pickaxe in the left hand, is not
    mounted and meets no enemy; paths fail. *)
Definition host_of
    (tiles : Z → Z → list TileInfo)
    (journal : string → World → bool)
    (weight : World → Z)
    (backpack : World → list Item)
    (left_hand : option Item)
    (items : Z → World → option Item)
    (mobiles : Z → World → option Mobile)
    (imported : import_result)
    (helper : gmap string PyVal → World → option (exc_class * string)) : Host :=
  {| Player_GetRealSkillValue := fun _ _ => 100%Q;
     Player_Weight := weight;
     Player_MaxWeight := fun _ => 500;
     Player_Mount := fun _ => false;
     Player_Position := fun _ => mkPosition 100 100 0;
     Player_Serial := fun _ => 0x1001;
     Player_GetItemOnLayer := fun layer _ =>
       if String.eqb layer "LeftHand" then left_hand else None;
     Player_Backpack_Contains := backpack;
     Player_Backpack_Serial := fun _ => 0x2001;
     Player_DistanceTo := fun m _ => Z.abs (X (MPosition m) - 100);
     Statics_GetStaticsTileInfo := fun cx cy _ => tiles cx cy;
     Journal_SearchByType := fun text _ w => journal text w;
     Journal_Search := journal;
     Target_HasTarget := fun _ => false;
     Target_GetTargetFromList := fun _ _ => None;
     PathFinding_Go_result := fun _ => false;
     Items_FindBySerial := items;
     Items_FindByID := fun _ _ _ _ _ => None;
     Items_ApplyFilter_corpses := fun _ => [];
     Mobiles_FindBySerial := mobiles;
     Mobiles_ApplyFilter := fun _ _ => [];
     Mobiles_Select := fun _ _ _ => None;
     import_auto_smelter := imported;
     smelter_run := helper |}.

Definition no_tiles : Z → Z → list TileInfo := fun _ _ => [].
Definition silent : string → World → bool := fun _ _ => false.

(** The journal shows [text] and nothing else. *)
Definition shows (text : string) : string → World → bool :=
  fun t _ => String.eqb t text.

(** A plain host: nothing on the map, nothing in the journal, a light
    agent with an empty backpack, no beetle, no auto-smelter. *)
Definition plain_host : Host :=
  host_of no_tiles silent (fun _ => 0) (fun _ => []) (Some pickaxe_item)
          (fun _ _ => None) (fun _ _ => None) NoModule (fun _ _ => None).

Definition world0 : World := mkWorld 0 ∅ [].
Definition state0 : State := initial_state world0.

(** Three rocks east of the agent; the one at (105, 100) is on cooldown. *)
Definition rocks : Z → Z → list TileInfo := fun cx cy =>
  if (cy =? 100) && ((cx =? 101) || (cx =? 105) || (cx =? 103))
  then [mkTileInfo 0x053E 0] else
  if (cy =? 101) && (cx =? 102) then [mkTileInfo 0x0001 0] else [].
Definition rocks_host : Host :=
  host_of rocks silent (fun _ => 0) (fun _ => []) (Some pickaxe_item)
          (fun _ _ => None) (fun _ _ => None) NoModule (fun _ _ => None).
Definition cooled_world : World :=
  mkWorld 1000 {[ coord_key 105 100 := 5000 ]} [].
Definition cooled_state : State := initial_state cooled_world.

(** A state with one candidate, the rock at (101, 100). *)
Definition rock : OreSpot.t := OreSpot.mk 101 100 0 0x053E.
Definition digging_state : State := set_oreSpots [rock] state0.

(** The journal answers every attempt with the depletion text. *)
Definition depleted_host : Host :=
  host_of no_tiles (shows txt_no_metal) (fun _ => 0) (fun _ => [])
          (Some pickaxe_item) (fun _ _ => None) (fun _ _ => None)
          NoModule (fun _ _ => None).
Definition depleted_swung : State :=
  Eval vm_compute in
    match MineOnce_swing depleted_host 60 digging_state with
    | Ret _ s1 => s1
    | _ => digging_state
    end.

(** The journal answers every attempt with the line-of-sight text. *)
Definition blocked_host : Host :=
  host_of no_tiles (shows txt_no_line_of_sight) (fun _ => 0) (fun _ => [])
          (Some pickaxe_item) (fun _ _ => None) (fun _ _ => None)
          NoModule (fun _ _ => None).
Definition blocked_swung : State :=
  Eval vm_compute in
    match MineOnce_swing blocked_host 60 digging_state with
    | Ret _ s1 => s1
    | _ => digging_state
    end.

(** The number of swings made so far. *)
Definition swings (w : World) : nat :=
  List.length (List.filter (fun c => match c with
                                     | Target_TargetExecute _ _ _ _ => true
                                     | _ => false
                                     end) (trace w)).

(** The third attempt digs ore; every other one has no line of sight. *)
Definition third_digs_host : Host :=
  host_of no_tiles
          (fun t w => if (swings w =? 3)%nat then String.eqb t txt_dig_some
                      else String.eqb t txt_no_line_of_sight)
          (fun _ => 0) (fun _ => [])
          (Some pickaxe_item) (fun _ _ => None) (fun _ _ => None)
          NoModule (fun _ _ => None).

(** The item has been moved out of the backpack. *)
Definition moved_away (serial : Z) (w : World) : bool :=
  existsb (fun c => match c with
                    | Items_Move sn _ _ | Items_MoveOnGround sn _ _ _ _ => sn =? serial
                    | _ => false
                    end) (trace w).

(** The beetle stands next to the agent with a full pack; the agent
    carries one pile of ore. *)
Definition full_beetle_host : Host :=
  host_of no_tiles silent (fun _ => 120)
          (fun w => if moved_away (Serial ore_item) w then [pickaxe_item]
                    else [pickaxe_item; ore_item])
          (Some pickaxe_item)
          (fun serial w =>
             if (serial =? Serial ore_item) && negb (moved_away serial w)
             then Some ore_item else None)
          (fun serial _ => if serial =? beetle_serial then Some beetle_mobile else None)
          NoModule (fun _ _ => None).

(** An agent with no mining tool at hand or in the backpack. *)
Definition toolless_host : Host :=
  host_of no_tiles silent (fun _ => 0) (fun _ => []) None
          (fun _ _ => None) (fun _ _ => None) NoModule (fun _ _ => None).

(** An overweight agent (495 of 500 stones) with no beetle in reach.
    The pile of ore it carries has the graphic 0x19B7, which is none of
    the resource IDs of the script. *)
Definition small_ore_item : Item :=
  mkItem 0x5003 0x19B7 "iron ore" None (Some 2) (Some 12) None.
Definition heavy_bare_host : Host :=
  host_of no_tiles silent (fun _ => 495) (fun _ => [pickaxe_item; small_ore_item])
          (Some pickaxe_item) (fun _ _ => None) (fun _ _ => None)
          NoModule (fun _ _ => None).
(** The same agent carrying a pile of ore the script knows, with the
    auto-smelter linked. *)
Definition heavy_host : Host :=
  host_of no_tiles silent (fun _ => 495)
          (fun w => if moved_away (Serial ore_item) w then [pickaxe_item]
                    else [pickaxe_item; ore_item])
          (Some pickaxe_item) (fun _ _ => None) (fun _ _ => None)
          (Imported ∅) (fun _ _ => None).
Definition heavy_state : State := set_weightLimit 100 digging_state.
Definition heavy_linked_state : State := set_smelter_linked true heavy_state.

(** The round of the extraction loop up to the failed offload. *)
Definition heavy_after_trigger : State :=
  returned (bind (smelt_trigger heavy_host) (fun _ => ret tt) heavy_linked_state)
           heavy_linked_state.
Definition heavy_after_move : State :=
  returned (MoveToBeetle heavy_host heavy_after_trigger) heavy_after_trigger.

Definition is_drop (c : Call) : bool :=
  match c with
  | Items_MoveOnGround _ _ _ _ _ => true
  | _ => false
  end.
Definition is_smelter_call (c : Call) : bool :=
  match c with
  | Smelter_invoked => true
  | _ => false
  end.
Definition is_message (c : Call) : bool :=
  match c with
  | Misc_SendMessage _ _ => true
  | _ => false
  end.

(** An [auto_smelter] whose helper raises the [TypeError] of a list that
    is not a [List[Int32]] at every call, normalised lists or not. *)
Definition int32_complaint : string := "expected List[Int32], got list".
Definition smelter_attrs : gmap string PyVal :=
  {[ "ORE_IDS" := PyIntList [0x19B9]; "DEBUG_MODE" := PyOther ]}.
Definition stubborn_host : Host :=
  host_of no_tiles silent (fun _ => 0) (fun _ => []) (Some pickaxe_item)
          (fun _ _ => None) (fun _ _ => None)
          (Imported smelter_attrs) (fun _ _ => Some (TypeError, int32_complaint)).

(** A helper that raises some other exception at every call. *)
Definition failing_host : Host :=
  host_of no_tiles silent (fun _ => 0) (fun _ => []) (Some pickaxe_item)
          (fun _ _ => None) (fun _ _ => None)
          (Imported smelter_attrs) (fun _ _ => Some (Exception, "no forge nearby")).

(** The host [h] with other answers to [PathFinding.Go]. *)
Definition with_paths (go : World → bool) (h : Host) : Host :=
  {| Player_GetRealSkillValue := Player_GetRealSkillValue h;
     Player_Weight := Player_Weight h;
     Player_MaxWeight := Player_MaxWeight h;
     Player_Mount := Player_Mount h;
     Player_Position := Player_Position h;
     Player_Serial := Player_Serial h;
     Player_GetItemOnLayer := Player_GetItemOnLayer h;
     Player_Backpack_Contains := Player_Backpack_Contains h;
     Player_Backpack_Serial := Player_Backpack_Serial h;
     Player_DistanceTo := Player_DistanceTo h;
     Statics_GetStaticsTileInfo := Statics_GetStaticsTileInfo h;
     Journal_SearchByType := Journal_SearchByType h;
     Journal_Search := Journal_Search h;
     Target_HasTarget := Target_HasTarget h;
     Target_GetTargetFromList := Target_GetTargetFromList h;
     PathFinding_Go_result := go;
     Items_FindBySerial := Items_FindBySerial h;
     Items_FindByID := Items_FindByID h;
     Items_ApplyFilter_corpses := Items_ApplyFilter_corpses h;
     Mobiles_FindBySerial := Mobiles_FindBySerial h;
     Mobiles_ApplyFilter := Mobiles_ApplyFilter h;
     Mobiles_Select := Mobiles_Select h;
     import_auto_smelter := import_auto_smelter h;
     smelter_run := smelter_run h |}.

(** The host [h] with an enemy list and corpses. *)
Definition with_fight (enemy : World → option Mobile)
    (corpses : World → list Item) (h : Host) : Host :=
  {| Player_GetRealSkillValue := Player_GetRealSkillValue h;
     Player_Weight := Player_Weight h;
     Player_MaxWeight := Player_MaxWeight h;
     Player_Mount := Player_Mount h;
     Player_Position := Player_Position h;
     Player_Serial := Player_Serial h;
     Player_GetItemOnLayer := Player_GetItemOnLayer h;
     Player_Backpack_Contains := Player_Backpack_Contains h;
     Player_Backpack_Serial := Player_Backpack_Serial h;
     Player_DistanceTo := Player_DistanceTo h;
     Statics_GetStaticsTileInfo := Statics_GetStaticsTileInfo h;
     Journal_SearchByType := Journal_SearchByType h;
     Journal_Search := Journal_Search h;
     Target_HasTarget := Target_HasTarget h;
     Target_GetTargetFromList := fun _ => enemy;
     PathFinding_Go_result := PathFinding_Go_result h;
     Items_FindBySerial := Items_FindBySerial h;
     Items_FindByID := Items_FindByID h;
     Items_ApplyFilter_corpses := corpses;
     Mobiles_FindBySerial := fun serial w =>
       match enemy w with
       | Some e => if serial =? MSerial e then Some e else Mobiles_FindBySerial h serial w
       | None => Mobiles_FindBySerial h serial w
       end;
     Mobiles_ApplyFilter := Mobiles_ApplyFilter h;
     Mobiles_Select := Mobiles_Select h;
     import_auto_smelter := import_auto_smelter h;
     smelter_run := smelter_run h |}.

(** Every path succeeds, and the agent stays where it is. *)
Definition treadmill_host : Host := with_paths (fun _ => true) plain_host.

(** A rock out of reach, nine tiles east of the agent. *)
Definition far_rock : OreSpot.t := OreSpot.mk 109 100 0 0x053E.
Definition far_state : State := set_oreSpots [far_rock] state0.

(** Three candidates, the visited one first. *)
Definition west_rock : OreSpot.t := OreSpot.mk 97 100 0 0x053E.
Definition three_rocks_state : State :=
  set_oreSpots [rock; far_rock; west_rock] state0.

(** The number of launches of the fight script so far. *)
Definition fights (w : World) : nat :=
  List.length (List.filter (fun c => match c with
                                     | Misc_ScriptRun _ => true
                                     | _ => false
                                     end) (trace w)).

(** A raider three tiles away, who is gone once the fight script has
    been launched twice, leaving a corpse that holds ore and a
    pickaxe. *)
Definition raider : Mobile :=
  mkMobile 0x7001 0x190 "a brigand" (mkPosition 103 100 0) None None.
Definition corpse_item : Item :=
  mkItem 0x8001 0x2006 "corpse" None (Some 1) None (Some [ore_item; pickaxe_item]).
Definition raided_host : Host :=
  with_fight (fun w => if (fights w <? 2)%nat then Some raider else None)
             (fun _ => [corpse_item]) plain_host.

(** The journal shows the text of a depleted location and the text of a
    mounted attempt. *)
Definition riding_depleted_host : Host :=
  host_of no_tiles
          (fun t _ => String.eqb t txt_no_metal || String.eqb t txt_riding)
          (fun _ => 0) (fun _ => [])
          (Some pickaxe_item) (fun _ _ => None) (fun _ _ => None)
          NoModule (fun _ _ => None).

End MiningHosts.

(** * Properties of the mining script *)

Module MiningSpec.
Import Mining.
Local Open Scope py_scope.

(** ** Reasoning about script fragments *)

(** [wp m Q s]: from [s], [m] returns normally, with a result and a state
    that satisfy [Q]. *)
Definition wp {A} (m : M A) (Q : A → State → Prop) (s : State) : Prop :=
  match m s with
  | Ret a s' => Q a s'
  | _ => False
  end.

Arguments wp : simpl never.

Lemma wp_ret {A} (a : A) Q s : Q a s → wp (ret a) Q s.
Proof. done. Qed.

Lemma wp_bind {A B} (m : M A) (k : A → M B) Q s :
  wp m (fun a => wp (k a) Q) s → wp (bind m k) Q s.
Proof. unfold wp, bind. by destruct (m s). Qed.

Lemma wp_mono {A} (m : M A) (Q Q' : A → State → Prop) s :
  wp m Q s → (∀ a s', Q a s' → Q' a s') → wp m Q' s.
Proof. unfold wp. destruct (m s); naive_solver. Qed.

Lemma wp_gets {A} (f : State → A) Q s : Q (f s) s → wp (gets f) Q s.
Proof. done. Qed.

Lemma wp_modify f Q s : Q tt (f s) → wp (modify f) Q s.
Proof. done. Qed.

Lemma wp_observe {A} (f : World → A) Q s : Q (f (world s)) s → wp (observe f) Q s.
Proof. done. Qed.

Lemma wp_elim {A} (m : M A) Q s :
  wp m Q s → ∃ a s', m s = Ret a s' ∧ Q a s'.
Proof. unfold wp. destruct (m s); naive_solver. Qed.

Lemma wp_intro {A} (m : M A) (Q : A → State → Prop) s a s' :
  m s = Ret a s' → Q a s' → wp m Q s.
Proof. unfold wp. by intros ->. Qed.

(** A [for] loop keeps an invariant that each round of its body keeps. *)
Lemma wp_for_loop {A L} (xs : list A) (body : A → L → M (ctl L))
    (I : L → State → Prop) l s :
  (∀ a l s, a ∈ xs → I l s →
     wp (body a l)
        (fun r s' => match r with Continue l' | Break l' => I l' s' end) s) →
  I l s → wp (for_loop xs body l) I s.
Proof.
  revert l s. induction xs as [|a xs IH]; intros l s Hbody HI; simpl.
  - by apply wp_ret.
  - apply wp_bind. eapply wp_mono.
    + apply Hbody; [left | done].
    + intros [l'|l'] s' HI'; simpl in *.
      * apply IH; [|done]. intros. apply Hbody; [by right | done].
      * by apply wp_ret.
Qed.

Lemma wp_for_each {A} (xs : list A) (body : A → M unit) (I : State → Prop) s :
  (∀ a s, a ∈ xs → I s → wp (body a) (fun _ => I) s) →
  I s → wp (for_each xs body) (fun _ => I) s.
Proof.
  intros Hbody HI. unfold for_each.
  apply (wp_for_loop xs _ (fun _ => I)); [|done].
  intros a [] s0 Ha HI0. apply wp_bind.
  eapply wp_mono; [by apply Hbody|]. intros u s' HI'. by apply wp_ret.
Qed.

(** A [while] loop whose rounds lower a measure returns once the fuel
    exceeds the measure. *)
Lemma wp_while_loop {L} (cond : L → M bool) (body : L → M (ctl L))
    (I : L → State → Prop) (mu : L → State → nat) (Q : L → State → Prop)
    fuel l s :
  (∀ l s, I l s →
     wp (cond l) (fun c s' =>
       if c then
         wp (body l) (fun r s'' =>
           match r with
           | Continue l' => I l' s'' ∧ (mu l' s'' < mu l s)%nat
           | Break l' => Q l' s''
           end) s'
       else Q l s') s) →
  I l s → (mu l s < fuel)%nat → wp (while_loop fuel cond body l) Q s.
Proof.
  intros Hstep. revert l s.
  induction fuel as [|fuel IH]; intros l s HI Hmu; [lia|]. simpl.
  apply wp_bind. eapply wp_mono; [by apply Hstep|].
  intros [] s' H; simpl in H.
  - apply wp_bind. eapply wp_mono; [exact H|].
    intros [l'|l'] s'' H'; simpl in H'.
    + destruct H' as [HI' Hlt]. apply IH; [done | lia].
    + by apply wp_ret.
  - by apply wp_ret.
Qed.

(** [pc m Q E s]: if [m] returns from [s], [Q] holds of the result; if
    it raises, [E] holds of the exception.  Nothing is said of a run that
    the fuel cuts short. *)
Definition pc {A} (m : M A) (Q : A → State → Prop) (E : exc → State → Prop)
    (s : State) : Prop :=
  match m s with
  | Ret a s' => Q a s'
  | Raise e s' => E e s'
  | OutOfFuel => True
  end.

Lemma pc_ret {A} (a : A) Q E s : Q a s → pc (ret a) Q E s.
Proof. done. Qed.

Lemma pc_raise {A} e (Q : A → State → Prop) (E : exc → State → Prop) s :
  E e s → pc (raise e) Q E s.
Proof. done. Qed.

Lemma pc_bind {A B} (m : M A) (k : A → M B) Q E s :
  pc m (fun a => pc (k a) Q E) E s → pc (bind m k) Q E s.
Proof. unfold pc, bind. by destruct (m s). Qed.

Lemma pc_mono {A} (m : M A) (Q Q' : A → State → Prop) (E E' : exc → State → Prop) s :
  pc m Q E s → (∀ a s', Q a s' → Q' a s') → (∀ e s', E e s' → E' e s') →
  pc m Q' E' s.
Proof. unfold pc. destruct (m s); naive_solver. Qed.

Lemma pc_gets {A} (f : State → A) Q E s : Q (f s) s → pc (gets f) Q E s.
Proof. done. Qed.

Lemma pc_modify f Q E s : Q tt (f s) → pc (modify f) Q E s.
Proof. done. Qed.

Lemma pc_try_except {A} (body : M A) handler Q E s :
  pc body Q (fun e => pc (handler e) Q E) s → pc (try_except body handler) Q E s.
Proof. unfold pc, try_except. by destruct (body s). Qed.

Lemma pc_ret_elim {A} (m : M A) Q E s a s' :
  pc m Q E s → m s = Ret a s' → Q a s'.
Proof. unfold pc. intros H Heq. by rewrite Heq in H. Qed.

Lemma pc_raise_elim {A} (m : M A) Q E s e s' :
  pc m Q E s → m s = Raise e s' → E e s'.
Proof. unfold pc. intros H Heq. by rewrite Heq in H. Qed.

Lemma wp_pc {A} (m : M A) Q E s : wp m Q s → pc m Q E s.
Proof. unfold wp, pc. by destruct (m s). Qed.

Lemma pc_for_loop {A L} (xs : list A) (body : A → L → M (ctl L))
    (I : L → State → Prop) E l s :
  (∀ a l s, I l s →
     pc (body a l)
        (fun r s' => match r with Continue l' | Break l' => I l' s' end) E s) →
  I l s → pc (for_loop xs body l) I E s.
Proof.
  intros Hbody. revert l s. induction xs as [|a xs IH]; intros l s HI; simpl.
  - by apply pc_ret.
  - apply pc_bind. eapply pc_mono; [by apply Hbody| |done].
    intros [l'|l'] s' HI'; simpl in *; [by apply IH | by apply pc_ret].
Qed.

Lemma pc_for_each {A} (xs : list A) (body : A → M unit) (I : State → Prop) E s :
  (∀ a s, I s → pc (body a) (fun _ => I) E s) →
  I s → pc (for_each xs body) (fun _ => I) E s.
Proof.
  intros Hbody HI. unfold for_each.
  apply (pc_for_loop xs _ (fun _ => I)); [|done].
  intros a u s0 HI0. apply pc_bind.
  eapply pc_mono; [by apply Hbody| |done]. intros v s' HI'. by apply pc_ret.
Qed.

(** A [while] loop keeps an invariant of its rounds; it is left at a
    [break] or when its guard fails. *)
Lemma pc_while_loop {L} (cond : L → M bool) (body : L → M (ctl L))
    (I : L → State → Prop) (Q : L → State → Prop) E fuel l s :
  (∀ l s, I l s →
     pc (cond l) (fun c s' =>
       if c then
         pc (body l) (fun r s'' =>
           match r with
           | Continue l' => I l' s''
           | Break l' => Q l' s''
           end) E s'
       else Q l s') E s) →
  I l s → pc (while_loop fuel cond body l) Q E s.
Proof.
  intros Hstep. revert l s.
  induction fuel as [|fuel IH]; intros l s HI; [done|]. simpl.
  apply pc_bind. eapply pc_mono; [by apply Hstep| |done].
  intros [] s' H; simpl in H.
  - apply pc_bind. eapply pc_mono; [exact H| |done].
    intros [l'|l'] s'' H'; simpl in H'; [by apply IH | by apply pc_ret].
  - by apply pc_ret.
Qed.

(** One step through a script fragment. *)
Ltac pc_step :=
  lazymatch goal with
  | |- pc (bind _ _) _ _ _ => apply pc_bind
  | |- pc (ret _) _ _ _ => apply pc_ret
  | |- pc (gets _) _ _ _ => apply pc_gets
  | |- pc (observe _) _ _ _ => apply pc_gets
  | |- pc (Timer_Check _) _ _ _ => apply pc_gets
  | |- pc (modify _) _ _ _ => apply pc_modify
  | |- pc (call _) _ _ _ => apply pc_modify
  | |- pc (pause _) _ _ _ => apply pc_modify
  | |- pc (SendMessage _ _) _ _ _ => apply pc_modify
  | |- pc (Timer_Create _ _) _ _ _ => apply pc_modify
  | |- pc (aim _ _) _ _ _ => apply pc_modify
  | |- pc (say _) _ _ _ => apply pc_modify
  | |- pc (raise _) _ _ _ => apply pc_raise
  | |- pc Stop _ _ _ => apply pc_raise
  | |- pc (if ?b then _ else _) _ _ _ => destruct b eqn:?
  | |- pc (match ?x with _ => _ end) _ _ _ => destruct x eqn:?
  end.
Ltac pc_steps := repeat (pc_step; simpl).

(** One step through a fragment that returns. *)
Ltac wp_step :=
  lazymatch goal with
  | |- wp (bind _ _) _ _ => apply wp_bind
  | |- wp (ret _) _ _ => apply wp_ret
  | |- wp (gets _) _ _ => apply wp_gets
  | |- wp (observe _) _ _ => apply wp_gets
  | |- wp (Timer_Check _) _ _ => apply wp_gets
  | |- wp (modify _) _ _ => apply wp_modify
  | |- wp (call _) _ _ => apply wp_modify
  | |- wp (pause _) _ _ => apply wp_modify
  | |- wp (SendMessage _ _) _ _ => apply wp_modify
  | |- wp (Timer_Create _ _) _ _ => apply wp_modify
  | |- wp (if ?b then _ else _) _ _ => destruct b eqn:?
  | |- wp (match ?x with _ => _ end) _ _ => destruct x eqn:?
  end.
Ltac wp_steps := repeat (wp_step; simpl).

(** Run a fragment on a state, rewriting with what is known of the
    host's answers. *)
Ltac run :=
  repeat (cbn; progress (repeat match goal with
                                | H : _ = _ |- _ => rewrite H
                                end)).

(** ** What the script's functions leave alone *)

(** Two states with the same candidates, block counter, weight limit and
    smelter link. *)
Definition agree (s s' : State) : Prop :=
  oreSpots s = oreSpots s' ∧ blockCount s = blockCount s'
  ∧ weightLimit s = weightLimit s' ∧ smelter_linked s = smelter_linked s'.

(** A property of those four variables only. *)
Definition quiet (I : State → Prop) : Prop :=
  ∀ s s', agree s s' → I s → I s'.

Lemma quiet_agree s0 : quiet (agree s0).
Proof.
  intros s s' (?&?&?&?) (?&?&?&?). repeat split; congruence.
Qed.

(** A property of the candidates only. *)
Definition calm (I : State → Prop) : Prop :=
  ∀ s s', oreSpots s = oreSpots s' → I s → I s'.

Lemma calm_quiet I : calm I → quiet I.
Proof. intros HC s s' [Heq _]. by apply HC. Qed.

(** There is a candidate at hand. *)
Definition has_spot (s : State) : Prop := oreSpots s ≠ [].

Lemma has_spot_calm : calm has_spot.
Proof. unfold calm, has_spot. congruence. Qed.

Lemma True_calm : calm (fun _ => True).
Proof. done. Qed.

(** A quiet property passes to a state that differs in other variables. *)
Ltac quiet_solve :=
  match goal with
  | H : ?I ?s |- ?I ?s' => exact H
  | HQ : quiet ?I, H : ?I ?s |- ?I ?s' =>
      exact (HQ s s' ltac:(repeat split; reflexivity) H)
  | HC : calm ?I, H : ?I ?s |- ?I ?s' =>
      exact (HC s s' ltac:(reflexivity) H)
  end.
Ltac quiet_steps := pc_steps; try quiet_solve.

(** Enter a call of a function whose lemma [lem] keeps the invariant. *)
Ltac pc_call lem :=
  eapply pc_mono; [eapply lem; eauto; try quiet_solve | intros ? ? ? | done].

(** ** Python's [sorted] *)

Section Sorted.
Context {A : Type} (key : A → Z).

Definition key_le (a b : A) : Prop := key a ≤ key b.

Lemma insert_by_Permutation a l : insert_by key a l ≡ₚ a :: l.
Proof.
  induction l as [|b l IH]; simpl; [done|].
  destruct (key b <=? key a); [|done].
  rewrite IH. apply Permutation_swap.
Qed.

Lemma insert_by_sorted a l :
  StronglySorted key_le l → StronglySorted key_le (insert_by key a l).
Proof.
  induction l as [|b l IH]; simpl; intros Hs.
  - repeat constructor.
  - apply StronglySorted_cons in Hs as [Hb Hl].
    destruct (Z.leb_spec (key b) (key a)) as [Hle|Hlt].
    + apply StronglySorted_cons. split; [|by apply IH].
      rewrite insert_by_Permutation. by constructor.
    + apply StronglySorted_cons. split.
      * constructor; [unfold key_le; lia|].
        eapply Forall_impl; [exact Hb|]. unfold key_le. intros; simpl in *; lia.
      * by apply StronglySorted_cons.
Qed.

Lemma foldl_insert_by l acc :
  StronglySorted key_le acc →
  StronglySorted key_le (foldl (fun acc a => insert_by key a acc) acc l)
  ∧ foldl (fun acc a => insert_by key a acc) acc l ≡ₚ acc ++ l.
Proof.
  revert acc. induction l as [|a l IH]; intros acc Hacc; simpl.
  - by rewrite app_nil_r.
  - destruct (IH (insert_by key a acc)) as [Hs Hp]; [by apply insert_by_sorted|].
    split; [done|]. rewrite Hp, insert_by_Permutation.
    simpl. apply Permutation_middle.
Qed.

Lemma sorted_StronglySorted l : StronglySorted key_le (sorted l key).
Proof. apply foldl_insert_by. constructor. Qed.

Lemma sorted_Permutation l : sorted l key ≡ₚ l.
Proof. apply (foldl_insert_by l []). constructor. Qed.

Lemma sorted_head_nearest l a rest b :
  sorted l key = a :: rest → b ∈ l → key a ≤ key b.
Proof.
  intros Heq Hb. pose proof (sorted_StronglySorted l) as Hs.
  rewrite <- (sorted_Permutation l), Heq in Hb. rewrite Heq in Hs.
  apply StronglySorted_cons in Hs as [Hall _].
  apply elem_of_cons in Hb as [->|Hb]; [lia|].
  by apply (proj1 (Forall_forall _ _) Hall).
Qed.

End Sorted.

Definition no_tool_message : Call :=
  Misc_SendMessage "--> No mining tool available! Stopping script." (Some 33).

Create HintDb pcq discriminated.

Ltac quiet_call :=
  eapply pc_mono;
  [solve [eauto with pcq] | intros ? ? ? | intros ? ? HE; exact HE].

(** Step through a loop-free fragment that keeps an invariant. *)
Ltac quiet_straight :=
  repeat first
    [ quiet_solve
    | pc_step; simpl
    | lazymatch goal with
      | |- pc (for_each _ _) _ _ _ => fail
      | |- pc (for_loop _ _ _) _ _ _ => fail
      | |- pc (while_loop _ _ _ _) _ _ _ => fail
      | |- pc _ _ _ _ => quiet_call
      | |- _ => case_match
      end ].

(** Step through a fragment that keeps the invariant [I], loops too. *)
Ltac quiet_go I :=
  repeat first
    [ quiet_solve
    | pc_step; simpl
    | lazymatch goal with
      | |- pc (for_each _ _) _ _ _ =>
          eapply pc_mono;
          [apply (pc_for_each _ _ I); [intros ? ? ?|] | intros ? ? ? | done]
      | |- pc (for_loop _ _ _) _ _ _ =>
          eapply pc_mono;
          [apply (pc_for_loop _ _ (fun _ => I)); [intros ? ? ? ?|]
          | intros ? ? ? | done]
      | |- pc (while_loop _ _ _ _) _ _ _ =>
          eapply pc_mono;
          [apply (pc_while_loop _ _ (fun _ => I) (fun _ => I)); [intros ? ? ?|]
          | intros ? ? ? | done]
      | |- pc _ _ _ _ => quiet_call
      | |- _ => case_match
      end ].

Section Quiet.
Context (h : Host) (I : State → Prop) (E : exc → State → Prop).
Context (HI : quiet I).
(** What may be raised, and where. *)
Context (E_helper : ∀ c msg s, I s → E (HelperError c msg) s).
Context (E_index : ∀ s, I s → oreSpots s = [] → E IndexError s).

Hint Extern 1 (I _) => quiet_solve : pcq.

Lemma FindPickaxe_quiet s : I s → pc (FindPickaxe h) (fun _ => I) E s.
Proof. intros. unfold FindPickaxe. quiet_go I. Qed.
Hint Resolve FindPickaxe_quiet : pcq.

Lemma in_hand_quiet n s : I s → pc (in_hand h n) (fun _ => I) E s.
Proof. intros. unfold in_hand. quiet_go I. Qed.
Hint Resolve in_hand_quiet : pcq.

Lemma EquipPickaxe_quiet s : I s → pc (EquipPickaxe h) (fun _ => I) E s.
Proof. intros. unfold EquipPickaxe. quiet_go I. Qed.
Hint Resolve EquipPickaxe_quiet : pcq.

Lemma CheckEnemy_quiet fuel s : I s → pc (CheckEnemy h fuel) (fun _ => I) E s.
Proof. intros. unfold CheckEnemy. quiet_go I. Qed.
Hint Resolve CheckEnemy_quiet : pcq.

Lemma _normalize_smelter_lists_quiet s :
  I s → pc _normalize_smelter_lists (fun _ => I) E s.
Proof. intros. unfold _normalize_smelter_lists. quiet_go I. Qed.
Hint Resolve _normalize_smelter_lists_quiet : pcq.

(** The helper raises nothing but its own exceptions. *)
Lemma _smelter_run_raises s :
  I s →
  pc (_smelter_run h) (fun _ => I)
     (fun e s' => I s' ∧ ∃ c msg, e = HelperError c msg) s.
Proof. intros. unfold _smelter_run. quiet_go I. split; [quiet_solve | eauto]. Qed.

Lemma _smelter_run_quiet s : I s → pc (_smelter_run h) (fun _ => I) E s.
Proof.
  intros. eapply pc_mono; [by apply _smelter_run_raises|done|].
  intros e s' (? & c & msg & ->). by apply E_helper.
Qed.
Hint Resolve _smelter_run_quiet : pcq.

Lemma _wrapped_smelter_quiet s : I s → pc (_wrapped_smelter h) (fun _ => I) E s.
Proof.
  intros. unfold _wrapped_smelter. quiet_go I.
  all: apply pc_try_except.
  all: (eapply pc_mono; [apply _smelter_run_raises; quiet_solve|done|]).
  all: intros e s' (? & c & msg & ->); destruct c; simpl; quiet_go I.
  all: apply E_helper; quiet_solve.
Qed.
Hint Resolve _wrapped_smelter_quiet : pcq.

Lemma smelt_trigger_quiet s : I s → pc (smelt_trigger h) (fun _ => I) E s.
Proof. intros. unfold smelt_trigger. quiet_go I. Qed.
Hint Resolve smelt_trigger_quiet : pcq.

Lemma oreSpots_0_quiet s : I s → pc oreSpots_0 (fun _ => I) E s.
Proof. intros. unfold oreSpots_0. quiet_go I. by apply E_index. Qed.
Hint Resolve oreSpots_0_quiet : pcq.

Lemma RangeOreSpot_quiet s : I s → pc (RangeOreSpot h) (fun _ => I) E s.
Proof. intros. unfold RangeOreSpot. quiet_go I. Qed.
Hint Resolve RangeOreSpot_quiet : pcq.

Lemma go_oreSpotCoords_quiet s : I s → pc (go_oreSpotCoords h) (fun _ => I) E s.
Proof. intros. unfold go_oreSpotCoords. quiet_go I. Qed.
Hint Resolve go_oreSpotCoords_quiet : pcq.

Lemma first_approach_quiet s : I s → pc (first_approach h) (fun _ => I) E s.
Proof. intros. unfold first_approach. quiet_go I. Qed.
Hint Resolve first_approach_quiet : pcq.

Lemma second_approach_quiet s : I s → pc (second_approach h) (fun _ => I) E s.
Proof. intros. unfold second_approach. quiet_go I. Qed.
Hint Resolve second_approach_quiet : pcq.

Lemma MoveToOreSpot_quiet fuel s : I s → pc (MoveToOreSpot h fuel) (fun _ => I) E s.
Proof. intros. unfold MoveToOreSpot. quiet_go I. Qed.
Hint Resolve MoveToOreSpot_quiet : pcq.

Lemma UseProspectorTool_quiet s : I s → pc (UseProspectorTool h) (fun _ => I) E s.
Proof. intros. unfold UseProspectorTool. quiet_go I. Qed.
Hint Resolve UseProspectorTool_quiet : pcq.

Lemma CanMove_quiet s : I s → pc (CanMove h) (fun _ => I) E s.
Proof. intros. unfold CanMove. quiet_go I. Qed.
Hint Resolve CanMove_quiet : pcq.

Lemma GetBeetle_quiet s : I s → pc (GetBeetle h) (fun _ => I) E s.
Proof. intros. unfold GetBeetle. quiet_go I. Qed.
Hint Resolve GetBeetle_quiet : pcq.

Lemma find_beetle_pack_quiet bm s :
  I s → pc (find_beetle_pack h bm) (fun _ => I) E s.
Proof. intros. unfold find_beetle_pack. quiet_go I. Qed.
Hint Resolve find_beetle_pack_quiet : pcq.

Lemma BeetleHasCapacity_quiet bm n s :
  I s → pc (BeetleHasCapacity h bm n) (fun _ => I) E s.
Proof. intros. unfold BeetleHasCapacity. quiet_go I. Qed.

Lemma TransferItemsToBeetle_quiet bm s :
  I s → pc (TransferItemsToBeetle h bm) (fun _ => I) E s.
Proof. intros. unfold TransferItemsToBeetle. quiet_go I. Qed.
Hint Resolve TransferItemsToBeetle_quiet : pcq.

Lemma call_beetle_over_quiet bm s :
  I s → pc (call_beetle_over h bm) (fun _ => I) E s.
Proof. intros. unfold call_beetle_over. quiet_go I. Qed.
Hint Resolve call_beetle_over_quiet : pcq.

Lemma walk_to_beetle_quiet bm s :
  I s → pc (walk_to_beetle h bm) (fun _ => I) E s.
Proof. intros. unfold walk_to_beetle. quiet_go I. Qed.
Hint Resolve walk_to_beetle_quiet : pcq.

Lemma MoveToBeetle_quiet s : I s → pc (MoveToBeetle h) (fun _ => I) E s.
Proof. intros. unfold MoveToBeetle. quiet_go I. Qed.
Hint Resolve MoveToBeetle_quiet : pcq.

Lemma drop_on_ground_quiet s : I s → pc (drop_on_ground h) (fun _ => I) E s.
Proof. intros. unfold drop_on_ground. quiet_go I. Qed.
Hint Resolve drop_on_ground_quiet : pcq.

Lemma forced_drop_quiet moved s : I s → pc (forced_drop h moved) (fun _ => I) E s.
Proof. intros. unfold forced_drop. quiet_go I. Qed.
Hint Resolve forced_drop_quiet : pcq.

Lemma offload_check_quiet fuel n s :
  I s → pc (offload_check h fuel n) (fun _ => I) E s.
Proof. intros. unfold offload_check. quiet_go I. Qed.
Hint Resolve offload_check_quiet : pcq.

Lemma safetyNet_quiet s : I s → pc (safetyNet h) (fun _ => I) E s.
Proof. intros. unfold safetyNet. quiet_go I. Qed.
Hint Resolve safetyNet_quiet : pcq.

Lemma RecallNextSpot_quiet s : I s → pc (RecallNextSpot h) (fun _ => I) E s.
Proof. intros. unfold RecallNextSpot. quiet_go I. Qed.

End Quiet.

#[local] Hint Resolve FindPickaxe_quiet in_hand_quiet EquipPickaxe_quiet
  CheckEnemy_quiet _normalize_smelter_lists_quiet _smelter_run_quiet
  _wrapped_smelter_quiet smelt_trigger_quiet RangeOreSpot_quiet
  go_oreSpotCoords_quiet first_approach_quiet second_approach_quiet
  MoveToOreSpot_quiet UseProspectorTool_quiet CanMove_quiet GetBeetle_quiet
  find_beetle_pack_quiet TransferItemsToBeetle_quiet call_beetle_over_quiet
  walk_to_beetle_quiet MoveToBeetle_quiet drop_on_ground_quiet
  forced_drop_quiet offload_check_quiet safetyNet_quiet RecallNextSpot_quiet : pcq.

Section Swing.
Context (h : Host) (I : State → Prop) (E : exc → State → Prop).
Context (HI : quiet I).
Context (E_helper : ∀ c msg s, I s → E (HelperError c msg) s).
Context (E_index : ∀ s, I s → oreSpots s = [] → E IndexError s).
Context (E_stop : ∀ s, I s → head (trace (world s)) = Some no_tool_message →
                       E ScriptStop s).

(** The invariant, and a candidate at hand. *)
Definition with_spot (s : State) : Prop := I s ∧ oreSpots s ≠ [].

Lemma with_spot_quiet : quiet with_spot.
Proof.
  intros s s' Hag [HIs Hne]. split; [by eapply HI|].
  destruct Hag as [<- _]. done.
Qed.

Hint Extern 1 (I _) => quiet_solve : pcq.
Hint Extern 1 (with_spot _) => quiet_solve : pcq.

Lemma oreSpots_0_spot s : I s → pc oreSpots_0 (fun _ => with_spot) E s.
Proof.
  intros. unfold oreSpots_0. pc_steps; [by apply E_index|].
  split; [done|congruence].
Qed.
Hint Resolve oreSpots_0_spot : pcq.

Lemma E_helper_spot c msg s : with_spot s → E (HelperError c msg) s.
Proof. intros [? _]. by apply E_helper. Qed.

Lemma E_index_spot s : with_spot s → oreSpots s = [] → E IndexError s.
Proof. by intros [_ ?] ?. Qed.

(** The swing ends when the poll is done; it stops the script only
    after the message that no tool is left. *)
Lemma MineOnce_swing_quiet fuel s :
  I s →
  pc (MineOnce_swing h fuel)
     (fun _ s' => with_spot s' ∧ poll_done h (world s') = true) E s.
Proof.
  intros. unfold MineOnce_swing, MineOnce_prepare.
  pose proof with_spot_quiet as HQ.
  pose proof E_helper_spot as HE1. pose proof E_index_spot as HE2.
  quiet_straight.
  all: try (apply E_stop; [quiet_solve | done]).
  all: apply (pc_while_loop _ _ (fun _ => with_spot)); [|quiet_solve].
  all: intros [] sl Hsl; pc_steps.
  all: destruct (poll_done h (world sl)) eqn:Hdone; simpl; [done|].
  all: quiet_straight.
Qed.

End Swing.

(** ** Discovery *)

(** The location has a cooldown entry that has not expired. *)
Definition on_cooldown (w : World) (sp : OreSpot.t) : bool :=
  timer_active (coord_key (OreSpot.x sp) (OreSpot.y sp)) w.

(** The candidates are in non-decreasing distance from [p]. *)
Definition nearest_first (p : Position) (l : list OreSpot.t) : Prop :=
  StronglySorted (key_le (distance_key p)) l.

Section Discovery.
Context (h : Host).

(** While the cells are scanned the world stays as it is, and the
    candidates are those held before, [l0], followed by cells found off
    cooldown. *)
Definition scan_inv (w0 : World) (l0 : list OreSpot.t) (s : State) : Prop :=
  world s = w0
  ∧ ∃ found, oreSpots s = l0 ++ found
             ∧ Forall (fun sp => on_cooldown w0 sp = false) found.

Lemma wp_scan_cell w0 l0 cx cy s :
  scan_inv w0 l0 s → wp (scan_cell h cx cy) (fun _ => scan_inv w0 l0) s.
Proof.
  intros HI. unfold scan_cell. apply wp_bind, wp_observe.
  case_match; [|by apply wp_ret].
  apply wp_for_each; [|done]. intros tile s1 _ HI1.
  apply wp_for_each; [|done]. intros staticid s2 _ HI2.
  case_match; [|by apply wp_ret].
  apply wp_bind. unfold Timer_Check. apply wp_observe.
  destruct (timer_active _ _) eqn:Hact; simpl; [by apply wp_ret|].
  apply wp_bind, wp_gets, wp_modify.
  destruct HI2 as (Hw & found & Hfound & Hall). split; [done|]. simpl.
  exists (found ++ [OreSpot.mk cx cy (StaticZ tile) (StaticID tile)]).
  split; [by rewrite Hfound, app_assoc|].
  apply Forall_app. split; [done|]. constructor; [|done].
  unfold on_cooldown. simpl. by rewrite <- Hw.
Qed.

Lemma wp_scan_rows w0 l0 fuel minX minY maxX maxY s :
  (Z.to_nat (maxX + 1 - minX) < fuel)%nat →
  (Z.to_nat (maxY + 1 - minY) < fuel)%nat →
  scan_inv w0 l0 s →
  wp (scan_rows h fuel minY maxX maxY (minX, minY)) (fun _ => scan_inv w0 l0) s.
Proof.
  intros HfX HfY HI. unfold scan_rows.
  apply (wp_while_loop _ _
           (fun xy s => scan_inv w0 l0 s ∧ xy.2 = minY ∧ minX ≤ xy.1)
           (fun xy _ => Z.to_nat (maxX + 1 - xy.1))); [|simpl; auto with lia|done].
  clear s HI. intros [cx cy] s (HI & Hy & Hx); simpl in *. subst cy.
  apply wp_ret. destruct (Z.leb_spec cx maxX) as [Hle|Hgt]; [|done].
  apply wp_bind.
  eapply wp_mono.
  - apply (wp_while_loop _ _
             (fun cy s => scan_inv w0 l0 s ∧ minY ≤ cy)
             (fun cy _ => Z.to_nat (maxY + 1 - cy))
             (fun _ s => scan_inv w0 l0 s)); [|split; [done|lia]|done].
    clear s HI. intros cy s [HI Hy]. apply wp_ret.
    destruct (Z.leb_spec cy maxY) as [Hle'|Hgt']; [|done].
    apply wp_bind. eapply wp_mono; [by apply wp_scan_cell|].
    intros u s' HI'. apply wp_ret. split; [split; [done|lia] | lia].
  - intros y' s' HI'. apply wp_ret. simpl. split; [auto with lia | lia].
Qed.

Lemma wp_sort_oreSpots s :
  wp (sort_oreSpots h) (fun _ s' =>
        world s' = world s
        ∧ oreSpots s' = sorted (oreSpots s) (distance_key (Player_Position h (world s))))
     s.
Proof. done. Qed.

Definition scan_started : Call :=
  Misc_SendMessage "--> Scan for Ore Spots Started" (Some 77).
Definition scan_total : Call :=
  Misc_SendMessage "--> Total Ore Spots: %i" (Some 77).

(** What [ScanStatic] leaves: the world it found, with its two messages;
    as candidates the old ones and the cells found off cooldown, in the
    order [sorted] gives them from where the agent stands. *)
Lemma ScanStatic_returns s :
  ∃ s' found,
    ScanStatic h s = Ret tt s'
    ∧ world s' = record_call scan_total (record_call scan_started (world s))
    ∧ Forall (fun sp => on_cooldown (world s) sp = false) found
    ∧ oreSpots s' =
        sorted (oreSpots s ++ found)
               (distance_key (Player_Position h (record_call scan_started (world s)))).
Proof.
  set (w1 := record_call scan_started (world s)).
  assert (wp (ScanStatic h) (fun _ s' =>
            ∃ found, world s' = record_call scan_total w1
                 ∧ Forall (fun sp => on_cooldown w1 sp = false) found
                 ∧ oreSpots s' = sorted (oreSpots s ++ found)
                                        (distance_key (Player_Position h w1))) s)
    as Hwp.
  { unfold ScanStatic. apply wp_bind. unfold SendMessage, call. apply wp_modify.
    do 4 (apply wp_bind, wp_observe).
    apply wp_bind. eapply wp_mono.
    - apply (wp_scan_rows w1 (oreSpots s)); [unfold scanRadius; lia ..|].
      split; [done|]. exists []. by rewrite app_nil_r.
    - intros xy s1 (Hw1 & found & Hfound & Hall1). apply wp_bind.
      eapply wp_mono; [apply wp_sort_oreSpots|].
      intros u s2 [Hw2 Hs2]. apply wp_modify.
      exists found. simpl. rewrite Hw2, Hw1. split; [done|].
      split; [done|]. by rewrite Hs2, Hw1, Hfound. }
  apply wp_elim in Hwp as ([] & s' & Heq & l & H1 & H2 & H3). eauto 10.
Qed.

Lemma on_cooldown_record_call c w sp :
  on_cooldown (record_call c w) sp = on_cooldown w sp.
Proof. done. Qed.

(** C1. Discovery leaves out the cells on cooldown: entered with no
    candidates, as the control loop enters it, [ScanStatic] returns, no
    candidate it leaves in [oreSpots] has a cooldown timer that is still
    running, and no candidate lies on a cell whose timer was running
    when the scan began. *)
Theorem ScanStatic_excludes_cooldown (s : State) :
  oreSpots s = [] →
  ∃ s', ScanStatic h s = Ret tt s'
    ∧ (∀ sp, sp ∈ oreSpots s' → on_cooldown (world s') sp = false)
    ∧ (∀ cx cy, timer_active (coord_key cx cy) (world s) = true →
         ∀ sp, sp ∈ oreSpots s' → ¬ (OreSpot.x sp = cx ∧ OreSpot.y sp = cy)).
Proof.
  intros Hnil.
  destruct (ScanStatic_returns s) as (s' & found & Hret & Hw & Hall & Hspots).
  exists s'. split; [done|].
  assert (∀ sp, sp ∈ oreSpots s' → on_cooldown (world s) sp = false) as Hoff.
  { intros sp Hsp. rewrite Hspots, sorted_Permutation, Hnil in Hsp. simpl in Hsp.
    by apply (proj1 (Forall_forall _ _) Hall). }
  split.
  - intros sp Hsp. rewrite Hw, !on_cooldown_record_call. by apply Hoff.
  - intros cx cy Hact sp Hsp [<- <-].
    apply Hoff in Hsp. unfold on_cooldown in Hsp. congruence.
Qed.


End Discovery.

(** ** One extraction attempt *)

Section Attempt.
Context (h : Host).

(** One of the outcome texts of lines 445-453 is in the journal. *)
Definition outcome_text (w : World) : bool :=
  sys h txt_no_metal w || sys h txt_loosen w || sys h txt_worn_out w
  || sys h txt_can_not_mine w || sys h txt_no_line_of_sight w
  || sys h txt_dig_some w || sys h txt_receive w
  || Journal_Search h txt_have_received w
  || sys h txt_riding w.

Lemma poll_done_outcome_text w :
  poll_done h w = outcome_text w || negb (timer_active "mineTimer" w).
Proof. done. Qed.

(** The state in which [MineOnce] leaves a location it gives up: the
    message, then the cooldown timer of the location. *)
Definition abandoned (msg : string) (sp : OreSpot.t) (s : State) : State :=
  set_world (fun w =>
    mkWorld (clock w)
            (<[coord_key (OreSpot.x sp) (OreSpot.y sp) := clock w + oreCooldown]>
               (timers w))
            (Misc_SendMessage msg (Some 77) :: trace w)) s.

Lemma abandoned_on_cooldown msg sp s :
  on_cooldown (world (abandoned msg sp s)) sp = true.
Proof.
  unfold on_cooldown, timer_active, abandoned. simpl.
  rewrite lookup_insert_eq. unfold oreCooldown. apply Z.ltb_lt. lia.
Qed.

(** When the swing returns, there is a location at hand and the poll is
    done. *)
Lemma MineOnce_swing_returns fuel s s1 :
  MineOnce_swing h fuel s = Ret tt s1 →
  oreSpots s1 ≠ [] ∧ poll_done h (world s1) = true ∧ agree s s1.
Proof.
  intros Hret.
  pose proof (MineOnce_swing_quiet h (agree s) (fun _ _ => True)
                (quiet_agree s) (fun _ _ _ _ => Logic.I) (fun _ _ _ => Logic.I)
                (fun _ _ _ => Logic.I) fuel s) as Hpc.
  eapply pc_ret_elim in Hpc; [|done|exact Hret].
  destruct Hpc as [[Hag Hne] Hdone]. done.
Qed.

Lemma MineOnce_after_swing fuel s s1 :
  MineOnce_swing h fuel s = Ret tt s1 →
  MineOnce h fuel s = MineOnce_outcome h s1.
Proof. intros Hret. unfold MineOnce, bind. by rewrite Hret. Qed.

(** *** The swing returns *)

(** Nothing holds the swing up: no enemy is in sight, the auto-smelter
    helper returns, and a mining tool is held in the left hand. *)
Definition undisturbed : Prop :=
  (∀ w, Target_GetTargetFromList h "enemywar" w = None)
  ∧ (∀ attrs w, smelter_run h attrs w = None)
  ∧ (∃ tool, py_in (ItemID tool) miningToolIDs = true ∧ Serial tool ≠ 0
             ∧ ∀ w, Player_GetItemOnLayer h "LeftHand" w = Some tool).

(** The clock, the timers and the candidates are as given. *)
Definition timed (c : Z) (t : gmap string Z) (l : list OreSpot.t)
    (s : State) : Prop :=
  clock (world s) = c ∧ timers (world s) = t ∧ oreSpots s = l.

Lemma wp_try_except {A} (body : M A) handler Q s :
  wp body Q s → wp (try_except body handler) Q s.
Proof. unfold wp, try_except. by destruct (body s). Qed.

Lemma smelt_trigger_timed c t l s :
  undisturbed → timed c t l s → wp (smelt_trigger h) (fun _ => timed c t l) s.
Proof.
  intros (_ & Hrun & _) Hs. unfold smelt_trigger, _wrapped_smelter.
  wp_steps; try done.
  all: apply wp_try_except; unfold _smelter_run; wp_steps; try done.
  all: match goal with H : smelter_run _ _ _ = Some _ |- _ =>
         by rewrite Hrun in H end.
Qed.

Lemma CheckEnemy_no_enemy fuel s :
  undisturbed → CheckEnemy h fuel s = Ret tt s.
Proof.
  intros (Hnone & _). unfold CheckEnemy, bind, observe, gets.
  by rewrite Hnone.
Qed.

Lemma EquipPickaxe_held tool s :
  py_in (ItemID tool) miningToolIDs = true → Serial tool ≠ 0 →
  (∀ w, Player_GetItemOnLayer h "LeftHand" w = Some tool) →
  EquipPickaxe h s
  = Ret (Some (Serial tool))
        (set_world (record_call (Misc_SendMessage
           "--> Found equipped mining tool: {lh.Name}" (Some 66))) s).
Proof.
  intros Htool Hserial Hhand. apply Z.eqb_neq in Hserial.
  unfold EquipPickaxe, FindPickaxe, in_hand, bind, observe, gets, SendMessage,
    call, modify, ret.
  repeat (cbn; first [rewrite Hhand | rewrite Htool | rewrite Hserial
                     | rewrite Z.eqb_refl]).
  done.
Qed.

Lemma EquipPickaxe_timed c t l s :
  undisturbed → timed c t l s →
  wp (EquipPickaxe h) (fun r s' => truthy r = true ∧ timed c t l s') s.
Proof.
  intros (_ & _ & tool & Htool & Hserial & Hhand) Hs.
  eapply wp_intro; [by apply EquipPickaxe_held|]. split; [|done].
  simpl. by apply negb_true_iff, Z.eqb_neq.
Qed.

(** With fuel for the fifty polls of the five seconds of [mineTimer], a
    swing at a location that nothing holds up returns. *)
Lemma MineOnce_swing_total fuel s :
  undisturbed → has_spot s → (51 ≤ fuel)%nat →
  ∃ s1, MineOnce_swing h fuel s = Ret tt s1.
Proof.
  intros Hu Hs Hfuel.
  assert (wp (MineOnce_swing h fuel) (fun _ _ => True) s) as Hwp;
    [|apply wp_elim in Hwp as ([] & s1 & ? & _); by exists s1].
  unfold MineOnce_swing.
  assert (∀ s0, oreSpots s0 = oreSpots s →
            wp (MineOnce_prepare h fuel) (fun _ s' => oreSpots s' = oreSpots s) s0)
    as Hprep.
  { intros s0 Hs0. unfold MineOnce_prepare. wp_steps.
    all: eapply wp_intro; [by apply CheckEnemy_no_enemy|].
    all: wp_step; eapply wp_mono;
      [by eapply (smelt_trigger_timed _ _ (oreSpots s))|].
    all: intros u s2 (_ & _ & Hs2); by wp_step. }
  wp_step. eapply wp_mono; [by apply Hprep|]. intros u sa Hsa.
  wp_step. eapply wp_mono;
    [by apply (EquipPickaxe_timed (clock (world sa)) (timers (world sa))
                 (oreSpots sa))|].
  intros r sb (Hr & _ & _ & Hsb). rewrite Hr. simpl.
  do 4 (wp_step; wp_step; simpl).
  wp_step. unfold oreSpots_0. wp_step. wp_step. simpl.
  rewrite Hsb, Hsa. unfold has_spot in Hs.
  destruct (oreSpots s) as [|sp rest] eqn:Hsp; [done|]. wp_step.
  do 3 (wp_step; wp_step; simpl).
  set (exp := clock (world sb) + 200 + 5000).
  apply (wp_while_loop _ _
           (fun _ s' => timers (world s') !! "mineTimer" = Some exp)
           (fun _ s' => Z.to_nat ((exp - clock (world s') + 99) / 100))).
  - intros [] s2 Hexp. wp_steps.
    destruct (poll_done h (world s2)) eqn:Hdone; simpl; [done|].
    rewrite poll_done_outcome_text in Hdone.
    apply orb_false_iff in Hdone as [_ Hactive].
    apply negb_false_iff in Hactive. unfold timer_active in Hactive.
    rewrite Hexp in Hactive. apply Z.ltb_lt in Hactive.
    wp_step. eapply wp_mono;
      [by apply (smelt_trigger_timed (clock (world s2)) (timers (world s2))
                   (oreSpots s2))|].
    intros u2 s3 (Hc & Ht & _). wp_steps. rewrite Hc, Ht. split; [done|].
    apply Z2Nat.inj_lt; [apply Z.div_pos; lia.. |].
    replace (exp - (clock (world s2) + 100) + 99)
      with ((exp - clock (world s2) + 99) + -1 * 100) by lia.
    rewrite Z.div_add by lia. lia.
  - simpl. apply lookup_insert_eq.
  - simpl. unfold exp.
    replace (clock (world sb) + 200 + 5000 - (clock (world sb) + 200) + 99)
      with 5099 by lia.
    change (5099 / 100) with 50. lia.
Qed.

Definition depleted_message : string := "--> Ore spot depleted".
Definition timed_out_message : string :=
  "--> Mining timed out, marking spot as depleted".

Lemma MineOnce_outcome_depleted s sp rest :
  oreSpots s = sp :: rest →
  sys h txt_riding (world s) = false →
  sys h txt_no_metal (world s) = true →
  MineOnce_outcome h s = Ret false (abandoned depleted_message sp s).
Proof.
  intros Hsp Hr Hn. unfold MineOnce_outcome, bind, observe, gets, cooldown_oreSpot,
    oreSpots_0, bind, gets.
  by run.
Qed.

Lemma MineOnce_outcome_timed_out s sp rest :
  oreSpots s = sp :: rest →
  outcome_text (world s) = false →
  timer_active "mineTimer" (world s) = false →
  MineOnce_outcome h s = Ret false (abandoned timed_out_message sp s).
Proof.
  intros Hsp Ht Htimer. unfold outcome_text in Ht.
  repeat (apply orb_false_iff in Ht as [Ht ?]).
  unfold MineOnce_outcome, bind, observe, gets, cooldown_oreSpot, Timer_Check,
    observe, oreSpots_0, bind, gets.
  by run.
Qed.


(** *** The block counter *)

(** The journal shows one of the two texts of line 473. *)
Definition blocked_text (w : World) : bool :=
  sys h txt_can_not_mine w || sys h txt_no_line_of_sight w.

(** The branch of line 473 is the one taken. *)
Definition block_outcome (w : World) : bool :=
  negb (sys h txt_riding w) && negb (sys h txt_no_metal w)
  && negb (sys h txt_worn_out w) && blocked_text w.

Definition block_message : string :=
  "--> Possible block detected, marking spot as depleted".

Lemma MineOnce_outcome_blocked s :
  block_outcome (world s) = true →
  MineOnce_outcome h s =
    if 3 <? blockCount s + 1 then
      match oreSpots s with
      | sp :: _ => Ret false (abandoned block_message sp (set_blockCount 0 s))
      | [] => Raise IndexError
                (set_world (record_call (Misc_SendMessage block_message (Some 77)))
                           (set_blockCount 0 s))
      end
    else Ret true (set_blockCount (blockCount s + 1) s).
Proof.
  unfold block_outcome, blocked_text. intros Hb.
  repeat (apply andb_true_iff in Hb as [Hb ?]).
  repeat match goal with H : negb _ = true |- _ => apply negb_true_iff in H end.
  unfold MineOnce_outcome, bind, observe, gets, cooldown_oreSpot, modify,
    oreSpots_0, bind, gets.
  run. destruct (3 <? blockCount s + 1); [|done].
  cbn. by destruct (oreSpots s).
Qed.

Lemma MineOnce_outcome_other s :
  block_outcome (world s) = false →
  pc (MineOnce_outcome h) (fun _ s' => blockCount s' = blockCount s)
     (fun _ _ => True) s.
Proof.
  unfold block_outcome, blocked_text. intros Hb.
  assert (quiet (fun s' => blockCount s' = blockCount s)) as HQ.
  { intros s1 s2 (_ & Hbc & _) ?. congruence. }
  assert (blockCount s = blockCount s) as Hs by done.
  unfold MineOnce_outcome, cooldown_oreSpot, oreSpots_0.
  quiet_straight.
  all: try done.
  all: exfalso; unfold blocked_text in *.
  all: repeat match goal with H : _ = _ |- _ => rewrite H in Hb end; done.
Qed.

(** C2, as the code has it. A line-of-sight or cannot-mine outcome adds
    one to the script-wide [blockCount]; the outcome that takes the
    counter above three marks the location depleted (cooldown timer set,
    counter back to zero, [False] returned), and below that [MineOnce]
    returns [True].  An outcome of any other kind leaves the counter as it
    is, a success included, and so does the removal of the visited
    location. *)
Theorem blockCount_threshold (fuel : nat) (s s1 : State) :
  MineOnce_swing h fuel s = Ret tt s1 →
  blockCount s1 = blockCount s
  ∧ (block_outcome (world s1) = true →
       if 3 <? blockCount s + 1 then
         ∃ sp rest,
           oreSpots s1 = sp :: rest
           ∧ MineOnce h fuel s
             = Ret false (abandoned block_message sp (set_blockCount 0 s1))
       else MineOnce h fuel s = Ret true (set_blockCount (blockCount s + 1) s1))
  ∧ (block_outcome (world s1) = false →
       ∀ b s2, MineOnce h fuel s = Ret b s2 → blockCount s2 = blockCount s)
  ∧ (∀ s2, remove_visited h s = Ret tt s2 → blockCount s2 = blockCount s).
Proof.
  intros Hswing.
  destruct (MineOnce_swing_returns _ _ _ Hswing) as (Hne & _ & _ & Hbc & _).
  rewrite (MineOnce_after_swing _ _ _ Hswing).
  split; [done|]. split; [|split].
  - intros Hb. rewrite (MineOnce_outcome_blocked _ Hb), <- Hbc.
    destruct (3 <? blockCount s + 1); [|done].
    destruct (oreSpots s1) as [|sp rest]; [done|]. by exists sp, rest.
  - intros Hb b s2 Hret.
    pose proof (MineOnce_outcome_other _ Hb) as Hpc.
    eapply pc_ret_elim in Hpc; [|exact Hret]. simpl in Hpc. congruence.
  - intros s2. unfold remove_visited, pop_0, sort_oreSpots, bind, gets, observe,
      gets, modify.
    destruct (oreSpots s); [done|]. cbn. by intros [= <-].
Qed.

End Attempt.

(** ** Mining one location *)

Lemma pc_any {A} (m : M A) s : pc m (fun _ _ => True) (fun _ _ => True) s.
Proof. unfold pc. by destruct (m s). Qed.

(** Pass a call of which nothing needs to be known. *)
Ltac pc_skip :=
  apply pc_bind; eapply pc_mono; [apply pc_any | intros ? ? _ | done].
Tactic Notation "pc_skip" "as" ident(a) :=
  apply pc_bind; eapply pc_mono; [apply pc_any | intros a ? _ | done].

(** Step through a fragment, passing the calls of which nothing needs
    to be known. *)
Ltac pc_blind :=
  repeat first
    [ pc_step; simpl
    | eapply pc_mono; [apply pc_any | intros ? ? _ | done] ].

Section Location.
Context (h : Host) (fuel : nat).

(** The variables [(attempts, miningSuccess)] at the head of the [while]
    of line 371, round after round. *)
Inductive rounds (l : Z * bool) (s : State) : Z * bool → State → Prop :=
| rounds_start : rounds l s l s
| rounds_next l1 s1 l2 s2 :
    rounds l s l1 s1 →
    l1.2 && (l1.1 <? maxAttempts) = true →
    MineSpot_body h fuel l1 s1 = Ret (Continue l2) s2 →
    rounds l s l2 s2.

(** A round ends at a [break] with the variables as they were, after a
    success with the counter at zero, or after a failure with the counter
    one higher. *)
Lemma MineSpot_body_result l s :
  pc (MineSpot_body h fuel l)
     (fun r _ => match r with
                 | Continue l' => if l'.2 then l'.1 = 0 else l'.1 = l.1 + 1
                 | Break l' => l' = l
                 end)
     (fun _ _ => True) s.
Proof.
  unfold MineSpot_body. pc_skip. pc_skip. pc_skip as go_on.
  destruct go_on; [|by apply pc_ret].
  pc_skip as miningSuccess. destruct miningSuccess.
  - pc_skip. by apply pc_ret.
  - pc_skip. pc_skip. by apply pc_ret.
Qed.

Lemma MineSpot_body_counts l1 s1 l2 s2 :
  MineSpot_body h fuel l1 s1 = Ret (Continue l2) s2 →
  if l2.2 then l2.1 = 0 else l2.1 = l1.1 + 1.
Proof.
  intros Hret. pose proof (MineSpot_body_result l1 s1) as Hpc.
  by eapply pc_ret_elim in Hpc; [|exact Hret].
Qed.

Lemma rounds_bounded l s l' s' :
  0 ≤ l.1 ≤ maxAttempts → rounds l s l' s' → 0 ≤ l'.1 ≤ maxAttempts.
Proof.
  intros Hl. induction 1 as [|l1 s1 l2 s2 _ IH Hguard Hbody]; [done|].
  apply andb_true_iff in Hguard as [_ Hlt]. apply Z.ltb_lt in Hlt.
  apply MineSpot_body_counts in Hbody. destruct (l2.2); lia.
Qed.

Lemma MineSpot_loop_bounded l s :
  0 ≤ l.1 ≤ maxAttempts →
  pc (MineSpot_loop h fuel l) (fun l' _ => 0 ≤ l'.1 ≤ maxAttempts)
     (fun _ _ => True) s.
Proof.
  intros Hl. unfold MineSpot_loop.
  apply (pc_while_loop _ _ (fun l _ => 0 ≤ l.1 ≤ maxAttempts)); [|done].
  clear l s Hl. intros l s Hl. unfold MineSpot_cond. apply pc_ret.
  destruct (l.2 && (l.1 <? maxAttempts)) eqn:Hguard; [|done].
  apply andb_true_iff in Hguard as [_ Hlt]. apply Z.ltb_lt in Hlt.
  eapply pc_mono; [apply MineSpot_body_result| |done].
  intros [l'|l'] s'; simpl; [destruct (l'.2); lia | by intros ->].
Qed.

(** C6. In [MineSpotUntilDepleted] the attempt counter stays within
    zero and [maxAttempts] (20), at the head of every round and when the
    loop is left; the loop is left at once when the counter stands at
    [maxAttempts]; a round that ends in a success puts the counter back
    to zero, and a round that ends in a failure adds one to it, so that
    the counter is the number of failures since the last success. *)
Theorem attempts_bounded (l : Z * bool) (s : State) :
  0 ≤ l.1 ≤ maxAttempts →
  (∀ l' s', rounds l s l' s' → 0 ≤ l'.1 ≤ maxAttempts)
  ∧ (∀ l' s', MineSpot_loop h fuel l s = Ret l' s' → 0 ≤ l'.1 ≤ maxAttempts)
  ∧ (∀ b, MineSpot_loop h (S fuel) (maxAttempts, b) s = Ret (maxAttempts, b) s)
  ∧ (∀ l1 s1 l2 s2, MineSpot_body h fuel l1 s1 = Ret (Continue l2) s2 →
       if l2.2 then l2.1 = 0 else l2.1 = l1.1 + 1).
Proof.
  intros Hl. split; [|split; [|split]].
  - intros l' s'. by apply rounds_bounded.
  - intros l' s' Hret. pose proof (MineSpot_loop_bounded l s Hl) as Hpc.
    by eapply pc_ret_elim in Hpc; [|exact Hret].
  - intros b. unfold MineSpot_loop. simpl. unfold bind, MineSpot_cond, ret. simpl.
    by rewrite andb_false_r.
  - apply MineSpot_body_counts.
Qed.

(** As [MineSpotUntilDepleted] enters the loop, with the counter at zero,
    a failure also ends the loop: the counter is never above one. *)
Lemma attempts_at_most_one s l' s' :
  rounds (0, true) s l' s' → if l'.2 then l'.1 = 0 else l'.1 = 1.
Proof.
  induction 1 as [|l1 s1 l2 s2 _ IH Hguard Hbody]; [done|].
  apply andb_true_iff in Hguard as [Hok _].
  apply MineSpot_body_counts in Hbody. rewrite Hok in IH.
  destruct (l2.2); lia.
Qed.

(** *** Too heavy to move *)

Definition failed_transfer_message : Call :=
  Misc_SendMessage
    "--> Failed to transfer items to beetle, trying to continue mining" (Some 33).
Definition critical_message : Call :=
  Misc_SendMessage "--> CRITICAL: Too heavy to move!" (Some 33).

(** The state after lines 385-387 for [item]. *)
Definition dropped (item : Item) (s : State) : State :=
  let p := Player_Position h (world s) in
  set_world (fun w =>
    advance 50 (record_call (Misc_Pause 50)
      (record_call (Misc_SendMessage "--> Dropped items on ground!" (Some 33))
        (record_call (Items_MoveOnGround (Serial item) 1 (X p) (Y p) (Z_ p)) w)))) s.

(** The state after the loop of lines 383-388: one unit of the first
    resource item of the backpack lies on the ground, if there is one. *)
Definition after_drop (s : State) : State :=
  match List.find is_droppable (Player_Backpack_Contains h (world s)) with
  | Some item => dropped item s
  | None => s
  end.

Lemma drop_on_ground_first s : drop_on_ground h s = Ret tt (after_drop s).
Proof.
  unfold drop_on_ground, after_drop, bind, observe, gets.
  induction (Player_Backpack_Contains h (world s)) as [|item items IH]; [done|].
  simpl. unfold bind at 1. destruct (is_droppable item); [done|].
  cbn. exact IH.
Qed.

(** C9, as the code has it. When a round of the extraction loop
    attempts the offload, [MoveToBeetle] fails and the carried weight is
    within 10 of [Player.MaxWeight], the controller drops one unit of the
    first resource item of the backpack at the agent's position, if the
    backpack holds one, then runs the smelter trigger (which calls the
    helper when it is linked), and leaves the loop without an extraction
    attempt. *)
Theorem overweight_forces_drop (l : Z * bool) (s0 s s1 : State) :
  (smelt_trigger h ;; (if l.1 =? 1 then pause 100 else ret tt)) s0 = Ret tt s →
  (weightLimit s - 40 <=? Player_Weight h (world s))
    || ((0 <? l.1) && (l.1 mod 8 =? 0)) = true →
  MoveToBeetle h s = Ret false s1 →
  let s2 := set_world (record_call failed_transfer_message) s1 in
  Player_MaxWeight h (world s2) - 10 ≤ Player_Weight h (world s2) →
  let s3 := set_world (record_call critical_message) s2 in
  drop_on_ground h s3 = Ret tt (after_drop s3)
  ∧ MineSpot_body h fuel l s0 = (smelt_trigger h ;; ret (Break l)) (after_drop s3).
Proof.
  intros Hprefix Hcond Hmove s2 Hheavy s3. split; [apply drop_on_ground_first|].
  subst s2 s3. unfold failed_transfer_message, critical_message in *.
  apply Z.leb_le in Hheavy.
  unfold MineSpot_body, offload_check, forced_drop, SendMessage, call, modify,
    observe, gets, bind in *.
  cbv beta in *. destruct (smelt_trigger h s0) as [[] sa| |]; [|done..].
  rewrite Hprefix. cbv beta. rewrite Hcond, Hmove. cbv beta iota.
  change (negb false) with true. cbv beta iota.
  rewrite Hheavy. cbv beta iota.
  rewrite drop_on_ground_first.
  by destruct (smelt_trigger h (after_drop _)).
Qed.

End Location.

(** ** The control loop *)

Section Calm.
Context (h : Host) (I : State → Prop) (E : exc → State → Prop).
Context (HC : calm I).
Context (E_helper : ∀ c msg s, I s → E (HelperError c msg) s).
Context (E_index : ∀ s, I s → oreSpots s = [] → E IndexError s).
Context (E_stop : ∀ s, I s → head (trace (world s)) = Some no_tool_message →
                       E ScriptStop s).

Hint Extern 1 (I _) => quiet_solve : pcq.
Hint Resolve oreSpots_0_quiet : pcq.

Lemma MineOnce_outcome_calm s : I s → pc (MineOnce_outcome h) (fun _ => I) E s.
Proof.
  intros. pose proof (calm_quiet _ HC) as HQ.
  unfold MineOnce_outcome, cooldown_oreSpot. quiet_straight.
Qed.

Lemma MineOnce_calm fuel s : I s → pc (MineOnce h fuel) (fun _ => I) E s.
Proof.
  intros. pose proof (calm_quiet _ HC) as HQ. unfold MineOnce. pc_step.
  eapply pc_mono; [by apply (MineOnce_swing_quiet h I E)| |done].
  intros u s' [[HI' _] _]. by apply MineOnce_outcome_calm.
Qed.
Hint Resolve MineOnce_calm : pcq.

Lemma MineSpot_body_calm fuel l s :
  I s → pc (MineSpot_body h fuel l) (fun _ => I) E s.
Proof.
  intros. pose proof (calm_quiet _ HC) as HQ. unfold MineSpot_body.
  quiet_straight.
Qed.
Hint Resolve MineSpot_body_calm : pcq.

Lemma MineSpot_loop_calm fuel l s :
  I s → pc (MineSpot_loop h fuel l) (fun _ => I) E s.
Proof.
  intros. unfold MineSpot_loop, MineSpot_cond. quiet_go I.
Qed.
Hint Resolve MineSpot_loop_calm : pcq.

Lemma MineSpotUntilDepleted_calm fuel s :
  I s → pc (MineSpotUntilDepleted h fuel) (fun _ => I) E s.
Proof.
  intros. pose proof (calm_quiet _ HC) as HQ. unfold MineSpotUntilDepleted.
  quiet_straight.
Qed.

End Calm.

Section ControlLoop.
Context (h : Host).

Definition skill_message : Call :=
  Misc_SendMessage "Mining skill too low, stopping" (Some 33).

(** What may end the script: [Stop], after one of its two messages, or
    an exception of the auto-smelter helper. *)
Definition halts_by_design (e : exc) (s : State) : Prop :=
  match e with
  | ScriptStop =>
      head (trace (world s)) = Some skill_message
      ∨ head (trace (world s)) = Some no_tool_message
  | HelperError _ _ => True
  | IndexError => False
  end.

Lemma visit_nearest_halts fuel s :
  has_spot s → pc (visit_nearest h fuel) (fun _ _ => True) halts_by_design s.
Proof.
  intros Hs. pose proof has_spot_calm as HC.
  pose proof (calm_quiet _ HC) as HQ.
  assert (∀ c msg s, has_spot s → halts_by_design (HelperError c msg) s)
    as E1 by done.
  assert (∀ s, has_spot s → oreSpots s = [] → halts_by_design IndexError s)
    as E2 by done.
  assert (∀ s, has_spot s → head (trace (world s)) = Some no_tool_message →
               halts_by_design ScriptStop s) as E3 by (intros; by right).
  unfold visit_nearest.
  pc_step. quiet_call. pc_step. quiet_call. pc_step. quiet_call.
  pc_step. eapply pc_mono;
    [by apply (MineSpotUntilDepleted_calm h has_spot halts_by_design)| |done].
  intros u s4 Hs4. pc_step. quiet_call.
  unfold remove_visited, pop_0, sort_oreSpots. pc_steps; [|done].
  simpl in *. by match goal with H : has_spot ?s |- _ => apply H end.
Qed.

Lemma ScanStatic_halts E s : pc (ScanStatic h) (fun _ _ => True) E s.
Proof.
  destruct (ScanStatic_returns h s) as (s' & found & Hret & _).
  unfold pc. by rewrite Hret.
Qed.

Lemma travel_cycle_halts fuel s :
  pc (travel_cycle h fuel) (fun _ _ => True) halts_by_design s.
Proof.
  pose proof True_calm as HC. pose proof (calm_quiet _ HC) as HQ.
  assert (∀ c msg s, (fun _ => True) s → halts_by_design (HelperError c msg) s)
    as E1 by done.
  unfold travel_cycle.
  pc_step. eapply pc_mono;
    [by apply (smelt_trigger_quiet h (fun _ => True) halts_by_design)| |done].
  intros u s1 _. pc_step. eapply pc_mono;
    [by apply (RecallNextSpot_quiet h (fun _ => True) halts_by_design)| |done].
  intros u2 s2 _. pc_step. eapply pc_mono; [apply ScanStatic_halts| |done].
  intros u3 s3 _. pc_step.
  eapply pc_mono;
    [apply (pc_while_loop _ _ (fun _ _ => True) (fun _ _ => True)); [|done]
    | | done].
  - intros i s4 _. pc_steps.
    destruct (negb (bool_decide (oreSpots s4 = [])) && _) eqn:Hguard; [|done].
    apply andb_true_iff in Hguard as [Hne _].
    apply negb_true_iff, bool_decide_eq_false in Hne.
    pc_step. eapply pc_mono; [by apply visit_nearest_halts| |done].
    intros u4 s5 _. by pc_step.
  - intros i s4 _. by pc_steps.
Qed.

Lemma main_halts fuel s : pc (main h fuel) (fun _ _ => True) halts_by_design s.
Proof.
  pose proof True_calm as HC. pose proof (calm_quiet _ HC) as HQ.
  unfold main. pc_step. pc_step. simpl. pc_step. pc_step. simpl.
  pc_step. eapply pc_mono;
    [by apply (EquipPickaxe_quiet h (fun _ => True) halts_by_design)| |done].
  intros r s1 _. pc_step.
  eapply pc_mono;
    [apply (pc_while_loop _ _ (fun _ _ => True) (fun _ _ => True)); [|done]
    | | done].
  - intros [] s2 _. pc_steps.
    eapply pc_mono; [apply travel_cycle_halts| |done].
    intros u s3 _. by pc_step.
  - intros [] s2 _. by pc_steps.
Qed.

Lemma link_smelter_returns s : wp (link_smelter h) (fun _ _ => True) s.
Proof.
  unfold link_smelter, _normalize_smelter_lists. simpl.
  destruct (import_auto_smelter h); wp_steps; done.
Qed.

(** The script ends only as [halts_by_design] has it. *)
Lemma script_halts fuel s :
  pc (script h fuel) (fun _ _ => True) halts_by_design s.
Proof.
  unfold script, skill_check, init_weightLimit.
  pc_step. pc_step. pc_step. simpl.
  destruct (negb _); simpl.
  { pc_step. pc_step. simpl. pc_step. by left. }
  pc_step. pc_step. pc_step. pc_step. simpl. pc_step. simpl.
  pc_step. eapply pc_mono; [apply wp_pc, link_smelter_returns| |done].
  intros u s1 _. apply main_halts.
Qed.

(** The control loop does not come to an end by itself. *)
Lemma script_never_returns fuel s :
  pc (script h fuel) (fun _ _ => False) (fun _ _ => True) s.
Proof.
  unfold script. do 3 pc_skip. unfold main. do 3 pc_skip.
  pc_step. eapply pc_mono with (Q := fun _ _ => False);
    [|by intros ? ? []|done].
  apply (pc_while_loop _ _ (fun _ _ => True)); [|done].
  intros [] s1 _. pc_blind. all: done.
Qed.

(** A travel cycle enters the scan with no candidates when it starts
    with none, and leaves none behind. *)
Lemma scan_entered_empty s :
  oreSpots s = [] →
  pc (smelt_trigger h ;; RecallNextSpot h) (fun _ s1 => oreSpots s1 = [])
     (fun _ _ => True) s.
Proof.
  intros Hs.
  assert (calm (fun s => oreSpots s = [])) as HC by (unfold calm; congruence).
  pose proof (calm_quiet _ HC) as HQ.
  pc_step.
  eapply pc_mono;
    [by apply (smelt_trigger_quiet h (fun s => oreSpots s = []) (fun _ _ => True))
    | | done].
  intros u s1 Hs1.
  by apply (RecallNextSpot_quiet h (fun s => oreSpots s = []) (fun _ _ => True)).
Qed.

Lemma travel_cycle_leaves_empty fuel s :
  pc (travel_cycle h fuel) (fun _ s' => oreSpots s' = []) (fun _ _ => True) s.
Proof.
  unfold travel_cycle. do 4 pc_skip. by pc_steps.
Qed.

(** *** The fatal preconditions *)

Lemma script_skill_too_low fuel s :
  Qle_bool 40 (Player_GetRealSkillValue h "Mining" (world s)) = false →
  script h fuel s = Raise ScriptStop (set_world (record_call skill_message) s).
Proof.
  intros Hskill. unfold script, skill_check, bind, observe, gets.
  by rewrite Hskill.
Qed.

Lemma MineOnce_no_tool fuel s sa r sb :
  MineOnce_prepare h fuel s = Ret tt sa →
  EquipPickaxe h sa = Ret r sb →
  truthy r = false →
  MineOnce h fuel s = Raise ScriptStop (set_world (record_call no_tool_message) sb).
Proof.
  intros Hprep Hequip Hr. unfold MineOnce, MineOnce_swing, bind.
  by rewrite Hprep, Hequip, Hr.
Qed.

(** *** The failures that are absorbed *)

(** The first call made from [s] on the way to [s'] is a message. *)
Definition reported (s s' : State) : Prop :=
  ∃ text color, Misc_SendMessage text color :: trace (world s)
                `suffix_of` trace (world s').

(** The trace only grows. *)
Definition keeps (T : list Call) (s : State) : Prop :=
  T `suffix_of` trace (world s).

Lemma suffix_same (T : list Call) : T `suffix_of` T.
Proof. done. Qed.

Ltac keeps_solve :=
  unfold keeps in *; simpl in *;
  solve [repeat first [apply suffix_same | eassumption | apply suffix_cons_r]].

Lemma FindPickaxe_keeps T s :
  keeps T s → wp (FindPickaxe h) (fun _ => keeps T) s.
Proof. intros. unfold FindPickaxe. wp_steps; keeps_solve. Qed.

Lemma EquipPickaxe_keeps T s :
  keeps T s → wp (EquipPickaxe h) (fun _ => keeps T) s.
Proof.
  intros. unfold EquipPickaxe. wp_step.
  eapply wp_mono; [by apply FindPickaxe_keeps|].
  intros r s1 H1. unfold in_hand. wp_steps; keeps_solve.
Qed.

Lemma MineOnce_outcome_absorbs s :
  has_spot s → poll_done h (world s) = true →
  wp (MineOnce_outcome h)
     (fun b s' =>
        reported s s'
        ∨ (block_outcome h (world s) = true ∧ blockCount s + 1 ≤ 3
           ∧ b = true ∧ world s' = world s)) s.
Proof.
  intros Hs Hdone. unfold has_spot in Hs.
  destruct (oreSpots s) as [|sp rest] eqn:Hsp; [done|].
  destruct (block_outcome h (world s)) eqn:Hblock.
  - unfold wp. rewrite (MineOnce_outcome_blocked _ _ Hblock), Hsp.
    destruct (Z.ltb_spec 3 (blockCount s + 1)).
    + left. exists block_message, (Some 77). keeps_solve.
    + right. repeat split; try done; lia.
  - unfold block_outcome, blocked_text in Hblock.
    rewrite poll_done_outcome_text in Hdone. unfold outcome_text in Hdone.
    unfold MineOnce_outcome, cooldown_oreSpot, oreSpots_0.
    repeat first
      [ wp_step; simpl
      | eapply wp_mono;
        [eapply EquipPickaxe_keeps; keeps_solve | intros ? ? ?] ].
    all: try (left; eexists _, _; keeps_solve).
    all: exfalso; simpl in *; try congruence.
    all: unfold blocked_text, sys in *.
    all: repeat match goal with
                | H : negb _ = false |- _ => apply negb_false_iff in H
                end.
    all: repeat match goal with
                | H : _ = false |- _ => rewrite H in *; clear H
                end.
    all: simpl in *; try congruence.
    all: repeat match goal with
                | H : context [Journal_SearchByType h ?t ?k ?w] |- _ =>
                    destruct (Journal_SearchByType h t k w)
                | H : context [Journal_Search h ?t ?w] |- _ =>
                    destruct (Journal_Search h t w)
                end.
    all: simpl in *; congruence.
Qed.

(** The last call made is a message. *)
Definition message_last (s : State) : Prop :=
  ∃ text color, head (trace (world s)) = Some (Misc_SendMessage text color).

Ltac message_last_solve :=
  try done; try (intros _); unfold message_last; simpl; by eauto.

Lemma first_approach_final_try s :
  pc (first_approach h)
     (fun b s' => b = false →
                  Misc_SendMessage "Final Try" None ∈ trace (world s'))
     (fun _ _ => True) s.
Proof.
  unfold first_approach, go_oreSpotCoords, oreSpots_0. pc_steps.
  all: try done.
  intros _. simpl. set_solver.
Qed.

Lemma TransferItemsToBeetle_failure bm s :
  pc (TransferItemsToBeetle h bm) (fun b s' => b = false → message_last s')
     (fun _ _ => True) s.
Proof.
  unfold TransferItemsToBeetle. pc_blind. all: message_last_solve.
Qed.

Ltac failure_solve :=
  try done; intros; simplify_eq; first [by eauto | message_last_solve].

Lemma call_beetle_over_failure bm s :
  pc (call_beetle_over h bm)
     (fun r s' => r = Some false → message_last s') (fun _ _ => True) s.
Proof.
  unfold call_beetle_over.
  repeat first
    [ pc_step; simpl
    | eapply pc_mono; [apply TransferItemsToBeetle_failure | intros ? ? ? | done]
    | eapply pc_mono; [apply pc_any | intros ? ? _ | done] ].
  all: failure_solve.
Qed.

Lemma walk_to_beetle_failure bm s :
  pc (walk_to_beetle h bm) (fun b s' => b = false → message_last s')
     (fun _ _ => True) s.
Proof.
  unfold walk_to_beetle. pc_blind. all: message_last_solve.
Qed.

Lemma MoveToBeetle_failure s :
  pc (MoveToBeetle h) (fun b s' => b = false → message_last s')
     (fun _ _ => True) s.
Proof.
  unfold MoveToBeetle.
  repeat first
    [ pc_step; simpl
    | eapply pc_mono;
      [first [ apply TransferItemsToBeetle_failure
             | apply call_beetle_over_failure
             | apply walk_to_beetle_failure ]
      | intros ? ? ? | done]
    | eapply pc_mono; [apply pc_any | intros ? ? _ | done] ].
  all: failure_solve.
Qed.


End ControlLoop.

(** ** The companion carrier *)

Section Carrier.
Context (h : Host).

(** The answer of [BeetleHasCapacity] for a pack (lines 601-607). *)
Definition has_capacity (pack : Item) (required_capacity : Z) : bool :=
  let remaining_capacity := 400 - pack_weight pack in
  if (remaining_capacity <? 0) && (-100 <? remaining_capacity)
  then required_capacity <=? 10
  else required_capacity <=? remaining_capacity.

Definition transfer_message : Call :=
  Misc_SendMessage "--> Transferring items to beetle (unlimited capacity)" (Some 66).

Lemma BeetleHasCapacity_answer bm pack required s :
  find_beetle_pack h bm s = Ret (Some pack) s →
  ∃ s', BeetleHasCapacity h bm required s = Ret (has_capacity pack required) s'.
Proof.
  intros Hpack. unfold BeetleHasCapacity, has_capacity, bind. rewrite Hpack.
  cbn. destruct (_ && _); cbn; eauto.
Qed.

(** A call stays in the trace. *)
Definition issued (c : Call) (s : State) : Prop := c ∈ trace (world s).

Lemma TransferItemsToBeetle_moves bm pack item rest s :
  find_beetle_pack h bm s = Ret (Some pack) s →
  List.filter is_resource
    (Player_Backpack_Contains h (record_call transfer_message (world s)))
    = item :: rest →
  is_Some (Items_FindBySerial h (Serial item)
             (record_call transfer_message (world s))) →
  wp (TransferItemsToBeetle h (Some bm))
     (fun _ => issued (Items_Move (Serial item) (Serial pack) 0)) s.
Proof.
  intros Hpack Hitems [x Hx]. unfold TransferItemsToBeetle.
  unfold transfer_message in Hitems, Hx.
  apply wp_bind. eapply wp_intro; [exact Hpack|].
  apply wp_bind, wp_modify, wp_bind, wp_gets. simpl. rewrite Hitems.
  apply wp_bind. simpl. apply wp_bind, wp_bind, wp_gets. simpl. rewrite Hx.
  apply wp_bind, wp_modify, wp_bind, wp_modify, wp_bind, wp_gets.
  set (c := Items_Move (Serial item) (Serial pack) 0).
  assert (∀ l s', issued c s' →
            wp (for_loop rest (fun item0 (moveCount : Z) =>
                  item_ref <- observe (Items_FindBySerial h (Serial item0)) ;;
                  match item_ref with
                  | None => ret (Continue moveCount)
                  | Some _ =>
                      call (Items_Move (Serial item0) (Serial pack) 0) ;;
                      pause 100 ;;
                      after <- observe (Items_FindBySerial h (Serial item0)) ;;
                      match after with
                      | None => ret (Continue (moveCount + 1))
                      | Some _ =>
                          SendMessage "Failed to move {item.Name}" 33 ;;
                          ret (Continue moveCount)
                      end
                  end) l)
               (fun _ => issued c) s') as Hloop.
  { intros l s' Hs'. apply (wp_for_loop _ _ (fun _ => issued c)); [|done].
    intros a l0 s0 _ Hs0. wp_steps; unfold issued in *; simpl; set_solver. }
  assert (∀ n s', issued c s' →
            wp (if 0 <? n then
                  SendMessage "--> Successfully moved {moveCount} items to beetle" 66 ;;
                  pause 400 ;; ret true
                else
                  SendMessage "--> No items were moved to the beetle" 77 ;;
                  ret false)
               (fun _ => issued c) s') as Hend.
  { intros n s' Hs'. wp_steps; unfold issued in *; simpl; set_solver. }
  case_match; simpl.
  - apply wp_bind, wp_modify, wp_ret. simpl.
    eapply wp_mono; [apply Hloop; unfold issued; simpl; set_solver|].
    intros n s' Hs'. by apply Hend.
  - apply wp_ret. simpl.
    eapply wp_mono; [apply Hloop; unfold issued; simpl; set_solver|].
    intros n s' Hs'. by apply Hend.
Qed.


End Carrier.

(** ** The auto-smelter wrapper *)

Section Smelter.
Context (h : Host).

Definition error_message : Call :=
  Misc_SendMessage "Auto-smelter error: {exc}" (Some 33).

(** The beetle is known and more than 18 tiles away (lines 126-128). *)
Definition beetle_far (s : State) : bool :=
  if beetle s =? 0 then false
  else match Mobiles_FindBySerial h (beetle s) (world s) with
       | Some m => 18 <? Player_DistanceTo h m (world s)
       | None => false
       end.

Lemma _wrapped_smelter_unfold s :
  _wrapped_smelter h s =
    if beetle_far s then Ret tt s
    else try_except (_smelter_run h) (fun e =>
      match e with
      | HelperError TypeError msg =>
          if str_contains "List[Int32]" msg then
            _normalize_smelter_lists ;; _smelter_run h
          else SendMessage "Auto-smelter error: {exc}" 33
      | HelperError Exception msg => SendMessage "Auto-smelter error: {exc}" 33
      | _ => raise e
      end) s.
Proof.
  unfold _wrapped_smelter, beetle_far, bind, gets, observe, gets.
  destruct (beetle s =? 0); [done|]. cbn.
  destruct (Mobiles_FindBySerial h (beetle s) (world s)); [|done].
  cbn. by destruct (18 <? _).
Qed.

(** What the first call of the helper raises is reported and goes no
    further, when it is an [Exception] and does not ask for the retry. *)
Lemma _wrapped_smelter_reports s c msg :
  beetle_far s = false →
  smelter_run h (default ∅ (smelter s)) (record_call Smelter_invoked (world s))
    = Some (c, msg) →
  c ≠ BaseException →
  (c = TypeError → str_contains "List[Int32]" msg = false) →
  _wrapped_smelter h s
  = Ret tt (set_world (fun w => record_call error_message
                                  (record_call Smelter_invoked w)) s).
Proof.
  intros Hfar Hrun Hc Hmsg. rewrite _wrapped_smelter_unfold, Hfar.
  unfold try_except, _smelter_run, bind, call, modify, gets, observe, gets.
  cbn. rewrite Hrun. cbn.
  destruct c; [rewrite Hmsg by done | | done]; done.
Qed.

(** What the helper raises at the retry of line 134 leaves the wrapper. *)
Lemma _wrapped_smelter_retry_raises s msg s1 e s2 :
  beetle_far s = false →
  smelter_run h (default ∅ (smelter s)) (record_call Smelter_invoked (world s))
    = Some (TypeError, msg) →
  str_contains "List[Int32]" msg = true →
  _normalize_smelter_lists
    (set_world (record_call Smelter_invoked) s) = Ret tt s1 →
  _smelter_run h s1 = Raise e s2 →
  _wrapped_smelter h s = Raise e s2.
Proof.
  intros Hfar Hrun Hmsg Hnorm Hretry. rewrite _wrapped_smelter_unfold, Hfar.
  unfold try_except.
  assert (_smelter_run h s
          = Raise (HelperError TypeError msg)
                  (set_world (record_call Smelter_invoked) s)) as ->.
  { unfold _smelter_run, bind, call, modify, gets, observe, gets. cbn.
    by rewrite Hrun. }
  rewrite Hmsg. unfold bind. by rewrite Hnorm.
Qed.

End Smelter.

Import MiningHosts.

(** C4, at the failing input: a helper that raises the [List[Int32]]
    [TypeError] again at the retry.  The wrapper normalises the lists,
    calls the helper a second time, and the second exception leaves
    [_wrapped_smelter] and ends the script at the first trigger of the
    control loop; an exception of the first call is reported instead. *)
Theorem _wrapped_smelter_retry_propagates :
  (∃ s', _wrapped_smelter stubborn_host
           (returned (link_smelter stubborn_host state0) state0)
         = Raise (HelperError TypeError int32_complaint) s')
  ∧ (∃ s', script stubborn_host 5 state0
           = Raise (HelperError TypeError int32_complaint) s')
  ∧ (∃ s', _wrapped_smelter failing_host
             (returned (link_smelter failing_host state0) state0)
           = Ret tt s'
           ∧ head (trace (world s')) = Some error_message).
Proof.
  split; [|split].
  - eexists. vm_compute. reflexivity.
  - eexists. vm_compute. reflexivity.
  - eexists. split; vm_compute; reflexivity.
Qed.


(** A scan of three rocks, one of them on cooldown. *)
Example ScanStatic_rocks :
  ∃ s', ScanStatic rocks_host cooled_state = Ret tt s'
        ∧ oreSpots s' = [OreSpot.mk 101 100 0 0x053E; OreSpot.mk 103 100 0 0x053E].
Proof. eexists. split; vm_compute; reflexivity. Qed.

Lemma ScanStatic_excludes_cooldown_witness :
  oreSpots cooled_state = []
  ∧ ∃ s', ScanStatic rocks_host cooled_state = Ret tt s'
    ∧ (∀ sp, sp ∈ oreSpots s' → on_cooldown (world s') sp = false)
    ∧ (∀ cx cy, timer_active (coord_key cx cy) (world cooled_state) = true →
         ∀ sp, sp ∈ oreSpots s' → ¬ (OreSpot.x sp = cx ∧ OreSpot.y sp = cy)).
Proof.
  split; [reflexivity|].
  apply (ScanStatic_excludes_cooldown rocks_host cooled_state). reflexivity.
Defined.



(** A poll that sees no outcome text ends with the five seconds of
    [mineTimer], and the location goes on cooldown. *)
Example MineOnce_times_out :
  ∃ s', MineOnce plain_host 60 digging_state = Ret false s'
        ∧ clock (world s') = 5200
        ∧ timers (world s') !! coord_key 101 100 = Some (5200 + oreCooldown).
Proof. eexists. split; [vm_compute; reflexivity|]. split; vm_compute; reflexivity. Qed.

Lemma blockCount_threshold_witness :
  MineOnce_swing blocked_host 60 digging_state = Ret tt blocked_swung
  ∧ blockCount blocked_swung = blockCount digging_state
  ∧ (block_outcome blocked_host (world blocked_swung) = true →
       if 3 <? blockCount digging_state + 1 then
         ∃ sp rest,
           oreSpots blocked_swung = sp :: rest
           ∧ MineOnce blocked_host 60 digging_state
             = Ret false (abandoned block_message sp (set_blockCount 0 blocked_swung))
       else MineOnce blocked_host 60 digging_state
            = Ret true (set_blockCount (blockCount digging_state + 1) blocked_swung))
  ∧ (block_outcome blocked_host (world blocked_swung) = false →
       ∀ b s2, MineOnce blocked_host 60 digging_state = Ret b s2 →
               blockCount s2 = blockCount digging_state)
  ∧ (∀ s2, remove_visited blocked_host digging_state = Ret tt s2 →
           blockCount s2 = blockCount digging_state).
Proof.
  split; [vm_compute; reflexivity|].
  apply (blockCount_threshold blocked_host 60 digging_state blocked_swung).
  vm_compute; reflexivity.
Defined.

(** Three line-of-sight failures in a row at one location, counted from
    zero, each return [True] and set no cooldown; and with a success
    between them, two failures, a success and two more failures mark the
    location depleted at the second failure after the success. *)
Lemma three_blocks_counterexample :
  (let s1 := returned (MineOnce blocked_host 60 digging_state) digging_state in
   let s2 := returned (MineOnce blocked_host 60 s1) s1 in
   let s3 := returned (MineOnce blocked_host 60 s2) s2 in
   MineOnce blocked_host 60 digging_state = Ret true s1
   ∧ MineOnce blocked_host 60 s1 = Ret true s2
   ∧ MineOnce blocked_host 60 s2 = Ret true s3
   ∧ blockCount s3 = 3
   ∧ on_cooldown (world s3) rock = false)
  ∧ (let s1 := returned (MineOnce third_digs_host 60 digging_state) digging_state in
     let s2 := returned (MineOnce third_digs_host 60 s1) s1 in
     let s3 := returned (MineOnce third_digs_host 60 s2) s2 in
     let s4 := returned (MineOnce third_digs_host 60 s3) s3 in
     let s5 := returned (MineOnce third_digs_host 60 s4) s4 in
     MineOnce third_digs_host 60 digging_state = Ret true s1
     ∧ MineOnce third_digs_host 60 s1 = Ret true s2
     ∧ sys third_digs_host txt_dig_some (world s3) = true
     ∧ MineOnce third_digs_host 60 s2 = Ret true s3
     ∧ blockCount s3 = 2
     ∧ MineOnce third_digs_host 60 s3 = Ret true s4
     ∧ MineOnce third_digs_host 60 s4 = Ret false s5
     ∧ on_cooldown (world s5) rock = true).
Proof. split; vm_compute; repeat split; reflexivity. Qed.



Lemma attempts_bounded_witness :
  0 ≤ (0, true).1 ≤ maxAttempts
  ∧ (∀ l' s', rounds plain_host 60 (0, true) digging_state l' s' →
              0 ≤ l'.1 ≤ maxAttempts)
  ∧ (∀ l' s', MineSpot_loop plain_host 60 (0, true) digging_state = Ret l' s' →
              0 ≤ l'.1 ≤ maxAttempts)
  ∧ (∀ b, MineSpot_loop plain_host 61 (maxAttempts, b) digging_state
          = Ret (maxAttempts, b) digging_state)
  ∧ (∀ l1 s1 l2 s2,
       MineSpot_body plain_host 60 l1 s1 = Ret (Continue l2) s2 →
       if l2.2 then l2.1 = 0 else l2.1 = l1.1 + 1).
Proof.
  split; [unfold maxAttempts; simpl; lia|].
  apply (attempts_bounded plain_host 60 (0, true) digging_state).
  unfold maxAttempts; simpl; lia.
Defined.

(** A location where nothing answers: one attempt, which times out, and
    the loop is left with the counter at one. *)
Example MineSpot_loop_one_failure :
  ∃ s', MineSpot_loop plain_host 60 (0, true) digging_state = Ret (1, false) s'.
Proof. eexists. vm_compute. reflexivity. Qed.

Lemma overweight_forces_drop_witness :
  let l := (0, true) in
  let s0 := heavy_linked_state in
  let s := heavy_after_trigger in
  let s1 := heavy_after_move in
  (smelt_trigger heavy_host ;; (if l.1 =? 1 then pause 100 else ret tt))%py s0
    = Ret tt s
  ∧ (weightLimit s - 40 <=? Player_Weight heavy_host (world s))
      || ((0 <? l.1) && (l.1 mod 8 =? 0)) = true
  ∧ MoveToBeetle heavy_host s = Ret false s1
  ∧ (let s2 := set_world (record_call failed_transfer_message) s1 in
     Player_MaxWeight heavy_host (world s2) - 10
       ≤ Player_Weight heavy_host (world s2)
     ∧ let s3 := set_world (record_call critical_message) s2 in
       drop_on_ground heavy_host s3 = Ret tt (after_drop heavy_host s3)
       ∧ MineSpot_body heavy_host 60 l s0
         = (smelt_trigger heavy_host ;; ret (Break l))%py
             (after_drop heavy_host s3)).
Proof.
  intros l s0 s s1.
  split; [vm_compute; reflexivity|]. split; [reflexivity|].
  split; [vm_compute; reflexivity|]. intros s2.
  split; [simpl; lia|].
  apply (overweight_forces_drop heavy_host 60 l s0 s s1).
  - vm_compute; reflexivity.
  - reflexivity.
  - vm_compute; reflexivity.
  - simpl; lia.
Defined.

(** With ore of a known graphic in the backpack and the helper linked,
    the round drops one unit of it and then calls the helper. *)
Example overweight_drops_ore :
  ∃ s', MineSpot_body heavy_host 60 (0, true) heavy_linked_state
        = Ret (Break (0, true)) s'
        ∧ List.filter (fun c => is_drop c || is_smelter_call c) (trace (world s'))
          = [Smelter_invoked;
             Items_MoveOnGround (Serial ore_item) 1 100 100 0;
             Smelter_invoked].
Proof. eexists. split; vm_compute; reflexivity. Qed.

(** The agent is within 10 of its maximum weight, the offload has
    failed, and the round leaves the loop with nothing dropped and no
    trigger run: the backpack holds no item of a listed graphic, and no
    helper is linked. *)
Lemma overweight_counterexample :
  let s' := returned (MineSpot_body heavy_bare_host 60 (0, true) heavy_state)
                     heavy_state in
  MoveToBeetle heavy_bare_host heavy_state
    = Ret false (returned (MoveToBeetle heavy_bare_host heavy_state) heavy_state)
  ∧ Player_MaxWeight heavy_bare_host (world s') - 10
      ≤ Player_Weight heavy_bare_host (world s')
  ∧ MineSpot_body heavy_bare_host 60 (0, true) heavy_state
    = Ret (Break (0, true)) s'
  ∧ Misc_SendMessage "--> CRITICAL: Too heavy to move!" (Some 33) ∈ trace (world s')
  ∧ existsb is_drop (trace (world s')) = false
  ∧ existsb is_smelter_call (trace (world s')) = false.
Proof.
  intros s'. split; [vm_compute; reflexivity|].
  split; [vm_compute; discriminate|].
  split; [vm_compute; reflexivity|].
  split; [apply list_elem_of_In; vm_compute; tauto|].
  split; vm_compute; reflexivity.
Qed.

(** No tool: the attempt stops the script after its message. *)
Example MineOnce_without_tool :
  ∃ s', MineOnce toolless_host 60 digging_state = Raise ScriptStop s'
        ∧ head (trace (world s')) = Some no_tool_message.
Proof. eexists. split; vm_compute; reflexivity. Qed.

(** Linking the auto-smelter turns the ID lists of the module into
    [List[Int32]] and leaves its other attributes alone. *)
Example link_smelter_normalizes :
  ∃ s', link_smelter stubborn_host state0 = Ret tt s'
        ∧ smelter_linked s' = true
        ∧ default ∅ (smelter s') !! "ORE_IDS" = Some (PyInt32List [0x19B9])
        ∧ default ∅ (smelter s') !! "DEBUG_MODE" = Some PyOther.
Proof. eexists. split; [|split; [|split]]; vm_compute; reflexivity. Qed.


End MiningSpec.

(** * What the gathering functions do *)

Module GatheringProps.
Import Mining MiningSpec.
Local Open Scope py_scope.

(** ** What a function changes *)

(** [s'] differs from [s] in the world only: no variable of the script
    has been assigned. *)
Definition only_world (s s' : State) : Prop :=
  s' = set_world (fun _ => world s') s.

Lemma only_world_refl s : only_world s s.
Proof. by destruct s. Qed.

Lemma only_world_trans s1 s2 s3 :
  only_world s1 s2 → only_world s2 s3 → only_world s1 s3.
Proof. unfold only_world. intros -> ->. done. Qed.

Lemma only_world_set f s0 s : only_world s0 s → only_world s0 (set_world f s).
Proof. unfold only_world. by intros ->. Qed.

(** The calls made on the way from the trace [T]: each satisfies [P]. *)
Inductive extends (P : Call → Prop) (T : list Call) : list Call → Prop :=
| extends_refl : extends P T T
| extends_cons c T' : P c → extends P T T' → extends P T (c :: T').

Lemma extends_app P T T' :
  extends P T T' ↔ ∃ new, T' = new ++ T ∧ Forall P new.
Proof.
  split.
  - induction 1 as [|c T' Hc _ (new & -> & Hall)]; [by exists []|].
    exists (c :: new). split; [done | by constructor].
  - intros (new & -> & Hall). induction Hall; simpl; [constructor|].
    by constructor.
Qed.

Lemma extends_trans P T1 T2 T3 :
  extends P T1 T2 → extends P T2 T3 → extends P T1 T3.
Proof. intros H12. induction 1; [done | by constructor]. Qed.

Lemma extends_mono (P P' : Call → Prop) T T' :
  (∀ c, P c → P' c) → extends P T T' → extends P' T T'.
Proof. intros HP. induction 1; constructor; auto. Qed.

(** Close a goal on the calls of an explicit trace, [tac] showing that
    each call is as it should be. *)
Ltac extends_by tac :=
  simpl in *;
  repeat first
    [ eassumption
    | apply extends_refl
    | apply extends_cons; [solve [tac] |] ].
Ltac extends_solve := extends_by ltac:(simpl; eauto; done).

(** ** One extraction attempt, continued *)

(** Settle a goal whose hypotheses on the journal contradict each other. *)
Ltac journal_cases h :=
  exfalso; unfold blocked_text, sys in *;
  repeat match goal with
         | H : negb _ = false |- _ => apply negb_false_iff in H
         | H : negb _ = true |- _ => apply negb_true_iff in H
         end;
  repeat match goal with
         | H : context [Journal_SearchByType h ?t ?k ?w] |- _ =>
             destruct (Journal_SearchByType h t k w)
         | H : context [Journal_Search h ?t ?w] |- _ =>
             destruct (Journal_Search h t w)
         end;
  simpl in *; congruence.

Section Outcome.
Context (h : Host).

Lemma EquipPickaxe_timers t s :
  timers (world s) = t →
  wp (EquipPickaxe h) (fun _ s' => timers (world s') = t) s.
Proof. intros. unfold EquipPickaxe, FindPickaxe, in_hand. wp_steps; done. Qed.

Lemma MineOnce_outcome_cooldown s sp rest :
  oreSpots s = sp :: rest → poll_done h (world s) = true →
  wp (MineOnce_outcome h)
     (fun b s' =>
        if b then timers (world s') = timers (world s)
        else timers (world s')
             = <[coord_key (OreSpot.x sp) (OreSpot.y sp)
                 := clock (world s) + oreCooldown]> (timers (world s))
             ∧ clock (world s') = clock (world s)) s.
Proof.
  intros Hsp Hdone.
  rewrite poll_done_outcome_text in Hdone. unfold outcome_text in Hdone.
  unfold MineOnce_outcome, cooldown_oreSpot, oreSpots_0.
  repeat first
    [ wp_step; simpl
    | eapply wp_mono;
      [eapply (EquipPickaxe_timers (timers (world s))); done | intros ? ? ?] ].
  all: try done.
  all: simpl in *; try congruence.
  all: try (by simplify_eq).
  journal_cases h.
Qed.

(** X1. Once the swing and the poll of an attempt are over, [MineOnce]
    returns; when it returns [False] it has set the cooldown timer of the
    location, to expire [oreCooldown] after the poll ended, so that the
    location is on cooldown; when it returns [True] it has set no
    timer. *)
Theorem MineOnce_false_means_cooldown (fuel : nat) (s s1 : State) :
  MineOnce_swing h fuel s = Ret tt s1 →
  ∃ b s' sp rest,
    MineOnce h fuel s = Ret b s'
    ∧ oreSpots s1 = sp :: rest
    ∧ if b then timers (world s') = timers (world s1)
      else timers (world s')
           = <[coord_key (OreSpot.x sp) (OreSpot.y sp)
               := clock (world s1) + oreCooldown]> (timers (world s1))
           ∧ clock (world s') = clock (world s1)
           ∧ on_cooldown (world s') sp = true.
Proof.
  intros Hswing.
  destruct (MineOnce_swing_returns _ _ _ _ Hswing) as (Hne & Hdone & _).
  rewrite (MineOnce_after_swing _ _ _ _ Hswing).
  destruct (oreSpots s1) as [|sp rest] eqn:Hsp; [done|].
  destruct (wp_elim _ _ _ (MineOnce_outcome_cooldown s1 sp rest Hsp Hdone))
    as (b & s' & Hret & Hpost).
  exists b, s', sp, rest. split; [done|]. split; [done|].
  destruct b; [done|]. destruct Hpost as [Ht Hc]. split; [done|]. split; [done|].
  unfold on_cooldown, timer_active. rewrite Ht, lookup_insert_eq, Hc.
  unfold oreCooldown. apply Z.ltb_lt. lia.
Qed.
End Outcome.

Section Counters.
Context (h : Host) (fuel : nat).

(** X2. The block counter stays between zero and three: an attempt
    entered with the counter in that range returns with the counter in
    that range, whatever its outcome. *)
Theorem blockCount_in_range (s : State) (b : bool) (s' : State) :
  0 ≤ blockCount s ≤ 3 →
  MineOnce h fuel s = Ret b s' →
  0 ≤ blockCount s' ≤ 3.
Proof.
  intros Hs Hret. unfold MineOnce, bind in Hret.
  destruct (MineOnce_swing h fuel s) as [[] s1| |] eqn:Hswing; [|done..].
  destruct (MineOnce_swing_returns _ _ _ _ Hswing) as (Hne & _ & _ & Hbc & _).
  destruct (block_outcome h (world s1)) eqn:Hblock.
  - rewrite (MineOnce_outcome_blocked _ _ Hblock) in Hret.
    destruct (Z.ltb_spec 3 (blockCount s1 + 1)).
    + destruct (oreSpots s1); [done|]. injection Hret as _ <-. simpl. lia.
    + injection Hret as _ <-. simpl. lia.
  - pose proof (MineOnce_outcome_other _ _ Hblock) as Hpc.
    eapply pc_ret_elim in Hpc; [|exact Hret]. simpl in Hpc. lia.
Qed.

(** X3. As [MineSpotUntilDepleted] enters its loop, every round starts
    with [attempts] at zero: a failed attempt, which alone raises the
    counter, also clears [miningSuccess] and ends the loop.  So the pause
    of line 377 and the periodic offload of line 378 ([attempts % 8]) do
    not happen, the loop is left with [attempts] at zero or one, and the
    test of line 410 fails. *)
Theorem MineSpot_rounds_start_at_zero (s : State) :
  (∀ l1 s1, rounds h fuel (0, true) s l1 s1 →
     l1.2 && (l1.1 <? maxAttempts) = true →
     l1 = (0, true)
     ∧ (l1.1 =? 1) = false
     ∧ (0 <? l1.1) && (l1.1 mod 8 =? 0) = false)
  ∧ (∀ l' s', MineSpot_loop h fuel (0, true) s = Ret l' s' →
       (l' = (0, true) ∨ l' = (1, false))
       ∧ (maxAttempts <=? l'.1) = false)
  ∧ (∀ s', MineSpotUntilDepleted h fuel s = Ret tt s' →
       ∃ s0 l', MineSpot_loop h fuel (0, true) s0 = Ret l' s').
Proof.
  assert (∀ s l' s', MineSpot_loop h fuel (0, true) s = Ret l' s' →
            l' = (0, true) ∨ l' = (1, false)) as Hloop; [|split; [|split]].
  { clear s. intros s l' s' Hret.
    assert (pc (MineSpot_loop h fuel (0, true))
              (fun l _ => l = (0, true) ∨ l = (1, false)) (fun _ _ => True) s)
      as Hpc; [|by eapply pc_ret_elim in Hpc; [|exact Hret]].
    unfold MineSpot_loop.
    apply (pc_while_loop _ _ (fun l _ => l = (0, true) ∨ l = (1, false)));
      [|by left].
    intros l s0 Hl. unfold MineSpot_cond. apply pc_ret.
    destruct Hl as [-> | ->]; simpl; [|by right].
    eapply pc_mono; [apply MineSpot_body_result| |done].
    intros [[n ok]|l2] s2; simpl.
    - destruct ok; intros ->; auto.
    - intros ->. by left. }
  - intros [n ok] s1 Hrounds Hguard. simpl in Hguard.
    apply attempts_at_most_one in Hrounds. simpl in Hrounds.
    apply andb_true_iff in Hguard as [-> _]. by subst n.
  - intros l' s' Hret. split; [by eapply Hloop|].
    by destruct (Hloop _ _ _ Hret) as [-> | ->].
  - intros s' Hret.
    assert (pc (MineSpotUntilDepleted h fuel)
              (fun _ s' => ∃ s0 l', MineSpot_loop h fuel (0, true) s0 = Ret l' s')
              (fun _ _ => True) s)
      as Hpc; [|by eapply pc_ret_elim in Hpc; [|exact Hret]].
    unfold MineSpotUntilDepleted. do 6 pc_skip.
    match goal with |- pc _ _ _ ?s0 => set (s0' := s0) end.
    unfold pc, bind.
    destruct (MineSpot_loop h fuel (0, true) s0') as [l' s1| |] eqn:Hl; [|done..].
    destruct (Hloop _ _ _ Hl) as [-> | ->]; simpl; eauto.
Qed.

End Counters.

(** ** The visit of a location *)

Section Visit.
Context (h : Host) (fuel : nat).

(** X4. A visit takes the head candidate off the list and no other:
    when [visit_nearest] returns, [oreSpots] holds the candidates that
    stood behind the visited one, sorted anew by distance. *)
Theorem visit_nearest_removes_head (s s' : State) (sp : OreSpot.t)
    (rest : list OreSpot.t) :
  oreSpots s = sp :: rest →
  visit_nearest h fuel s = Ret tt s' →
  oreSpots s' = sorted rest (distance_key (Player_Position h (world s')))
  ∧ oreSpots s' ≡ₚ rest
  ∧ List.length (oreSpots s') = List.length rest.
Proof.
  intros Hsp Hret.
  assert (oreSpots s' = sorted rest (distance_key (Player_Position h (world s'))))
    as Heq; [|rewrite Heq; split; [done|];
              split; [apply sorted_Permutation | by rewrite sorted_Permutation]].
  set (I := fun s0 : State => oreSpots s0 = sp :: rest).
  assert (calm I) as HC by (unfold calm, I; congruence).
  pose proof (calm_quiet _ HC) as HQ.
  assert (pc (visit_nearest h fuel)
            (fun _ s' => oreSpots s'
                         = sorted rest (distance_key (Player_Position h (world s'))))
            (fun _ _ => True) s) as Hpc;
    [|by eapply pc_ret_elim in Hpc; [|exact Hret]].
  assert (I s) as Hs by done.
  unfold visit_nearest.
  pc_step. eapply pc_mono;
    [by apply (safetyNet_quiet h I (fun _ _ => True))| |done].
  intros u1 s1 Hs1. pc_step. eapply pc_mono;
    [by apply (smelt_trigger_quiet h I (fun _ _ => True))| |done].
  intros u2 s2 Hs2. pc_step. eapply pc_mono;
    [by apply (MoveToOreSpot_quiet h I (fun _ _ => True))| |done].
  intros u3 s3 Hs3. pc_step. eapply pc_mono;
    [by apply (MineSpotUntilDepleted_calm h I (fun _ _ => True))| |done].
  intros u4 s4 Hs4. pc_step. eapply pc_mono;
    [by apply (smelt_trigger_quiet h I (fun _ _ => True))| |done].
  intros u5 s5 Hs5. unfold remove_visited, pop_0, sort_oreSpots.
  pc_steps; [done|]. simpl. unfold I in Hs5. congruence.
Qed.

End Visit.

(** ** Travel between the runes *)

Lemma wp_and {A} (m : M A) (Q1 Q2 : A → State → Prop) s :
  wp m Q1 s → wp m Q2 s → wp m (fun a s' => Q1 a s' ∧ Q2 a s') s.
Proof. unfold wp. by destruct (m s). Qed.

(** Close a goal that a state reached by host calls differs from the
    one left in the world only. *)
Ltac frame_solve :=
  simpl; repeat apply only_world_set; first [eassumption | apply only_world_refl].

(** The rune button after [r] (lines 170-172). *)
Definition next_rune (r : Z) : Z := if 95 <? r + 6 then 5 else r + 6.

(** One of the sixteen rune buttons of a runebook: 5, 11, ..., 95. *)
Definition rune_button (r : Z) : Prop := ∃ k, 0 ≤ k ≤ 15 ∧ r = 5 + 6 * k.

Section Runes.
Context (h : Host).

Lemma FindPickaxe_only_world s0 s :
  only_world s0 s → wp (FindPickaxe h) (fun _ => only_world s0) s.
Proof. intros. unfold FindPickaxe. wp_steps; frame_solve. Qed.

Lemma EquipPickaxe_only_world s0 s :
  only_world s0 s → wp (EquipPickaxe h) (fun _ => only_world s0) s.
Proof.
  intros. unfold EquipPickaxe. wp_step.
  eapply wp_mono; [by apply FindPickaxe_only_world|].
  intros r s1 H1. unfold in_hand. wp_steps; frame_solve.
Qed.

Lemma RecallNextSpot_result (s : State) :
  ∃ s', RecallNextSpot h s = Ret tt s'
    ∧ Gumps_SendAction 1431013363 (lastRune s) ∈ trace (world s')
    ∧ lastRune s' = next_rune (lastRune s).
Proof.
  assert (wp (RecallNextSpot h)
            (fun _ s' =>
               Gumps_SendAction 1431013363 (lastRune s) ∈ trace (world s')
               ∧ lastRune s' = next_rune (lastRune s)) s) as Hwp.
  { unfold RecallNextSpot. do 9 (wp_step; wp_step; simpl).
    wp_step. wp_step. simpl.
    assert (∀ s1, Gumps_SendAction 1431013363 (lastRune s) ∈ trace (world s1) →
              lastRune s1 = next_rune (lastRune s) →
              wp (pause 1000 ;; EquipPickaxe h ;; ret tt)
                 (fun _ s' =>
                    Gumps_SendAction 1431013363 (lastRune s) ∈ trace (world s')
                    ∧ lastRune s' = next_rune (lastRune s)) s1) as Htail.
    { intros s1 HT Hrune. wp_step. wp_step. simpl. wp_step.
      eapply wp_mono.
      - apply wp_and.
        + apply (EquipPickaxe_keeps h (trace (world s1))). unfold keeps. simpl.
          by apply suffix_cons_r.
        + apply (EquipPickaxe_only_world s1). frame_solve.
      - intros r s2 [HT2 Hw2]. wp_step. split.
        + unfold keeps in HT2. destruct HT2 as [pre ->].
          apply elem_of_app. by right.
        + rewrite Hw2. simpl. done. }
    destruct (95 <? lastRune s + 6) eqn:Hwrap.
    - wp_step. apply Htail; simpl; [|unfold next_rune; by rewrite Hwrap].
      rewrite !elem_of_cons. auto.
    - wp_step. apply Htail; simpl; [|unfold next_rune; by rewrite Hwrap].
      rewrite !elem_of_cons. auto. }
  apply wp_elim in Hwp as ([] & s' & Hret & Hsent & Hrune). eauto.
Qed.

(** X5. [RecallNextSpot] returns; it presses the button [lastRune] of
    the mining runebook and moves [lastRune] six further, back to 5 once
    it would pass 95.  So a [lastRune] that is one of the sixteen rune
    buttons 5, 11, ..., 95 stays one, and comes back to the same button
    after sixteen recalls. *)
Theorem RecallNextSpot_cycles_runes (s : State) :
  ∃ s', RecallNextSpot h s = Ret tt s'
    ∧ Gumps_SendAction 1431013363 (lastRune s) ∈ trace (world s')
    ∧ lastRune s' = next_rune (lastRune s)
    ∧ (rune_button (lastRune s) →
         rune_button (lastRune s')
         ∧ Nat.iter 16 next_rune (lastRune s) = lastRune s).
Proof.
  destruct (RecallNextSpot_result s) as (s' & Hret & Hsent & Hrune).
  exists s'. split; [done|]. split; [done|]. split; [done|].
  intros (k & Hk & Hr). rewrite Hrune, Hr. split.
  - unfold next_rune. destruct (Z.ltb_spec 95 (5 + 6 * k + 6)).
    + exists 0. lia.
    + exists (k + 1). lia.
  - assert (k = 0 ∨ k = 1 ∨ k = 2 ∨ k = 3 ∨ k = 4 ∨ k = 5 ∨ k = 6 ∨ k = 7
            ∨ k = 8 ∨ k = 9 ∨ k = 10 ∨ k = 11 ∨ k = 12 ∨ k = 13 ∨ k = 14
            ∨ k = 15) as Hcases by lia.
    repeat (destruct Hcases as [-> | Hcases]; [reflexivity|]).
    by subst k.
Qed.

End Runes.

Section Back.
Context (h : Host).

(** X6. [RecallBack] returns, presses the button that [lastRune] names
    and leaves [lastRune] as it is.  [RecallNextSpot] has moved
    [lastRune] on by then: a [RecallBack] that follows it presses the
    button of the rune after the one just visited. *)
Theorem RecallBack_presses_lastRune (s : State) :
  (∃ s', RecallBack h s = Ret tt s'
     ∧ Gumps_SendAction 1431013363 (lastRune s) ∈ trace (world s')
     ∧ only_world s s')
  ∧ (∃ s1 s2, RecallNextSpot h s = Ret tt s1
       ∧ RecallBack h s1 = Ret tt s2
       ∧ Gumps_SendAction 1431013363 (next_rune (lastRune s)) ∈ trace (world s2)
       ∧ lastRune s2 = next_rune (lastRune s)).
Proof.
  assert (∀ s, ∃ s', RecallBack h s = Ret tt s'
            ∧ Gumps_SendAction 1431013363 (lastRune s) ∈ trace (world s')
            ∧ only_world s s') as Hback.
  { clear s. intros s.
    assert (wp (RecallBack h)
              (fun _ s' =>
                 Gumps_SendAction 1431013363 (lastRune s) ∈ trace (world s')
                 ∧ only_world s s') s) as Hwp.
    { unfold RecallBack. do 5 (wp_step; wp_step; simpl).
      wp_step. eapply wp_mono.
      - apply wp_and.
        + eapply (EquipPickaxe_keeps h). apply suffix_same.
        + apply (EquipPickaxe_only_world h s). frame_solve.
      - intros r s2 [[pre HT2] Hw2]. wp_step. split; [|done].
        rewrite HT2. apply elem_of_app. right. simpl.
        rewrite !elem_of_cons. auto. }
    apply wp_elim in Hwp as ([] & s' & ? & ? & ?). eauto. }
  split; [apply Hback|].
  destruct (RecallNextSpot_result h s) as (s1 & Hnext & _ & Hrune).
  destruct (Hback s1) as (s2 & Hret & Hsent & Hw).
  exists s1, s2. rewrite <- Hrune. split; [done|]. split; [done|].
  split; [done|]. by rewrite Hw.
Qed.

End Back.

(** ** Approaching a location *)

Lemma cons_app_eq {A} (c : A) T' new T : T' = new ++ T → c :: T' = (c :: new) ++ T.
Proof. by intros ->. Qed.
Lemma nil_app_eq {A} (T : list A) : T = [] ++ T.
Proof. done. Qed.

(** Name the calls made since the trace [T]. *)
Ltac trace_delta :=
  simpl; repeat first [apply nil_app_eq | apply cons_app_eq].

Definition is_go (c : Call) : bool :=
  match c with
  | PathFinding_Go _ => true
  | _ => false
  end.

(** The route leads to one of the four tiles beside the location, with
    the retry settings of lines 236-237. *)
Definition beside (sp : OreSpot.t) (r : Route) : Prop :=
  Z.abs (RX r - OreSpot.x sp) + Z.abs (RY r - OreSpot.y sp) = 1
  ∧ MaxRetry r = 5 ∧ StopIfStuck r = false.

Definition goes_beside (sp : OreSpot.t) (c : Call) : Prop :=
  match c with
  | PathFinding_Go route => ∃ r, route = Some r ∧ beside sp r
  | _ => True
  end.

Section Approach.
Context (h : Host).

(** X7. The approach of lines 235-260 never asks for a path onto the
    location itself: each of its at most four [PathFinding.Go] calls is
    for a tile beside the head candidate, so is the route it leaves in
    [oreSpotCoords], and the candidates are left alone. *)
Theorem first_approach_goes_beside (s : State) (b : bool) (s' : State)
    (sp : OreSpot.t) (rest : list OreSpot.t) :
  oreSpots s = sp :: rest →
  first_approach h s = Ret b s' →
  (∃ new, trace (world s') = new ++ trace (world s)
     ∧ Forall (goes_beside sp) new
     ∧ (1 ≤ List.length (List.filter is_go new) ≤ 4)%nat)
  ∧ (∃ r, oreSpotCoords s' = Some r ∧ beside sp r)
  ∧ oreSpots s' = sp :: rest.
Proof.
  intros Hsp Hret.
  assert (pc (first_approach h)
            (fun _ s' =>
               (∃ new, trace (world s') = new ++ trace (world s)
                  ∧ Forall (goes_beside sp) new
                  ∧ (1 ≤ List.length (List.filter is_go new) ≤ 4)%nat)
               ∧ (∃ r, oreSpotCoords s' = Some r ∧ beside sp r)
               ∧ oreSpots s' = sp :: rest)
            (fun _ _ => True) s) as Hpc;
    [|by eapply pc_ret_elim in Hpc; [|exact Hret]].
  assert (beside sp (mkRoute 5 false (OreSpot.x sp) (OreSpot.y sp + 1))) as HS
    by (unfold beside; simpl; lia).
  assert (beside sp (mkRoute 5 false (OreSpot.x sp + 1) (OreSpot.y sp))) as HE
    by (unfold beside; simpl; lia).
  assert (beside sp (mkRoute 5 false (OreSpot.x sp - 1) (OreSpot.y sp))) as HW
    by (unfold beside; simpl; lia).
  assert (beside sp (mkRoute 5 false (OreSpot.x sp) (OreSpot.y sp - 1))) as HN
    by (unfold beside; simpl; lia).
  unfold first_approach, go_oreSpotCoords, oreSpots_0, aim. pc_steps.
  all: try done.
  all: simpl in *; simplify_eq.
  all: split; [|split; [eauto|done]].
  all: eexists; split; [trace_delta|]; simpl.
  all: split; [repeat constructor; simpl; eauto | lia].
Qed.

End Approach.

Section Patience.
Context (h : Host).

(** No enemy comes in sight, and the auto-smelter helper returns. *)
Definition peaceful : Prop :=
  (∀ w, Target_GetTargetFromList h "enemywar" w = None)
  ∧ (∀ attrs w, smelter_run h attrs w = None).

Lemma CheckEnemy_peaceful fuel s : peaceful → CheckEnemy h fuel s = Ret tt s.
Proof.
  intros [Hnone _]. unfold CheckEnemy, bind, observe, gets. by rewrite Hnone.
Qed.

Lemma smelt_trigger_peaceful s0 s :
  peaceful → only_world s0 s → wp (smelt_trigger h) (fun _ => only_world s0) s.
Proof.
  intros [_ Hrun] Hs. unfold smelt_trigger, _wrapped_smelter.
  wp_steps; try frame_solve.
  all: apply wp_try_except; unfold _smelter_run; wp_steps; try frame_solve.
  all: match goal with H : smelter_run _ _ _ = Some _ |- _ =>
         by rewrite Hrun in H end.
Qed.

Lemma first_approach_returns s0 s :
  has_spot s0 → oreSpots s = oreSpots s0 →
  wp (first_approach h) (fun _ s' => oreSpots s' = oreSpots s0) s.
Proof.
  intros Hne Hs. unfold has_spot in Hne.
  unfold first_approach, go_oreSpotCoords, oreSpots_0, aim.
  wp_step. wp_step. wp_step. simpl. rewrite Hs.
  destruct (oreSpots s0) eqn:Hsp; [done|]. wp_steps; simpl; congruence.
Qed.

Lemma second_approach_returns s0 s :
  has_spot s0 → oreSpots s = oreSpots s0 →
  wp (second_approach h) (fun _ s' => oreSpots s' = oreSpots s0) s.
Proof.
  intros Hne Hs. unfold has_spot in Hne.
  unfold second_approach, go_oreSpotCoords, oreSpots_0, aim.
  wp_step. wp_step. simpl. wp_step. wp_step. wp_step. simpl. rewrite Hs.
  destruct (oreSpots s0) eqn:Hsp; [done|]. wp_steps; simpl; congruence.
Qed.

Lemma RangeOreSpot_returns s0 s :
  has_spot s0 → oreSpots s = oreSpots s0 →
  wp (RangeOreSpot h) (fun _ s' => s' = s) s.
Proof.
  intros Hne Hs. unfold has_spot in Hne. unfold RangeOreSpot, oreSpots_0.
  do 2 (wp_step; wp_step; simpl). wp_step. wp_step. wp_step. simpl.
  rewrite Hs. destruct (oreSpots s0); [done|]. by wp_steps.
Qed.

(** X8. [MoveToOreSpot] does not wait for ever: with a candidate at
    hand, no enemy in sight and a helper that returns, it returns within
    351 rounds of its waiting loop (once [pathlock] passes 350 it asks for
    a path again and returns), and leaves the candidates as they are. *)
Theorem MoveToOreSpot_returns (fuel : nat) (s : State) :
  peaceful → has_spot s → (351 ≤ fuel)%nat →
  ∃ s', MoveToOreSpot h fuel s = Ret tt s' ∧ oreSpots s' = oreSpots s.
Proof.
  intros Hp Hne Hfuel.
  assert (wp (MoveToOreSpot h fuel) (fun _ s' => oreSpots s' = oreSpots s) s)
    as Hwp; [|apply wp_elim in Hwp as ([] & s' & ? & ?); by exists s'].
  unfold MoveToOreSpot.
  assert (∀ s1, oreSpots s1 = oreSpots s →
            wp oreSpots_0 (fun _ s' => s' = s1) s1) as Hhead.
  { intros s1 Hs1. unfold oreSpots_0. wp_step. wp_step. simpl. rewrite Hs1.
    unfold has_spot in Hne. destruct (oreSpots s); [done|]. by wp_step. }
  wp_step. eapply wp_mono; [by apply Hhead|]. intros _ ? ->.
  do 2 (wp_step; wp_step; simpl).
  wp_step. eapply wp_mono; [by apply (first_approach_returns s)|].
  intros on s1 Hs1. destruct on; [|by wp_step].
  wp_step. wp_step. simpl. wp_step.
  eapply wp_mono.
  - apply (wp_while_loop _ _
             (fun l s' => oreSpots s' = oreSpots s ∧ 0 ≤ l.1 ≤ 350)
             (fun l _ => Z.to_nat (350 - l.1))
             (fun _ s' => oreSpots s' = oreSpots s)); [|done|simpl; lia].
    intros [pathlock b] s2 [Hs2 Hl]. simpl in Hl.
    wp_step. eapply wp_mono; [by apply (RangeOreSpot_returns s)|].
    intros inrange ? ->. wp_step. destruct inrange; simpl; [done|].
    wp_step. eapply wp_intro; [by apply CheckEnemy_peaceful|].
    wp_step. eapply wp_mono;
      [apply (smelt_trigger_peaceful s2); [done | apply only_world_refl]|].
    intros u s3 Hs3. wp_step. wp_step. simpl.
    destruct (Z.ltb_spec 350 (pathlock + 1)).
    + wp_step. eapply wp_mono.
      * apply (second_approach_returns s); [done|]. simpl. by rewrite Hs3.
      * intros u' s4 Hs4. by wp_step.
    + wp_step. simpl. rewrite Hs3. simpl. split; [split; [done|lia]|lia].
  - intros [pathlock b] s2 Hs2. simpl. destruct b; [by wp_step|].
    wp_step. eapply wp_mono; [by apply Hhead|]. intros _ ? ->. by wp_step.
Qed.

End Patience.

(** ** The companion carrier, continued *)

Section Beetle.
Context (h : Host).

Definition looking_message : Call :=
  Misc_SendMessage "Looking for beetle with serial: 0x{beetle:X}" (Some 66).
Definition too_far_message : Call :=
  Misc_SendMessage "Beetle found but too far away: {distance} tiles" (Some 33).
Definition searching_message : Call :=
  Misc_SendMessage "Searching for any nearby pack animal..." (Some 66).
Definition none_found_message : Call :=
  Misc_SendMessage "ERROR: No pack animal found within 15 tiles!" (Some 33).

(** The animal of the stored serial, when there is one closer than 15
    tiles: the host is asked right after the message of line 536. *)
Definition by_serial (s : State) : option Mobile :=
  if beetle s =? 0 then None
  else
    let w := record_call looking_message (world s) in
    match Mobiles_FindBySerial h (beetle s) w with
    | Some m => if Player_DistanceTo h m w <? 15 then Some m else None
    | None => None
    end.

(** The world the search of lines 545-560 looks at, when the stored
    serial has given nothing. *)
Definition search_world (s : State) : World :=
  record_call searching_message
    (if beetle s =? 0 then world s
     else
       let w := record_call looking_message (world s) in
       match Mobiles_FindBySerial h (beetle s) w with
       | Some _ => record_call too_far_message w
       | None => w
       end).

Definition near_pack_animal (w : World) (m : Mobile) : bool :=
  is_pack_animal m && (Player_DistanceTo h m w <? 15).

(** The first animal of the host's list that is a pack animal closer
    than 15 tiles. *)
Definition by_search (s : State) : option Mobile :=
  List.find (near_pack_animal (search_world s))
            (Mobiles_ApplyFilter h DefaultFilter (search_world s)).

Lemma search_loop (mobiles : list Mobile) (s2 : State) :
  wp (for_loop mobiles (fun mobile (_ : option Mobile) =>
        distance <- observe (Player_DistanceTo h mobile) ;;
        if is_pack_animal mobile && (distance <? 15) then
          old_serial <- gets beetle ;;
          modify (set_beetle (MSerial mobile)) ;;
          SendMessage "Found pack animal: {name} (0x{beetle:X}) at {distance} tiles" 66 ;;
          (if negb (old_serial =? MSerial mobile) then
             SendMessage "Updated beetle serial to: 0x{beetle:X}" 66
           else ret tt) ;;
          ret (Break (Some mobile))
        else ret (Continue None)) None)
     (fun found s' =>
        found = List.find (near_pack_animal (world s2)) mobiles
        ∧ match found with
          | Some m => s' = set_world (fun _ => world s') (set_beetle (MSerial m) s2)
          | None => s' = s2
          end) s2.
Proof.
  induction mobiles as [|m mobiles IH]; simpl.
  - by apply wp_ret.
  - wp_step. wp_step. simpl. unfold near_pack_animal at 1.
    wp_steps; simpl; [split; done .. | apply IH].
Qed.

(** X9. [GetBeetle] returns.  It answers the animal of the stored
    serial when the host finds one closer than 15 tiles, and then
    assigns no variable of the script; otherwise it answers the first
    animal of the host's list that is a pack animal (by body, or by
    "pack" or "beetle" in its name) closer than 15 tiles, and stores its
    serial.  It answers [None] exactly when there is neither: its last
    call is then its error message, and the stored serial is as
    before. *)
Theorem GetBeetle_answers_near (s : State) :
  ∃ s', GetBeetle h s = Ret (by_serial s ∪ by_search s) s'
    ∧ match by_serial s, by_search s with
      | Some _, _ => only_world s s'
      | None, Some m =>
          s' = set_world (fun _ => world s') (set_beetle (MSerial m) s)
      | None, None =>
          s' = set_world (record_call none_found_message)
                         (set_world (fun _ => search_world s) s)
      end.
Proof.
  assert (wp (GetBeetle h)
            (fun r s' =>
               r = by_serial s ∪ by_search s
               ∧ match by_serial s, by_search s with
                 | Some _, _ => only_world s s'
                 | None, Some m =>
                     s' = set_world (fun _ => world s') (set_beetle (MSerial m) s)
                 | None, None =>
                     s' = set_world (record_call none_found_message)
                                    (set_world (fun _ => search_world s) s)
                 end) s) as Hwp;
    [|apply wp_elim in Hwp as (r & s' & Hret & -> & Hs'); by exists s'].
  unfold GetBeetle.
  wp_step. wp_step. simpl.
  set (search := fun near : option Mobile => match near with
                                             | Some m => ret (Some m)
                                             | None => _
                                             end).
  assert (∀ s1, s1 = set_world (fun _ => world s1) s →
            record_call searching_message (world s1) = search_world s →
            by_serial s = None →
            wp (search None)
               (fun r s' =>
                  r = by_search s
                  ∧ match by_search s with
                    | Some m =>
                        s' = set_world (fun _ => world s') (set_beetle (MSerial m) s)
                    | None =>
                        s' = set_world (record_call none_found_message)
                                       (set_world (fun _ => search_world s) s)
                    end) s1) as Hsearch.
  { intros s1 Hs1 Hw Hserial. unfold search. wp_step. wp_step. simpl.
    wp_step. wp_step. simpl. wp_step.
    eapply wp_mono; [apply search_loop|].
    simpl. fold searching_message. rewrite Hw. fold (by_search s).
    intros found s2 [-> Hs2].
    destruct (by_search s) as [m|] eqn:Hfound.
    - wp_step. split; [done|]. rewrite Hs2 at 1. rewrite Hs1. done.
    - wp_step. wp_step. simpl. wp_step. split; [done|].
      rewrite Hs2, Hs1, <- Hw. done. }
  assert (∀ s1, s1 = set_world (fun _ => world s1) s →
            record_call searching_message (world s1) = search_world s →
            by_serial s = None →
            wp (search None)
               (fun r s' =>
                  r = by_serial s ∪ by_search s
                  ∧ match by_serial s, by_search s with
                    | Some _, _ => only_world s s'
                    | None, Some m =>
                        s' = set_world (fun _ => world s')
                                       (set_beetle (MSerial m) s)
                    | None, None =>
                        s' = set_world (record_call none_found_message)
                                       (set_world (fun _ => search_world s) s)
                    end) s1) as Hnone.
  { intros s1 Hs1 Hw Hserial. eapply wp_mono; [by apply Hsearch|].
    intros r s' [-> Hs']. rewrite Hserial. split; [|done].
    by destruct (by_search s). }
  clear Hsearch. unfold by_serial, search_world in *.
  destruct (beetle s =? 0) eqn:Hb; simpl.
  - wp_step. wp_step. apply Hnone; [by destruct s|done..].
  - wp_step. wp_step. wp_step. simpl. wp_step. wp_step. simpl.
    fold looking_message in *.
    destruct (Mobiles_FindBySerial h (beetle s)
                (record_call looking_message (world s))) as [m|] eqn:Hm.
    + wp_step. wp_step. simpl.
      destruct (Player_DistanceTo h m (record_call looking_message (world s))
                <? 15) eqn:Hnear.
      * wp_step. wp_step. simpl. wp_step. unfold search. wp_step.
        split; [by destruct (by_search s)|]. by destruct s.
      * wp_step. wp_step. simpl. wp_step. apply Hnone; [by destruct s|done..].
    + wp_step. apply Hnone; [by destruct s|done..].
Qed.

End Beetle.

Section Transfer.
Context (h : Host).

(** A call [TransferItemsToBeetle] may make for [bm] from [s]: a message,
    a pause, or the move of a whole resource item of the backpack into
    the pack found on the beetle. *)
Definition transfer_call (bm : Mobile) (s : State) (c : Call) : Prop :=
  match c with
  | Misc_SendMessage _ _ | Misc_Pause _ => True
  | Items_Move sn dest amount =>
      amount = 0
      ∧ (∃ pack, find_beetle_pack h bm s = Ret (Some pack) s ∧ dest = Serial pack)
      ∧ (∃ item, item ∈ Player_Backpack_Contains h
                           (record_call transfer_message (world s))
                 ∧ is_resource item = true ∧ sn = Serial item)
  | _ => False
  end.

Lemma find_beetle_pack_observes bm s :
  ∃ r, find_beetle_pack h bm s = Ret r s.
Proof.
  unfold find_beetle_pack. destruct (Backpack bm); [by eexists|].
  destruct (from_option _ _ _); [by eexists|]. by eexists.
Qed.

Lemma TransferItemsToBeetle_footprint bm s :
  wp (TransferItemsToBeetle h (Some bm))
     (fun _ s' => extends (transfer_call bm s) (trace (world s))
                          (trace (world s'))) s.
Proof.
  unfold TransferItemsToBeetle.
  destruct (find_beetle_pack_observes bm s) as [[pack|] Hpack].
  2: { wp_step. eapply wp_intro; [exact Hpack|]. simpl. wp_steps.
       extends_solve. }
  wp_step. eapply wp_intro; [exact Hpack|]. simpl.
  wp_step. wp_step. simpl. wp_step. wp_step. simpl.
  set (w1 := record_call _ (world s)).
  assert (extends (transfer_call bm s) (trace (world s)) (trace w1)) as Hw1
    by extends_solve.
  destruct (List.filter is_resource (Player_Backpack_Contains h w1))
    as [|item0 items] eqn:Hitems.
  { wp_steps. extends_solve. }
  rewrite <- Hitems. wp_step.
  eapply wp_mono.
  - apply (wp_for_loop _ _
             (fun _ s' => extends (transfer_call bm s) (trace (world s))
                                  (trace (world s')))); [|done].
    intros item n s1 Hin Hs1.
    apply list_elem_of_In, filter_In in Hin as [Hin Hres].
    apply list_elem_of_In in Hin.
    assert (transfer_call bm s (Items_Move (Serial item) (Serial pack) 0))
      as Hmove by (simpl; eauto 10).
    wp_steps; extends_solve.
  - intros n s1 Hs1. wp_steps; extends_solve.
Qed.

(** X10. [TransferItemsToBeetle] returns, and all it does on the way is
    send messages, pause, and move resource items (ore, ingots and the
    other listed IDs) that the backpack held into the pack it found on
    the beetle: nothing else is moved, and nothing is moved anywhere
    else. *)
Theorem TransferItemsToBeetle_moves_resources_only (bm : Mobile) (s : State) :
  ∃ b s' new,
    TransferItemsToBeetle h (Some bm) s = Ret b s'
    ∧ trace (world s') = new ++ trace (world s)
    ∧ Forall (transfer_call bm s) new.
Proof.
  destruct (wp_elim _ _ _ (TransferItemsToBeetle_footprint bm s))
    as (b & s' & Hret & Hext).
  apply extends_app in Hext as (new & Hnew & Hall). eauto 10.
Qed.

End Transfer.

(** At most [k] paths have been asked for on the way from the trace [T]. *)
Definition paths_within (k : nat) (T T' : list Call) : Prop :=
  ∃ new, T' = new ++ T ∧ (List.length (List.filter is_go new) ≤ k)%nat.

Lemma paths_within_refl k T : paths_within k T T.
Proof. exists []. simpl. split; [done|lia]. Qed.

Lemma paths_within_go k T T' route :
  paths_within k T T' → paths_within (S k) T (PathFinding_Go route :: T').
Proof.
  intros (new & -> & Hk). exists (PathFinding_Go route :: new).
  split; [done|]. simpl. lia.
Qed.

Lemma paths_within_other k T T' c :
  is_go c = false → paths_within k T T' → paths_within k T (c :: T').
Proof.
  intros Hc (new & -> & Hk). exists (c :: new).
  split; [done|]. simpl. by rewrite Hc.
Qed.

Lemma paths_within_trans k k' T T' T'' :
  paths_within k T T' → paths_within k' T' T'' → paths_within (k + k') T T''.
Proof.
  intros (new & -> & Hk) (new' & -> & Hk'). exists (new' ++ new).
  split; [by rewrite app_assoc|].
  rewrite List.filter_app, length_app. lia.
Qed.

Lemma paths_within_le k k' T T' :
  (k ≤ k')%nat → paths_within k T T' → paths_within k' T T'.
Proof. intros Hle (new & -> & Hk). exists new. split; [done|lia]. Qed.

(** No path is asked for. *)
Definition no_path (c : Call) : Prop := is_go c = false.

Lemma paths_within_extends k T T' T'' :
  paths_within k T T' → extends no_path T' T'' → paths_within k T T''.
Proof.
  intros Hk. induction 1; [done|]. by apply paths_within_other.
Qed.

Ltac paths_solve :=
  simpl in *;
  repeat first
    [ eassumption
    | apply paths_within_refl
    | apply paths_within_other; [reflexivity|]
    | apply paths_within_go ];
  try (eapply paths_within_le; [|first [eassumption | apply paths_within_refl]]; lia).

#[local] Arguments TransferItemsToBeetle : simpl never.

Section Offload.
Context (h : Host).

(** A path asked for on the way to the beetle [bm]: to its tile or to
    one of the eight around it, with the settings of lines 649-650. *)
Definition toward (bm : Mobile) (c : Call) : Prop :=
  match c with
  | PathFinding_Go route =>
      ∃ r, route = Some r ∧ MaxRetry r = 2 ∧ StopIfStuck r = true
           ∧ Z.abs (RX r - X (MPosition bm)) ≤ 1
           ∧ Z.abs (RY r - Y (MPosition bm)) ≤ 1
  | _ => True
  end.

Lemma no_path_toward bm c : no_path c → toward bm c.
Proof. by destruct c. Qed.

Lemma transfer_call_no_path bm s c : transfer_call h bm s c → no_path c.
Proof. by destruct c. Qed.

Lemma GetBeetle_footprint s :
  wp (GetBeetle h)
     (fun _ s' => extends no_path (trace (world s)) (trace (world s'))) s.
Proof.
  unfold GetBeetle.
  set (I := fun s' : State => extends no_path (trace (world s)) (trace (world s'))).
  assert (∀ mobiles found s1, I s1 →
            wp (for_loop mobiles (fun mobile (_ : option Mobile) =>
                  distance <- observe (Player_DistanceTo h mobile) ;;
                  if is_pack_animal mobile && (distance <? 15) then
                    old_serial <- gets beetle ;;
                    modify (set_beetle (MSerial mobile)) ;;
                    SendMessage "Found pack animal: {name} (0x{beetle:X}) at {distance} tiles" 66 ;;
                    (if negb (old_serial =? MSerial mobile) then
                       SendMessage "Updated beetle serial to: 0x{beetle:X}" 66
                     else ret tt) ;;
                    ret (Break (Some mobile))
                  else ret (Continue None)) found)
               (fun _ => I) s1) as Hloop.
  { intros mobiles found s1 Hs1.
    apply (wp_for_loop _ _ (fun _ => I)); [|done].
    intros mobile f s2 _ Hs2. unfold I in *. wp_steps; extends_solve. }
  unfold I in *.
  repeat first
    [ wp_step; simpl
    | eapply wp_mono; [apply Hloop; extends_solve | intros ? ? ?] ].
  all: extends_solve.
Qed.

Lemma call_beetle_over_footprint bm s :
  wp (call_beetle_over h bm)
     (fun _ s' => extends no_path (trace (world s)) (trace (world s'))) s.
Proof.
  assert (∀ s1, extends no_path (trace (world s)) (trace (world s1)) →
            wp (TransferItemsToBeetle h (Some bm))
               (fun _ s' => extends no_path (trace (world s)) (trace (world s')))
               s1) as Htransfer.
  { intros s1 Hs1. eapply wp_mono; [apply TransferItemsToBeetle_footprint|].
    intros b s2 Hs2. eapply extends_trans; [exact Hs1|].
    eapply extends_mono; [|exact Hs2]. apply transfer_call_no_path. }
  unfold call_beetle_over.
  repeat first
    [ wp_step; simpl
    | eapply wp_mono; [apply Htransfer; extends_solve | intros ? ? ?] ].
  all: extends_solve.
Qed.

Lemma walk_to_beetle_footprint bm s :
  wp (walk_to_beetle h bm)
     (fun _ s' => paths_within 9 (trace (world s)) (trace (world s'))
                  ∧ extends (toward bm) (trace (world s)) (trace (world s'))) s.
Proof.
  unfold walk_to_beetle. wp_steps.
  all: split; [paths_solve|].
  all: extends_by ltac:(first [done | simpl; eexists; split; [reflexivity|];
                                      simpl; lia]).
Qed.

(** The calls made since [T] are steps toward [bm], at most [k] of them
    requests for a path. *)
Definition offloading (k : nat) (bm : Mobile) (T : list Call) (s' : State) : Prop :=
  paths_within k T (trace (world s')) ∧ extends (toward bm) T (trace (world s')).

Lemma offloading_no_path k bm T s1 s2 :
  offloading k bm T s1 →
  extends no_path (trace (world s1)) (trace (world s2)) →
  offloading k bm T s2.
Proof.
  intros [Hk Ht] Hext. split.
  - by eapply paths_within_extends.
  - eapply extends_trans; [exact Ht|].
    eapply extends_mono; [|exact Hext]. apply no_path_toward.
Qed.

Lemma TransferItemsToBeetle_offloading k bm T s1 :
  offloading k bm T s1 →
  wp (TransferItemsToBeetle h (Some bm)) (fun _ => offloading k bm T) s1.
Proof.
  intros Hs1. eapply wp_mono; [apply TransferItemsToBeetle_footprint|].
  intros b s2 Hs2. eapply offloading_no_path; [exact Hs1|].
  eapply extends_mono; [|exact Hs2]. apply transfer_call_no_path.
Qed.

Definition beetle_attempt : Call :=
  Misc_SendMessage "Attempting to find beetle..." (Some 66).

(** X11. [MoveToBeetle] returns, whatever the host answers: it does not
    wait for the beetle beyond its five rounds, and it asks for at most
    nine paths, the direct one and the eight offsets, each of them to the
    tile of the beetle [GetBeetle] found or to one of the eight tiles
    around it, with [MaxRetry] 2 and [StopIfStuck] set.  When [GetBeetle]
    finds no beetle it asks for no path and answers [False]. *)
Theorem MoveToBeetle_returns (s : State) :
  ∃ r s1 b s' new,
    GetBeetle h (set_world (record_call beetle_attempt) s) = Ret r s1
    ∧ MoveToBeetle h s = Ret b s'
    ∧ trace (world s') = new ++ trace (world s)
    ∧ (List.length (List.filter is_go new) ≤ 9)%nat
    ∧ match r with
      | Some bm => Forall (toward bm) new
      | None => Forall no_path new ∧ b = false
      end.
Proof.
  set (s0 := set_world (record_call beetle_attempt) s).
  destruct (wp_elim _ _ _ (GetBeetle_footprint s0)) as (r & s1 & Hget & Hs1).
  exists r, s1.
  assert (extends no_path (trace (world s)) (trace (world s1))) as Hs1'.
  { eapply extends_trans; [|exact Hs1]. unfold s0. extends_solve. }
  clear Hs1.
  assert (wp (MoveToBeetle h)
            (fun b s' =>
               match r with
               | Some bm => offloading 9 bm (trace (world s)) s'
               | None => extends no_path (trace (world s)) (trace (world s'))
                         ∧ b = false
               end) s) as Hwp.
  { unfold MoveToBeetle. wp_step. wp_step. simpl. wp_step.
    eapply wp_intro; [exact Hget|]. simpl.
    destruct r as [bm|]; [|wp_steps; split; [extends_solve|done]].
    assert (offloading 0 bm (trace (world s)) s1) as Hoff.
    { eapply offloading_no_path; [|exact Hs1'].
      split; [apply paths_within_refl | apply extends_refl]. }
    assert (∀ k s2, offloading k bm (trace (world s)) s2 → (k ≤ 9)%nat →
              offloading 9 bm (trace (world s)) s2) as Hle.
    { intros k s2 [Hk Ht] ?. split; [by eapply paths_within_le | done]. }
    assert (∀ k s2, offloading k bm (trace (world s)) s2 → (k ≤ 9)%nat →
              wp (TransferItemsToBeetle h (Some bm))
                 (fun _ => offloading 9 bm (trace (world s))) s2) as Htransfer.
    { intros k s2 Hs2 Hk. apply TransferItemsToBeetle_offloading.
      by eapply Hle. }
    assert (∀ c s2, offloading 0 bm (trace (world s)) s2 → no_path c →
              offloading 0 bm (trace (world s)) (set_world (record_call c) s2))
      as Hcall.
    { intros c s2 Hs2 Hc. eapply offloading_no_path; [exact Hs2|].
      simpl. apply extends_cons; [done | apply extends_refl]. }
    wp_step. wp_step. simpl. wp_step. wp_step. simpl.
    destruct (_ <=? 2).
    { wp_step. wp_step. simpl. apply (Htransfer 0%nat); [|lia].
      repeat (apply Hcall; [|done]). done. }
    match goal with |- wp _ _ ?st => set (s2 := st) end.
    assert (offloading 0 bm (trace (world s)) s2) as Hs2
      by (unfold s2; repeat (apply Hcall; [|done]); done).
    wp_step. unfold CanMove. wp_step. wp_step. wp_step. wp_step.
    wp_step. wp_step. simpl.
    assert (∀ s3, offloading 0 bm (trace (world s)) s3 →
              wp (current_distance <- observe (Player_DistanceTo h bm) ;;
                  arrived <- (if 2 <? current_distance then walk_to_beetle h bm
                              else ret true) ;;
                  if arrived : bool then
                    final_distance <- observe (Player_DistanceTo h bm) ;;
                    if final_distance <=? 2 then
                      SendMessage "In range ({final_distance} tiles), transferring items..." 66 ;;
                      TransferItemsToBeetle h (Some bm)
                    else
                      SendMessage "ERROR: Still too far from beetle! Distance: {final_distance} tiles" 33 ;;
                      ret false
                  else ret false)
                 (fun _ => offloading 9 bm (trace (world s))) s3) as Hwalk.
    { intros s3 Hs3. wp_step. wp_step. simpl. wp_step.
      assert (wp (if 2 <? Player_DistanceTo h bm (world s3)
                  then walk_to_beetle h bm else ret true)
                (fun _ => offloading 9 bm (trace (world s))) s3) as Harr.
      { destruct (2 <? _); [|wp_step; by apply (Hle 0%nat); [|lia]].
        eapply wp_mono; [apply walk_to_beetle_footprint|].
        intros b s4 [Hk Ht]. destruct Hs3 as [Hk3 Ht3]. split.
        - by apply (paths_within_trans 0 9 _ _ _ Hk3).
        - by eapply extends_trans. }
      eapply wp_mono; [exact Harr|]. intros [] s4 Hs4; simpl; [|by wp_step].
      wp_step. wp_step. simpl. destruct (_ <=? 2).
      - wp_step. wp_step. simpl. apply (Htransfer 9%nat); [|lia].
        eapply offloading_no_path; [exact Hs4|]. extends_solve.
      - wp_steps. eapply offloading_no_path; [exact Hs4|]. extends_solve. }
    destruct (negb _).
    - eapply wp_mono; [apply call_beetle_over_footprint|].
      intros early s3 Hs3.
      assert (offloading 0 bm (trace (world s)) s3) as Hs3'
        by by eapply offloading_no_path.
      destruct early as [b|]; [wp_step; by apply (Hle 0%nat); [|lia]|].
      by apply Hwalk.
    - wp_step. by apply Hwalk. }
  apply wp_elim in Hwp as (b & s' & Hret & Hpost). exists b, s'.
  destruct r as [bm|].
  - destruct Hpost as [(new & Hnew & Hk) Ht].
    apply extends_app in Ht as (new' & Hnew' & Hall).
    rewrite Hnew in Hnew'. apply app_inv_tail in Hnew' as ->. eauto 10.
  - destruct Hpost as [Hext ->].
    apply extends_app in Hext as (new & Hnew & Hall).
    exists new. split; [done|]. split; [done|]. split; [done|]. split; [|done].
    assert (List.filter is_go new = []) as ->; [|simpl; lia].
    clear Hnew. induction Hall as [|c new Hc _ IH]; [done|].
    simpl. unfold no_path in Hc. by rewrite Hc.
Qed.

End Offload.

(** ** Hostile presence *)

Lemma pc_for_each_in {A} (xs : list A) (body : A → M unit) (I : State → Prop)
    E s :
  (∀ a s, a ∈ xs → I s → pc (body a) (fun _ => I) E s) →
  I s → pc (for_each xs body) (fun _ => I) E s.
Proof.
  unfold for_each. revert s. induction xs as [|a xs IH]; intros s Hbody HI; simpl.
  - by apply pc_ret.
  - apply pc_bind, pc_bind. eapply pc_mono; [apply Hbody; [left|done]| |done].
    intros u s1 Hs1. apply pc_ret. simpl.
    apply IH; [|done]. intros. apply Hbody; [by right|done].
Qed.

Section Fight.
Context (h : Host).

(** A call [CheckEnemy] may make: the launch of the fight script, a
    pause, a request for a path, or the move of a whole resource item
    out of a corpse into the backpack. *)
Definition fight_call (c : Call) : Prop :=
  match c with
  | Misc_ScriptRun name => name = autoFightMacroName
  | Misc_Pause _ | PathFinding_Go _ => True
  | Items_Move sn dest amount =>
      amount = 0
      ∧ (∃ w, dest = Player_Backpack_Serial h w)
      ∧ (∃ w corpse item,
           corpse ∈ Items_ApplyFilter_corpses h w
           ∧ item ∈ default [] (Contains corpse)
           ∧ is_resource item = true ∧ sn = Serial item)
  | _ => False
  end.

(** X12. With an enemy in sight [CheckEnemy] launches the fight script
    first, and when it returns its last call resumes the path held in
    [oreSpotCoords].  Between the two it has only launched the fight
    script, paused, asked for paths, and moved resource items out of the
    corpses the host listed into the backpack; no variable of the script
    has changed. *)
Theorem CheckEnemy_fights_then_resumes (fuel : nat) (s : State) (e : Mobile)
    (s' : State) :
  Target_GetTargetFromList h "enemywar" (world s) = Some e →
  CheckEnemy h fuel s = Ret tt s' →
  only_world s s'
  ∧ ∃ new, trace (world s')
           = PathFinding_Go (oreSpotCoords s) :: new
             ++ Misc_ScriptRun autoFightMacroName :: trace (world s)
           ∧ Forall fight_call new.
Proof.
  intros Henemy Hret.
  set (T := Misc_ScriptRun autoFightMacroName :: trace (world s)).
  set (I := fun s1 : State => only_world s s1 ∧ extends fight_call T (trace (world s1))).
  assert (pc (CheckEnemy h fuel)
            (fun _ s' => only_world s s'
                         ∧ ∃ s1, I s1
                                 ∧ trace (world s')
                                   = PathFinding_Go (oreSpotCoords s) :: trace (world s1))
            (fun _ _ => True) s) as Hpc.
  { unfold CheckEnemy. pc_step. pc_step. simpl. rewrite Henemy.
    pc_step. pc_step. simpl.
    assert (∀ s1 c, I s1 → fight_call c → I (set_world (record_call c) s1))
      as Hcall.
    { intros s1 c [Hw Ht] Hc. split; [by apply only_world_set|].
      simpl. by apply extends_cons. }
    assert (∀ s1 ms, I s1 → I (set_world (fun w => advance ms (record_call (Misc_Pause ms) w)) s1))
      as Hpause.
    { intros s1 ms [Hw Ht]. split; [by apply only_world_set|].
      simpl. by apply extends_cons. }
    assert (∀ s1 name ms,
              I s1 → I (set_world (fun w => mkWorld (clock w)
                                      (<[name := clock w + ms]> (timers w))
                                      (trace w)) s1)) as Htimer.
    { intros s1 name ms [Hw Ht]. split; [by apply only_world_set | done]. }
    pc_step. eapply pc_mono with (E := fun _ _ => True); [| |done].
    - apply (pc_while_loop _ _ (fun _ => I) (fun _ => I)).
      + intros en s1 Hs1. pc_step. destruct (bool_decide _); [|done].
        unfold Timer_Create, Timer_Check.
        pc_steps; unfold I in *.
        all: repeat first [ eassumption | apply Hcall; [|done]
                          | apply Hpause | apply Htimer ].
      + unfold I, T. split; [frame_solve|]. simpl. apply extends_refl.
    - intros en s1 Hs1. pc_step. pc_step. simpl. pc_step. pc_step. simpl.
      pc_step. eapply pc_mono with (E := fun _ _ => True); [| |done].
      + apply (pc_for_each_in _ _ I).
        * intros corpse s2 Hcorpse Hs2.
          apply (pc_for_each_in _ _ I); [|done].
          intros item s3 Hitem Hs3. destruct (is_resource item) eqn:Hres.
          -- pc_steps. apply Hpause, Hcall; [done|].
             simpl. split; [done|]. split; [by eexists|]. eauto 10.
          -- by pc_step.
        * by apply Hpause.
      + intros u s2 [Hw2 Ht2]. pc_step. pc_step. simpl. pc_step.
        split; [by apply only_world_set|].
        exists s2. split; [done|]. simpl. by rewrite Hw2. }
  eapply pc_ret_elim in Hpc; [|exact Hret].
  destruct Hpc as (Hw & s1 & [_ Hext] & Htrace). split; [done|].
  apply extends_app in Hext as (new & Hnew & Hall). exists new.
  by rewrite Htrace, Hnew.
Qed.

End Fight.

(** ** The properties at work *)

Import MiningHosts.

Lemma MineOnce_false_means_cooldown_witness :
  MineOnce_swing depleted_host 60 digging_state = Ret tt depleted_swung
  ∧ ∃ b s' sp rest,
      MineOnce depleted_host 60 digging_state = Ret b s'
      ∧ oreSpots depleted_swung = sp :: rest
      ∧ if b then timers (world s') = timers (world depleted_swung)
        else timers (world s')
             = <[coord_key (OreSpot.x sp) (OreSpot.y sp)
                 := clock (world depleted_swung) + oreCooldown]>
                 (timers (world depleted_swung))
             ∧ clock (world s') = clock (world depleted_swung)
             ∧ on_cooldown (world s') sp = true.
Proof.
  split; [vm_compute; reflexivity|].
  apply (MineOnce_false_means_cooldown depleted_host 60 digging_state depleted_swung).
  vm_compute; reflexivity.
Defined.

Lemma blockCount_in_range_witness :
  0 ≤ blockCount digging_state ≤ 3
  ∧ MineOnce blocked_host 60 digging_state
    = Ret true (set_blockCount 1 blocked_swung)
  ∧ 0 ≤ blockCount (set_blockCount 1 blocked_swung) ≤ 3.
Proof.
  split; [simpl; lia|]. split; [vm_compute; reflexivity|].
  apply (blockCount_in_range blocked_host 60 digging_state true
           (set_blockCount 1 blocked_swung)).
  - simpl; lia.
  - vm_compute; reflexivity.
Defined.

(** The visit of the nearest of three rocks leaves the other two, the
    nearer one first. *)
Lemma visit_nearest_removes_head_witness :
  let s' := returned (visit_nearest plain_host 60 three_rocks_state)
                     three_rocks_state in
  oreSpots three_rocks_state = rock :: [far_rock; west_rock]
  ∧ visit_nearest plain_host 60 three_rocks_state = Ret tt s'
  ∧ oreSpots s' = [west_rock; far_rock]
  ∧ oreSpots s'
    = sorted [far_rock; west_rock]
             (distance_key (Player_Position plain_host (world s')))
  ∧ oreSpots s' ≡ₚ [far_rock; west_rock]
  ∧ List.length (oreSpots s') = List.length [far_rock; west_rock].
Proof.
  intros s'. split; [reflexivity|]. split; [vm_compute; reflexivity|].
  split; [vm_compute; reflexivity|].
  apply (visit_nearest_removes_head plain_host 60 three_rocks_state s' rock
           [far_rock; west_rock]).
  - reflexivity.
  - vm_compute; reflexivity.
Defined.

Lemma first_approach_goes_beside_witness :
  let s' := returned (first_approach plain_host digging_state) digging_state in
  oreSpots digging_state = rock :: []
  ∧ first_approach plain_host digging_state = Ret false s'
  ∧ (∃ new, trace (world s') = new ++ trace (world digging_state)
       ∧ Forall (goes_beside rock) new
       ∧ (1 ≤ List.length (List.filter is_go new) ≤ 4)%nat)
  ∧ (∃ r, oreSpotCoords s' = Some r ∧ beside rock r)
  ∧ oreSpots s' = rock :: [].
Proof.
  intros s'. split; [reflexivity|]. split; [vm_compute; reflexivity|].
  apply (first_approach_goes_beside plain_host digging_state false s' rock []).
  - reflexivity.
  - vm_compute; reflexivity.
Defined.

Lemma MoveToOreSpot_returns_witness :
  peaceful treadmill_host ∧ has_spot far_state ∧ (351 ≤ 351)%nat
  ∧ ∃ s', MoveToOreSpot treadmill_host 351 far_state = Ret tt s'
          ∧ oreSpots s' = oreSpots far_state.
Proof.
  split; [split; intros; reflexivity|]. split; [discriminate|].
  split; [lia|].
  apply (MoveToOreSpot_returns treadmill_host 351 far_state).
  - split; intros; reflexivity.
  - discriminate.
  - lia.
Defined.

(** The agent never comes in range of the rock: [MoveToOreSpot] waits
    351 times a tenth of a second, asks for a path again and returns;
    one round less of fuel does not see it return. *)
Example MoveToOreSpot_gives_up :
  ∃ s', MoveToOreSpot treadmill_host 351 far_state = Ret tt s'
        ∧ List.length (List.filter (fun c => match c with
                                            | Misc_Pause 100 => true
                                            | _ => false
                                            end)
                                   (trace (world s'))) = 351%nat
        ∧ List.length (List.filter is_go (trace (world s'))) = 2%nat
        ∧ MoveToOreSpot treadmill_host 350 far_state = OutOfFuel.
Proof.
  eexists. split; [vm_compute; reflexivity|].
  split; [vm_compute; reflexivity|]. split; vm_compute; reflexivity.
Qed.

Lemma CheckEnemy_fights_then_resumes_witness :
  let s' := returned (CheckEnemy raided_host 5 digging_state) digging_state in
  Target_GetTargetFromList raided_host "enemywar" (world digging_state)
    = Some raider
  ∧ CheckEnemy raided_host 5 digging_state = Ret tt s'
  ∧ only_world digging_state s'
  ∧ ∃ new, trace (world s')
           = PathFinding_Go (oreSpotCoords digging_state) :: new
             ++ Misc_ScriptRun autoFightMacroName :: trace (world digging_state)
           ∧ Forall (fight_call raided_host) new.
Proof.
  intros s'. split; [reflexivity|]. split; [vm_compute; reflexivity|].
  apply (CheckEnemy_fights_then_resumes raided_host 5 digging_state raider s').
  - reflexivity.
  - vm_compute; reflexivity.
Defined.

(** The fight of [raided_host]: the script is launched twice, and of the
    corpse's content only the ore is taken. *)
Example CheckEnemy_loots_ore :
  ∃ s', CheckEnemy raided_host 5 digging_state = Ret tt s'
        ∧ List.filter (fun c => match c with
                                | Items_Move _ _ _ => true
                                | _ => false
                                end) (trace (world s'))
          = [Items_Move (Serial ore_item) 0x2001 0].
Proof. eexists. split; vm_compute; reflexivity. Qed.

End GatheringProps.

(** * Setting up: the auto-smelter, the tool, the scan *)

Module SetupProps.
Import Mining MiningSpec GatheringProps.
Local Open Scope py_scope.


(** ** The lists of the auto-smelter *)

(** The value [_normalize_smelter_lists] leaves in the attribute [attr]
    that held [v]. *)
Definition normalized_value (attr : string) (v : PyVal) : PyVal :=
  if needs_normalizing attr v then _to_int32_list v else v.

Lemma normalized_value_settled attr v :
  needs_normalizing attr (normalized_value attr v) = false.
Proof.
  unfold normalized_value. destruct (needs_normalizing attr v) eqn:Hn; [|done].
  unfold needs_normalizing in *. destruct v as [[|]| |]; simpl in *;
    by rewrite ?andb_false_r in *.
Qed.

Lemma filter_none {A} (P : A → Prop) `{!∀ x, Decision (P x)} (l : list A) :
  Forall (fun x => ¬ P x) l → filter P l = [].
Proof.
  induction 1 as [|x l Hx _ IH]; [done|]. by rewrite filter_cons_False.
Qed.

Lemma _normalize_smelter_lists_result (s : State) :
  ∃ s', _normalize_smelter_lists s = Ret tt s'
    ∧ (∀ attr, default ∅ (smelter s') !! attr
               = normalized_value attr <$> default ∅ (smelter s) !! attr)
    ∧ (∀ attr v, default ∅ (smelter s') !! attr = Some v →
                 needs_normalizing attr v = false)
    ∧ _normalize_smelter_lists s' = Ret tt s'
    ∧ (smelter s = None → s' = s).
Proof.
  assert (∀ attrs : gmap string PyVal,
            (∀ attr v, attrs !! attr = Some v → needs_normalizing attr v = false) →
            map_imap (fun attr current =>
                        Some (if needs_normalizing attr current
                              then _to_int32_list current else current)) attrs
            = attrs
            ∧ filter (fun kv : string * PyVal => needs_normalizing kv.1 kv.2 = true)
                     (map_to_list attrs) = []) as Hsettled.
  { intros attrs Hno. split.
    - apply map_eq. intros attr. rewrite map_lookup_imap.
      destruct (attrs !! attr) as [v|] eqn:Hv; [|done]. simpl.
      by rewrite (Hno _ _ Hv).
    - apply filter_none, Forall_forall. intros [attr v] Hin.
      apply elem_of_map_to_list in Hin. simpl. by rewrite (Hno _ _ Hin). }
  unfold _normalize_smelter_lists, bind, gets.
  destruct (smelter s) as [attrs|] eqn:Hsm.
  2: { exists s. rewrite Hsm. simpl. split; [done|].
       split; [intros; by rewrite lookup_empty|]. split; [|done].
       intros attr v. by rewrite lookup_empty. }
  set (attrs' := map_imap _ attrs).
  assert (∀ attr, attrs' !! attr = normalized_value attr <$> attrs !! attr)
    as Hlookup.
  { intros attr. unfold attrs'. rewrite map_lookup_imap.
    by destruct (attrs !! attr). }
  assert (∀ attr v, attrs' !! attr = Some v → needs_normalizing attr v = false)
    as Hno.
  { intros attr v. rewrite Hlookup.
    destruct (attrs !! attr) as [v0|]; [|done]. intros [= <-].
    apply normalized_value_settled. }
  destruct (Hsettled attrs' Hno) as [Himap Hfilter].
  cbn. destruct (filter _ (map_to_list attrs)); cbn.
  all: eexists; split; [reflexivity|]; cbn.
  all: split; [done|]; split; [done|]; split; [|done].
  all: rewrite Himap, Hfilter; by destruct s.
Qed.

(** X13. [_normalize_smelter_lists] returns.  It leaves every attribute
    of the module in place, turns the value of an attribute whose name
    is upper case and holds [_ID] into a [List[Int32]] of the same
    numbers when it is a non-empty list of ints, and leaves every other
    value as it is; after it no attribute is left to normalise, so that
    a second call changes nothing and sends no message.  While the name
    [smelter] is not bound it does nothing. *)
Theorem _normalize_smelter_lists_settles (s : State) :
  ∃ s', _normalize_smelter_lists s = Ret tt s'
    ∧ (∀ attr, default ∅ (smelter s') !! attr
               = normalized_value attr <$> default ∅ (smelter s) !! attr)
    ∧ (∀ attr v, default ∅ (smelter s') !! attr = Some v →
                 needs_normalizing attr v = false)
    ∧ _normalize_smelter_lists s' = Ret tt s'
    ∧ (smelter s = None → s' = s).
Proof. apply _normalize_smelter_lists_result. Qed.


(** ** The trigger of the auto-smelter *)

Definition is_helper_call (c : Call) : bool :=
  match c with
  | Smelter_invoked => true
  | _ => false
  end.

(** The number of calls of the helper among [new]. *)
Definition helper_calls (new : list Call) : nat :=
  List.length (List.filter is_helper_call new).

Section Trigger.
Context (h : Host).

(** What the helper answers at its first call from [s]. *)
Definition first_answer (s : State) : option (exc_class * string) :=
  smelter_run h (default ∅ (smelter s)) (record_call Smelter_invoked (world s)).

(** The first call asks for the retry of line 134. *)
Definition asks_retry (s : State) : bool :=
  match first_answer s with
  | Some (TypeError, msg) => str_contains "List[Int32]" msg
  | _ => false
  end.

Lemma _normalize_smelter_lists_says s :
  ∃ s', _normalize_smelter_lists s = Ret tt s'
    ∧ ∃ new, trace (world s') = new ++ trace (world s) ∧ helper_calls new = 0%nat.
Proof.
  unfold _normalize_smelter_lists, bind, gets.
  destruct (smelter s); [|exists s; split; [done|]; by exists []].
  cbn. destruct (filter _ _); cbn.
  - eexists. split; [done|]. by exists [].
  - eexists. split; [done|]. eexists. split; [trace_delta|done].
Qed.

Lemma _smelter_run_answer s :
  _smelter_run h s
  = match first_answer s with
    | None => Ret tt (set_world (record_call Smelter_invoked) s)
    | Some (c, msg) =>
        Raise (HelperError c msg) (set_world (record_call Smelter_invoked) s)
    end.
Proof.
  unfold _smelter_run, first_answer, bind, call, modify, gets, observe, gets.
  cbn. by destruct (smelter_run h _ _) as [[c msg]|].
Qed.

Lemma helper_calls_app new1 new2 :
  helper_calls (new1 ++ new2) = (helper_calls new1 + helper_calls new2)%nat.
Proof. unfold helper_calls. by rewrite List.filter_app, length_app. Qed.

(** X14. A trigger calls the helper not at all when the beetle is known
    and stands more than 18 tiles away, and the state is then as before;
    otherwise it calls it once, and a second time exactly when the first
    call raised a [TypeError] that names [List[Int32]].  Whether the
    trigger returns or lets an exception through, the helper has been
    called at most twice. *)
Theorem _wrapped_smelter_calls_helper (s : State) :
  ∃ s' new,
    ((∃ u, _wrapped_smelter h s = Ret u s')
     ∨ (∃ e, _wrapped_smelter h s = Raise e s'))
    ∧ trace (world s') = new ++ trace (world s)
    ∧ helper_calls new
      = (if beetle_far h s then 0 else if asks_retry s then 2 else 1)%nat
    ∧ (beetle_far h s = true → s' = s).
Proof.
  rewrite _wrapped_smelter_unfold. unfold asks_retry.
  destruct (beetle_far h s) eqn:Hfar.
  { exists s, []. split; [left; by exists tt|]. done. }
  unfold try_except. rewrite _smelter_run_answer.
  destruct (first_answer s) as [[c msg]|] eqn:Hfirst.
  2: { eexists _, [Smelter_invoked]. split; [left; by eexists|]. done. }
  destruct c.
  - destruct (str_contains "List[Int32]" msg) eqn:Hmsg.
    + unfold bind.
      destruct (_normalize_smelter_lists_says
                  (set_world (record_call Smelter_invoked) s))
        as (s2 & -> & new1 & Hnew1 & Hcount1).
      rewrite _smelter_run_answer.
      exists (set_world (record_call Smelter_invoked) s2),
             (Smelter_invoked :: new1 ++ [Smelter_invoked]).
      split; [destruct (first_answer s2) as [[c2 msg2]|]; eauto|].
      split; [simpl; rewrite Hnew1; simpl; by rewrite <- app_assoc|].
      split; [|done].
      change (Smelter_invoked :: new1 ++ [Smelter_invoked])
        with ([Smelter_invoked] ++ new1 ++ [Smelter_invoked]).
      rewrite !helper_calls_app, Hcount1. done.
    + eexists _, [_; Smelter_invoked]. split; [left; by eexists|]. done.
  - eexists _, [_; Smelter_invoked]. split; [left; by eexists|]. done.
  - eexists _, [Smelter_invoked]. split; [right; by eexists|]. done.
Qed.

(** X15. An exception of the first call of the helper that is an
    [Exception], a [TypeError] that does not name [List[Int32]]
    included, goes no further: the trigger reports it by a message and
    returns.  When the helper returns, so does the trigger, with no
    message; and when the retry after normalising the lists returns, the
    trigger returns without reporting the first [TypeError]. *)
Theorem _wrapped_smelter_absorbs_first_call (s : State) :
  beetle_far h s = false →
  match first_answer s with
  | None =>
      _wrapped_smelter h s = Ret tt (set_world (record_call Smelter_invoked) s)
  | Some (c, msg) =>
      if asks_retry s then
        ∀ s1, _normalize_smelter_lists (set_world (record_call Smelter_invoked) s)
              = Ret tt s1 →
              first_answer s1 = None →
              _wrapped_smelter h s
              = Ret tt (set_world (record_call Smelter_invoked) s1)
      else
        c ≠ BaseException →
        _wrapped_smelter h s
        = Ret tt (set_world (fun w => record_call error_message
                                        (record_call Smelter_invoked w)) s)
  end.
Proof.
  intros Hfar. rewrite _wrapped_smelter_unfold, Hfar. unfold asks_retry.
  unfold try_except. rewrite _smelter_run_answer.
  destruct (first_answer s) as [[c msg]|] eqn:Hfirst; [|done].
  destruct c; [|done..].
  destruct (str_contains "List[Int32]" msg); [|done].
  intros s1 Hnorm Hretry. unfold bind. rewrite Hnorm, _smelter_run_answer.
  by rewrite Hretry.
Qed.

End Trigger.

(** ** Linking the auto-smelter *)

Definition linked_message : Call :=
  Misc_SendMessage "Auto-smelter linked. Spill + beetle weight triggers active."
                   (Some 66).
Definition not_linked_message : Call :=
  Misc_SendMessage
    "auto_smelter.py not found or failed to import; auto-smelt disabled."
    (Some 33).

(** The attributes lines 113-121 assign. *)
Definition wired_attributes : list string :=
  ["BEETLE_SERIAL"; "DEBUG_MODE"; "ORE_SPILL_RADIUS"; "ORE_SPILL_MIN_COUNT";
   "SMELTER_COOLDOWN_MS"; "BEETLE_WEIGHT_TRIGGER"; "SMELT_BEETLE_MAX_WEIGHT"].

Section Link.
Context (h : Host).

(** X16. Lines 108-144 return, with their message as the last call.
    When both imports succeed the triggers are switched on, the
    attributes of lines 113-121 are set, and no ID list of the module is
    left to normalise.  When an import fails the triggers are switched
    off, and a trigger then does nothing at all: the state is the same
    after it. *)
Theorem link_smelter_switches_triggers (s : State) :
  ∃ s1, link_smelter h s = Ret tt s1
    ∧ match import_auto_smelter h with
      | Imported attrs =>
          smelter_linked s1 = true
          ∧ head (trace (world s1)) = Some linked_message
          ∧ (∀ attr, attr ∈ wired_attributes →
                     is_Some (default ∅ (smelter s1) !! attr))
          ∧ (∀ attr v, default ∅ (smelter s1) !! attr = Some v →
                       needs_normalizing attr v = false)
      | _ =>
          smelter_linked s1 = false
          ∧ head (trace (world s1)) = Some not_linked_message
          ∧ smelt_trigger h s1 = Ret tt s1
      end.
Proof.
  unfold link_smelter. simpl.
  destruct (import_auto_smelter h) as [|attrs|attrs] eqn:Himport.
  - eexists. split; [reflexivity|]. done.
  - eexists. split; [reflexivity|]. done.
  - unfold bind at 1. unfold modify at 1.
    match goal with |- context [bind _ _ ?st] => set (s0 := st) end.
    destruct (_normalize_smelter_lists_result s0)
      as (s1 & Hnorm & Hlookup & Hsettled & _).
    unfold bind at 1. rewrite Hnorm. cbn.
    eexists. split; [reflexivity|]. cbn.
    split; [done|]. split; [done|]. split; [|done].
    intros attr Hattr. rewrite Hlookup. unfold s0. simpl.
    apply fmap_is_Some. unfold wired_attributes in Hattr.
    assert (∀ a : string, is_Some (
              (<["SMELT_BEETLE_MAX_WEIGHT" := PyOther]>
              (<["BEETLE_WEIGHT_TRIGGER" := PyOther]>
              (<["SMELTER_COOLDOWN_MS" := PyOther]>
              (<["ORE_SPILL_MIN_COUNT" := PyOther]>
              (<["ORE_SPILL_RADIUS" := PyOther]>
              (<["DEBUG_MODE" := PyOther]>
              (<["BEETLE_SERIAL" := PyOther]> attrs))))))) !! a)
            ∨ a ∉ wired_attributes) as Hwired.
    { intros a. repeat (rewrite lookup_insert; case_decide; [by left; eexists|]).
      right. unfold wired_attributes. rewrite !not_elem_of_cons.
      repeat split; try done. apply not_elem_of_nil. }
    by destruct (Hwired attr).
Qed.

End Link.

(** ** The mining tool *)

Section Tool.
Context (h : Host).

(** The item is a mining tool by its ID. *)
Definition is_tool (it : Item) : bool := py_in (ItemID it) miningToolIDs.

(** The mining tool [FindPickaxe] settles on in the world [w], if any:
    the one in the left hand, else the one in the right hand, else the
    first one of the backpack, else the pickaxe [Items.FindByID] gives. *)
Definition tool_at_hand (w : World) : option Item :=
  match Player_GetItemOnLayer h "LeftHand" w with
  | Some it => if is_tool it then Some it else None
  | None => None
  end
  ∪ match Player_GetItemOnLayer h "RightHand" w with
    | Some it => if is_tool it then Some it else None
    | None => None
    end
  ∪ List.find is_tool (Player_Backpack_Contains h w)
  ∪ Items_FindByID h 0x0E85 (-1) (Player_Backpack_Serial h w) (Some 1) w.

Definition no_pickaxe_message : Call :=
  Misc_SendMessage "ERROR: No pickaxe found in backpack!" (Some 33).

Lemma FindPickaxe_result (s : State) :
  ∃ s', FindPickaxe h s = Ret (Serial <$> tool_at_hand (world s)) s'
    ∧ only_world s s'
    ∧ (tool_at_hand (world s) = None →
       world s' = record_call no_pickaxe_message (world s)).
Proof.
  unfold FindPickaxe, tool_at_hand, is_tool, bind, observe, gets.
  destruct (Player_GetItemOnLayer h "LeftHand" (world s)) as [lh|];
    [destruct (py_in (ItemID lh) miningToolIDs)|].
  all: try (destruct (Player_GetItemOnLayer h "RightHand" (world s)) as [rh|];
            [destruct (py_in (ItemID rh) miningToolIDs)|]).
  all: try destruct (List.find _ (Player_Backpack_Contains h (world s))).
  all: try destruct (Items_FindByID h _ _ _ _ (world s)).
  all: cbn; eexists; split; [reflexivity|]; split; [frame_solve|done].
Qed.

(** X17. [FindPickaxe] looks at the world as it is when it is called, and
    answers the serial of the tool found there, looking in the left
    hand, the right hand, the backpack and by [Items.FindByID] in this
    order.  It answers [None] exactly when none of the four holds a
    tool, and then all it has done is send its error message. *)
Theorem FindPickaxe_finds_tool_at_hand (s : State) :
  ∃ s', FindPickaxe h s = Ret (Serial <$> tool_at_hand (world s)) s'
    ∧ only_world s s'
    ∧ (tool_at_hand (world s) = None →
       world s' = record_call no_pickaxe_message (world s)).
Proof. apply FindPickaxe_result. Qed.


(** An item of the serial is held in a hand (the test of lines 333-334
    and 338-339). *)
Definition held (serial : Z) (w : World) : bool :=
  match Player_GetItemOnLayer h "LeftHand" w with
  | Some it => Serial it =? serial
  | None => false
  end
  || match Player_GetItemOnLayer h "RightHand" w with
     | Some it => Serial it =? serial
     | None => false
     end.

Definition equipped_message : Call :=
  Misc_SendMessage "--> Pickaxe equipped successfully" (Some 66).
Definition not_equipped_message : Call :=
  Misc_SendMessage "--> Failed to equip pickaxe" (Some 33).

Lemma in_hand_held serial s : in_hand h serial s = Ret (held serial (world s)) s.
Proof. done. Qed.

(** X18. [EquipPickaxe] returns and assigns no variable of the script.
    The serial it answers is not zero and is the serial of an item the
    host showed in a hand, at the time [EquipPickaxe] returns or just
    before its message of success; when it answers [None] its last call
    is the pause after the head message, or the message that the tool
    could not be equipped. *)
Theorem EquipPickaxe_answers_held_tool (s : State) :
  ∃ r s', EquipPickaxe h s = Ret r s'
    ∧ only_world s s'
    ∧ match r with
      | Some serial =>
          serial ≠ 0
          ∧ (held serial (world s') = true
             ∨ ∃ w, held serial w = true
                    ∧ world s' = record_call equipped_message w)
      | None =>
          head (trace (world s')) = Some (Misc_Pause 800)
          ∨ head (trace (world s')) = Some not_equipped_message
      end.
Proof.
  unfold EquipPickaxe.
  destruct (FindPickaxe_result s) as (s1 & Hfind & Hw1 & _).
  unfold bind at 1. rewrite Hfind.
  destruct (Serial <$> tool_at_hand (world s)) as [serial|]; simpl.
  2: { eexists _, _. split; [reflexivity|]. split; [frame_solve|]. by left. }
  destruct (Z.eqb_spec serial 0) as [->|Hserial]; simpl.
  { eexists _, _. split; [reflexivity|]. split; [frame_solve|]. by left. }
  unfold bind at 1. rewrite in_hand_held.
  destruct (held serial (world s1)) eqn:Hheld.
  { eexists _, _.
    split; [reflexivity|]. split; [done|]. split; [done|]. by left. }
  cbv beta iota delta [bind call pause modify]. rewrite in_hand_held.
  match goal with |- context [held serial ?w] =>
    destruct (held serial w) eqn:Hheld' end.
  - eexists _, _.
    split; [reflexivity|]. split; [frame_solve|]. split; [done|].
    right. by eexists.
  - eexists _, _. split; [reflexivity|]. split; [frame_solve|]. by right.
Qed.

End Tool.

(** ** The keys of the cooldown timers *)

Fixpoint comma_free (s : string) : bool :=
  match s with
  | EmptyString => true
  | String c r => negb (Ascii.eqb c ",") && comma_free r
  end.

Lemma comma_free_pretty_N_go x s :
  comma_free s = true → comma_free (pretty_N_go x s) = true.
Proof.
  revert s. induction (N.lt_wf_0 x) as [x _ IH]; intros s Hs.
  assert (x = 0 ∨ 0 < x)%N as [->|?] by lia.
  - by rewrite pretty_N_go_0.
  - rewrite pretty_N_go_step by done. apply IH; [by apply N.div_lt|].
    simpl. rewrite Hs, andb_true_r.
    unfold pretty_N_char. by repeat case_match.
Qed.

Lemma comma_free_pretty_Z (z : Z) : comma_free (pretty z) = true.
Proof.
  assert (∀ p : positive, comma_free (pretty p) = true) as Hpos.
  { intros p. unfold pretty, pretty_positive, pretty, pretty_N.
    case_decide; [done|]. by apply comma_free_pretty_N_go. }
  destruct z as [|p|p]; [done|apply Hpos|].
  unfold pretty, pretty_Z. simpl. apply Hpos.
Qed.

Lemma comma_free_app_comma a b : comma_free (a +:+ "," +:+ b) = false.
Proof.
  induction a as [|c a IH]; [done|]. simpl. rewrite IH. apply andb_false_r.
Qed.

Lemma split_at_comma a b a' b' :
  comma_free a = true → comma_free a' = true →
  a +:+ "," +:+ b = a' +:+ "," +:+ b' → a = a' ∧ b = b'.
Proof.
  revert a'. induction a as [|c a IH]; intros [|c' a'] Ha Ha' Heq; simpl in *.
  - by injection Heq.
  - injection Heq as <- _. done.
  - injection Heq as -> _. done.
  - injection Heq as -> Heq.
    apply andb_true_iff in Ha as [_ Ha]. apply andb_true_iff in Ha' as [_ Ha'].
    destruct (IH a' Ha Ha' Heq) as [-> ->]. done.
Qed.

Lemma coord_key_inj x y x' y' :
  coord_key x y = coord_key x' y' → x = x' ∧ y = y'.
Proof.
  unfold coord_key. intros Heq.
  apply split_at_comma in Heq as [Hx Hy]; [|apply comma_free_pretty_Z..].
  split; by apply (inj pretty).
Qed.

(** X19. The key ['%i,%i' % (x, y)] of a cooldown timer names one cell
    only, and it is neither of the two timers ['mineTimer'] and ['Fight']
    the script also runs.  So giving up a location puts no other cell on
    cooldown and takes none off: [on_cooldown] of a candidate with other
    coordinates is as before. *)
Theorem cooldown_key_names_one_cell (x y x' y' : Z) :
  (coord_key x y = coord_key x' y' → x = x' ∧ y = y')
  ∧ coord_key x y ≠ "mineTimer" ∧ coord_key x y ≠ "Fight"
  ∧ (∀ msg sp sp' s,
       (OreSpot.x sp', OreSpot.y sp') ≠ (OreSpot.x sp, OreSpot.y sp) →
       on_cooldown (world (abandoned msg sp s)) sp' = on_cooldown (world s) sp').
Proof.
  split; [apply coord_key_inj|].
  assert (∀ name, comma_free name = true → coord_key x y ≠ name) as Hother.
  { intros name Hname Heq. rewrite <- Heq in Hname. unfold coord_key in Hname.
    by rewrite comma_free_app_comma in Hname. }
  split; [by apply Hother|]. split; [by apply Hother|].
  intros msg sp sp' s Hne. unfold on_cooldown, timer_active, abandoned. simpl.
  rewrite lookup_insert_ne; [done|].
  intros Heq. apply coord_key_inj in Heq as [Hx Hy]. apply Hne. by rewrite Hx, Hy.
Qed.


(** ** What the scan finds *)

Section Scan.
Context (h : Host).

(** The candidate a tile gives at a cell, if its ID is an ore static. *)
Definition tile_spot (cx cy : Z) (tile : TileInfo) : list OreSpot.t :=
  if py_in (StaticID tile) oreStaticIDs
  then [OreSpot.mk cx cy (StaticZ tile) (StaticID tile)] else [].

(** The candidates of a cell: none while its cooldown timer runs. *)
Definition cell_spots (w : World) (cx cy : Z) : list OreSpot.t :=
  if timer_active (coord_key cx cy) w then []
  else Statics_GetStaticsTileInfo h cx cy w ≫= tile_spot cx cy.

Lemma oreStaticIDs_NoDup : NoDup oreStaticIDs.
Proof. apply (bool_decide_unpack _). vm_compute. exact Logic.I. Qed.

Lemma set_oreSpots_app_nil s : set_oreSpots (oreSpots s ++ []) s = s.
Proof. rewrite app_nil_r. by destruct s. Qed.

Lemma set_oreSpots_twice l1 l2 s :
  set_oreSpots (oreSpots (set_oreSpots (oreSpots s ++ l1) s) ++ l2)
               (set_oreSpots (oreSpots s ++ l1) s)
  = set_oreSpots (oreSpots s ++ l1 ++ l2) s.
Proof. simpl. unfold set_oreSpots. simpl. by rewrite app_assoc. Qed.

Lemma for_each_cons {A} (a : A) xs (body : A → M unit) s :
  for_each (a :: xs) body s
  = match body a s with
    | Ret _ s' => for_each xs body s'
    | Raise e s' => Raise e s'
    | OutOfFuel => OutOfFuel
    end.
Proof. unfold for_each. simpl. unfold bind. by destruct (body a s). Qed.

(** Lines 215-216 for one tile and one ID. *)
Definition scan_id (cx cy : Z) (tile : TileInfo) (staticid : Z) : M unit :=
  if staticid =? StaticID tile then
    active <- Timer_Check (coord_key cx cy) ;;
    if negb active then
      l <- gets oreSpots ;;
      modify (set_oreSpots
                (l ++ [OreSpot.mk cx cy (StaticZ tile) (StaticID tile)]))
    else ret tt
  else ret tt.

Lemma scan_cell_unfold cx cy :
  scan_cell h cx cy
  = (staticsTileInfo <- observe (Statics_GetStaticsTileInfo h cx cy) ;;
     if 0 <? Z.of_nat (length staticsTileInfo) then
       for_each staticsTileInfo (fun tile =>
         for_each oreStaticIDs (scan_id cx cy tile))
     else ret tt).
Proof. done. Qed.

Lemma scan_id_step cx cy tile staticid s :
  scan_id cx cy tile staticid s
  = Ret tt (if (staticid =? StaticID tile)
               && negb (timer_active (coord_key cx cy) (world s))
            then set_oreSpots
                   (oreSpots s ++ [OreSpot.mk cx cy (StaticZ tile) (StaticID tile)]) s
            else s).
Proof.
  unfold scan_id. destruct (staticid =? StaticID tile); [|done].
  unfold bind, Timer_Check, observe, gets. simpl.
  by destruct (timer_active _ _).
Qed.

Lemma scan_ids cx cy tile ids s :
  NoDup ids →
  for_each ids (scan_id cx cy tile) s
  = Ret tt (set_oreSpots
              (oreSpots s ++
                 if timer_active (coord_key cx cy) (world s) then []
                 else if py_in (StaticID tile) ids
                      then [OreSpot.mk cx cy (StaticZ tile) (StaticID tile)]
                      else []) s).
Proof.
  unfold py_in. revert s. induction ids as [|a ids IH]; intros s Hnd.
  - unfold for_each. simpl. unfold ret. f_equal.
    destruct (timer_active _ _); by rewrite set_oreSpots_app_nil.
  - apply NoDup_cons in Hnd as [Ha Hnd].
    rewrite for_each_cons, scan_id_step.
    destruct (Z.eqb_spec a (StaticID tile)) as [->|Hne]; simpl.
    + destruct (timer_active (coord_key cx cy) (world s)) eqn:Hact; simpl.
      * by rewrite (IH s Hnd), Hact.
      * rewrite (IH _ Hnd). simpl. rewrite Hact.
        rewrite bool_decide_eq_false_2 by done.
        rewrite bool_decide_eq_true_2 by left.
        unfold set_oreSpots. simpl. by rewrite app_nil_r.
    + rewrite (IH s Hnd). do 3 f_equal.
      destruct (timer_active _ _); [done|].
      destruct (decide (StaticID tile ∈ ids)).
      * rewrite !bool_decide_eq_true_2; [done| by right |done].
      * rewrite !bool_decide_eq_false_2; [done| |done].
        rewrite not_elem_of_cons. split; [congruence|done].
Qed.

Lemma scan_tiles cx cy tiles s :
  for_each tiles (fun tile => for_each oreStaticIDs (scan_id cx cy tile)) s
  = Ret tt (set_oreSpots
              (oreSpots s ++
                 if timer_active (coord_key cx cy) (world s) then []
                 else tiles ≫= tile_spot cx cy) s).
Proof.
  revert s. induction tiles as [|tile tiles IH]; intros s.
  - unfold for_each. simpl. unfold ret. f_equal.
    destruct (timer_active _ _); by rewrite set_oreSpots_app_nil.
  - rewrite for_each_cons, (scan_ids cx cy tile oreStaticIDs s oreStaticIDs_NoDup).
    rewrite IH. simpl world.
    destruct (timer_active _ _).
    + simpl. by rewrite !app_nil_r.
    + rewrite set_oreSpots_twice. by rewrite bind_cons.
Qed.

Lemma scan_cell_spots cx cy s :
  scan_cell h cx cy s
  = Ret tt (set_oreSpots (oreSpots s ++ cell_spots (world s) cx cy) s).
Proof.
  rewrite scan_cell_unfold. unfold cell_spots, bind, observe, gets.
  destruct (Statics_GetStaticsTileInfo h cx cy (world s)) as [|tile tiles] eqn:Ht.
  - simpl. unfold ret. f_equal. destruct (timer_active _ _);
      by rewrite set_oreSpots_app_nil.
  - change (0 <? Z.of_nat (length (tile :: tiles))) with true. cbv iota.
    apply scan_tiles.
Qed.

Lemma while_loop_unfold {L} fuel (cond : L → M bool) (body : L → M (ctl L)) l s :
  while_loop (S fuel) cond body l s
  = match cond l s with
    | Ret true s1 =>
        match body l s1 with
        | Ret (Continue l') s2 => while_loop fuel cond body l' s2
        | Ret (Break l') s2 => Ret l' s2
        | Raise e s2 => Raise e s2
        | OutOfFuel => OutOfFuel
        end
    | Ret false s1 => Ret l s1
    | Raise e s1 => Raise e s1
    | OutOfFuel => OutOfFuel
    end.
Proof.
  simpl. unfold bind. destruct (cond l s) as [[] s1| |]; [|done..].
  by destruct (body l s1) as [[]| |].
Qed.

(** The inner loop of lines 210-217: the cells of a column, from [y] up. *)
Lemma scan_column maxY cx n : ∀ fuel y s,
  (n < fuel)%nat → y + Z.of_nat n = maxY + 1 →
  while_loop fuel (fun y => ret (y <=? maxY))
             (fun y => scan_cell h cx y ;; ret (Continue (y + 1))) y s
  = Ret (maxY + 1)
        (set_oreSpots
           (oreSpots s ++ (seqZ y (Z.of_nat n) ≫= cell_spots (world s) cx)) s).
Proof.
  induction n as [|n IH]; intros [|fuel] y s Hfuel Hy; try lia.
  - rewrite while_loop_unfold. unfold ret.
    rewrite (proj2 (Z.leb_gt y maxY)) by lia.
    simpl. rewrite set_oreSpots_app_nil. f_equal. lia.
  - rewrite while_loop_unfold. unfold ret at 1.
    rewrite (proj2 (Z.leb_le y maxY)) by lia.
    unfold bind. rewrite scan_cell_spots. unfold ret.
    rewrite (IH fuel (y + 1)) by lia. simpl world.
    rewrite set_oreSpots_twice.
    rewrite (seqZ_cons y (Z.of_nat (S n))) by lia. rewrite bind_cons.
    replace (Z.succ y) with (y + 1) by lia.
    replace (Z.pred (Z.of_nat (S n))) with (Z.of_nat n) by lia.
    done.
Qed.

(** The loops of lines 209-219: the columns from [cx] on. *)
Lemma scan_rows_spots minY maxX maxY m fuel n : ∀ cx s,
  (n < fuel)%nat → cx + Z.of_nat n = maxX + 1 →
  (m < fuel)%nat → minY + Z.of_nat m = maxY + 1 →
  scan_rows h fuel minY maxX maxY (cx, minY) s
  = Ret (maxX + 1, minY)
        (set_oreSpots
           (oreSpots s ++
              (seqZ cx (Z.of_nat n) ≫= fun x =>
                 seqZ minY (Z.of_nat m) ≫= cell_spots (world s) x)) s).
Proof.
  unfold scan_rows. intros cx s Hfuel Hx Hm Hy.
  set (column := fun xy : Z * Z =>
         y' <- while_loop fuel (fun y => ret (y <=? maxY))
                 (fun y => scan_cell h xy.1 y ;; ret (Continue (y + 1))) xy.2 ;;
         ret (Continue (xy.1 + 1, minY))).
  assert (∀ k cx s,
            (n < k)%nat → cx + Z.of_nat n = maxX + 1 →
            while_loop k (fun xy : Z * Z => ret (xy.1 <=? maxX)) column
                       (cx, minY) s
            = Ret (maxX + 1, minY)
                  (set_oreSpots
                     (oreSpots s ++
                        (seqZ cx (Z.of_nat n) ≫= fun x =>
                           seqZ minY (Z.of_nat m) ≫= cell_spots (world s) x)) s))
    as Hloop; [|by apply Hloop].
  clear cx s Hfuel Hx.
  induction n as [|n IH]; intros [|k] cx s Hk Hx; try lia.
  - rewrite while_loop_unfold. unfold ret. simpl fst.
    rewrite (proj2 (Z.leb_gt cx maxX)) by lia.
    simpl. rewrite set_oreSpots_app_nil. do 2 f_equal. lia.
  - rewrite while_loop_unfold. unfold ret at 1. simpl fst.
    rewrite (proj2 (Z.leb_le cx maxX)) by lia.
    unfold column at 1. unfold bind at 1. simpl fst. simpl snd.
    rewrite (scan_column maxY cx m fuel minY s Hm Hy). unfold ret.
    rewrite (IH k (cx + 1)) by lia. simpl world.
    rewrite set_oreSpots_twice.
    rewrite (seqZ_cons cx (Z.of_nat (S n))) by lia. rewrite bind_cons.
    replace (Z.succ cx) with (cx + 1) by lia.
    replace (Z.pred (Z.of_nat (S n))) with (Z.of_nat n) by lia.
    done.
Qed.


Lemma elem_of_cell_spots w cx cy sp :
  sp ∈ cell_spots w cx cy ↔
    OreSpot.x sp = cx ∧ OreSpot.y sp = cy
    ∧ mkTileInfo (OreSpot.id sp) (OreSpot.z sp)
        ∈ Statics_GetStaticsTileInfo h cx cy w
    ∧ OreSpot.id sp ∈ oreStaticIDs
    ∧ timer_active (coord_key cx cy) w = false.
Proof.
  unfold cell_spots, tile_spot, py_in.
  destruct (timer_active (coord_key cx cy) w).
  { split; [by intros ?%elem_of_nil | by intros (_ & _ & _ & _ & ?)]. }
  rewrite list_elem_of_bind. split.
  - intros (tile & Hsp & Htile). case_bool_decide; [|by apply elem_of_nil in Hsp].
    apply list_elem_of_singleton in Hsp as ->. simpl. by destruct tile.
  - intros (<- & <- & Htile & Hid & _). eexists. split; [|exact Htile].
    simpl. rewrite bool_decide_eq_true_2 by done.
    destruct sp. simpl. apply list_elem_of_singleton. done.
Qed.

Lemma ScanStatic_spots s :
  let w := record_call scan_started (world s) in
  let p := Player_Position h w in
  ScanStatic h s
  = Ret tt
      (set_world (record_call scan_total)
         (set_oreSpots
            (sorted
               (oreSpots s ++
                  (seqZ (X p - scanRadius) 61 ≫= fun x =>
                     seqZ (Y p - scanRadius) 61 ≫= cell_spots w x))
               (distance_key p))
            (set_world (record_call scan_started) s))).
Proof.
  intros w p. unfold ScanStatic.
  unfold bind at 1. unfold SendMessage at 1, call, modify.
  do 4 (unfold bind at 1; unfold observe at 1, gets).
  unfold bind at 1. simpl world. fold w. fold p.
  rewrite (scan_rows_spots (Y p - scanRadius) (X p + scanRadius)
             (Y p + scanRadius) 61 _ 61); unfold scanRadius;
    try (subst w p; unfold scan_started; simpl; lia).
  reflexivity.
Qed.

(** X20. [ScanStatic] returns, and the candidates it leaves are those
    it was entered with and, for each cell of the square of [scanRadius]
    around the agent, each static of the cell whose ID is an ore static,
    unless the cooldown timer of the cell is running: no other candidate
    is listed, and none of these is missing. *)
Theorem ScanStatic_finds_exactly (s : State) :
  let w := record_call scan_started (world s) in
  let p := Player_Position h w in
  ∃ s', ScanStatic h s = Ret tt s'
    ∧ world s' = record_call scan_total w
    ∧ ∀ sp, sp ∈ oreSpots s' ↔
        sp ∈ oreSpots s
        ∨ (X p - scanRadius ≤ OreSpot.x sp ≤ X p + scanRadius
           ∧ Y p - scanRadius ≤ OreSpot.y sp ≤ Y p + scanRadius
           ∧ mkTileInfo (OreSpot.id sp) (OreSpot.z sp)
               ∈ Statics_GetStaticsTileInfo h (OreSpot.x sp) (OreSpot.y sp) w
           ∧ OreSpot.id sp ∈ oreStaticIDs
           ∧ timer_active (coord_key (OreSpot.x sp) (OreSpot.y sp)) w = false).
Proof.
  intros w p. eexists. split; [apply ScanStatic_spots|]. split; [done|].
  intros sp. cbn [oreSpots set_world set_oreSpots].
  rewrite sorted_Permutation, elem_of_app. subst p w.
  apply or_iff_compat_l. rewrite list_elem_of_bind. unfold scanRadius. split.
  - intros (cx & Hsp & Hcx). apply list_elem_of_bind in Hsp as (cy & Hsp & Hcy).
    apply elem_of_cell_spots in Hsp as (<- & <- & Htile & Hid & Hact).
    apply elem_of_seqZ in Hcx, Hcy. unfold scanRadius in *.
    repeat split; (done || lia).
  - intros (Hx & Hy & Htile & Hid & Hact). exists (OreSpot.x sp). split.
    + apply list_elem_of_bind. exists (OreSpot.y sp). split.
      * by apply elem_of_cell_spots.
      * apply elem_of_seqZ. lia.
    + apply elem_of_seqZ. lia.
Qed.

End Scan.

(** ** The capacity of the beetle *)

Section Capacity.
Context (h : Host).

Definition no_pack_message : Call :=
  Misc_SendMessage "Could not find beetle pack!" (Some 33).

Lemma pack_weight_bounds pack :
  pack_weight pack ≤ 10000 ∧ (Weight pack = None → 0 ≤ pack_weight pack).
Proof.
  unfold pack_weight. split.
  - match goal with |- context [10000 <? ?t] =>
      destruct (Z.ltb_spec 10000 t); lia end.
  - intros ->.
    assert (∀ items total, 0 ≤ total →
              0 ≤ foldl (fun total it =>
                           let w := held_weight it in
                           if (0 <=? w) && (w <=? 200) then total + w else total)
                        total items) as Hfold.
    { induction items as [|it items IH]; intros total Htotal; simpl; [done|].
      apply IH. destruct (Z.leb_spec 0 (held_weight it)); simpl; [|done].
      destruct (held_weight it <=? 200); lia. }
    specialize (Hfold (default [] (Contains pack)) 0 ltac:(lia)).
    match goal with |- context [10000 <? ?t] =>
      destruct (10000 <? t); [lia | exact Hfold] end.
Qed.

(** X21. [BeetleHasCapacity] returns.  Without a pack on the beetle it
    answers [False] after its message.  With a pack, whose weight it takes
    to be at most 10000, it answers whether the requirement fits into what
    is left of 400 stones, except over a pack it takes to weigh more than
    400 and less than 500: there it allows a requirement of at most 10.
    For the default requirement of 10 it so answers [True] up to 390
    stones, [False] from 391 to 400, [True] again from 401 to 499, and
    [False] from 500 on. *)
Theorem BeetleHasCapacity_estimate (bm : Mobile) (required : Z) (s : State) :
  ∃ r b s',
    find_beetle_pack h bm s = Ret r s
    ∧ BeetleHasCapacity h bm required s = Ret b s'
    ∧ match r with
      | None => b = false ∧ world s' = record_call no_pack_message (world s)
      | Some pack =>
          pack_weight pack ≤ 10000
          ∧ (b = true ↔
               if (400 <? pack_weight pack) && (pack_weight pack <? 500)
               then required ≤ 10
               else required ≤ 400 - pack_weight pack)
          ∧ (required = 10 →
             (b = true ↔ pack_weight pack ≤ 390
                         ∨ 400 < pack_weight pack < 500))
      end.
Proof.
  destruct (find_beetle_pack_observes h bm s) as [r Hpack]. exists r.
  unfold BeetleHasCapacity, bind. rewrite Hpack.
  destruct r as [pack|]; [|by eexists _, _]. cbn.
  pose proof (pack_weight_bounds pack) as [Hmax _].
  destruct (Z.ltb_spec (400 - pack_weight pack) 0) as [Hneg|Hpos];
    destruct (Z.ltb_spec (-100) (400 - pack_weight pack)) as [Hband|Hout];
    cbn; eexists _, _; (split; [done|]); (split; [reflexivity|]);
    (split; [done|]).
  all: destruct (Z.ltb_spec 400 (pack_weight pack));
    destruct (Z.ltb_spec (pack_weight pack) 500); simpl; try lia.
  all: split; [rewrite Z.leb_le; lia|].
  all: intros ->; rewrite Z.leb_le; lia.
Qed.

End Capacity.

(** ** The travel cycle *)

Section Cycle.
Context (h : Host) (fuel : nat).

(** The loop of lines 784-798. *)
Definition visit_loop : M Z :=
  while_loop fuel
    (fun i : Z =>
       l <- gets oreSpots ;;
       ret (negb (bool_decide (l = [])) && (i <? Z.of_nat (length l))))
    (fun i => visit_nearest h fuel ;; ret (Continue i))
    0.

(** X22. The candidates do not pile up from one travel cycle to the
    next.  The loop of visits is left, when it returns, only with no
    candidate left, so that each candidate of the scan has been visited
    (line 799 then empties an empty list); a travel cycle that returns
    leaves no candidate; and a cycle entered with none enters its scan
    with none. *)
Theorem candidates_do_not_pile_up (s : State) :
  travel_cycle h fuel
  = (smelt_trigger h ;; RecallNextSpot h ;; ScanStatic h ;;
     visit_loop ;; modify (set_oreSpots []) ;; pause 100)
  ∧ (∀ i s', visit_loop s = Ret i s' → oreSpots s' = [] ∧ i = 0)
  ∧ (∀ s', travel_cycle h fuel s = Ret tt s' → oreSpots s' = [])
  ∧ (oreSpots s = [] →
     ∀ s1, (smelt_trigger h ;; RecallNextSpot h) s = Ret tt s1 →
           oreSpots s1 = []).
Proof.
  split; [done|]. split; [|split].
  - intros i s' Hret.
    assert (pc visit_loop (fun i s' => oreSpots s' = [] ∧ i = 0)
              (fun _ _ => True) s) as Hpc;
      [|by eapply pc_ret_elim in Hpc; [|exact Hret]].
    unfold visit_loop.
    apply (pc_while_loop _ _ (fun i _ => i = 0)); [|done].
    intros ? s1 ->. pc_step. pc_step. simpl. pc_step.
    destruct (oreSpots s1) as [|sp rest] eqn:Hsp; simpl; [done|].
    pc_step. eapply pc_mono; [apply pc_any| |done]. intros u s2 _. by pc_step.
  - intros s' Hret. pose proof (travel_cycle_leaves_empty h fuel s) as Hpc.
    by eapply pc_ret_elim in Hpc; [|exact Hret].
  - intros Hs s1 Hret. pose proof (scan_entered_empty h s Hs) as Hpc.
    by eapply pc_ret_elim in Hpc; [|exact Hret].
Qed.

End Cycle.

(** ** Witnesses *)

Import MiningHosts.

(** A helper that raises an [Exception] at its first call: the trigger
    reports it and returns. *)
Lemma _wrapped_smelter_absorbs_first_call_witness :
  let s := returned (link_smelter failing_host state0) state0 in
  beetle_far failing_host s = false
  ∧ _wrapped_smelter failing_host s
    = Ret tt (set_world (fun w => record_call error_message
                                    (record_call Smelter_invoked w)) s).
Proof.
  intros s. split; [reflexivity|].
  pose proof (_wrapped_smelter_absorbs_first_call failing_host s eq_refl) as H.
  apply H. discriminate.
Defined.

End SetupProps.

(** * Properties of the connectivity check *)

Module LedSpec.
Import LedTest.

Section Connect.
Context (creation : Sockets → option py_exc).
Context (network : string * Z → option Q → option py_exc).

(** The socket made by a call from [st]: it is the newest one, it is
    closed, and the sockets of [st] are as they were. *)
Definition socket_closed (st st' : Sockets) : Prop :=
  ∃ so, st' = st ++ [so] ∧ closed so = true
        ∧ timeout so = Some TIMEOUT_SECONDS.

Lemma update_new (st : Sockets) (so : Socket) f :
  update (List.length st) f (st ++ [so]) = st ++ [f so].
Proof.
  unfold update. rewrite lookup_app_r by lia.
  rewrite Nat.sub_diag. simpl.
  rewrite insert_app_r_alt by lia. by rewrite Nat.sub_diag.
Qed.

(** C10, as the code has it. Once [socket.socket] has made the socket,
    [try_connect] makes one attempt, with the timeout of three seconds.
    It returns [True] exactly when the connection is established and
    [False] exactly when the attempt raises [socket.timeout] or
    [OSError]; what the attempt lets through to the caller is neither of
    the two; and on each of these paths the socket it made is closed when
    it is left.  An exception of [socket.socket] itself, at line 23 and
    so before the [try], leaves [try_connect] whatever its class, an
    [OSError] included, and no socket has been made. *)
Theorem try_connect_handles (address : string * Z) (st : Sockets) :
  let attempt := network address (Some TIMEOUT_SECONDS) in
  match creation st with
  | Some e => try_connect creation network address st = Raised e st
  | None =>
      match try_connect creation network address st with
      | Returned b st' =>
          (b = true ↔ attempt = None)
          ∧ (b = false ↔ ∃ e, attempt = Some e ∧ handled e = true)
          ∧ socket_closed st st'
      | Raised e st' =>
          attempt = Some e
          ∧ e ≠ socket_timeout ∧ (∀ errno, e ≠ OSError errno)
          ∧ socket_closed st st'
      end
  end.
Proof.
  unfold try_connect, socket_socket.
  destruct (creation st) as [e0|]; [done|].
  unfold settimeout, close, connect.
  rewrite !update_new. simpl.
  rewrite lookup_app_r by lia.
  rewrite Nat.sub_diag. simpl.
  destruct (network address (Some TIMEOUT_SECONDS)) as [e|] eqn:Hnet.
  - destruct e; simpl; rewrite ?update_new.
    + split; [split; congruence|]. split; [split; [eauto|done]|].
      by eexists.
    + split; [split; congruence|]. split; [split; [eauto|done]|].
      by eexists.
    + split; [done|]. split; [done|]. split; [done|]. by eexists.
  - simpl. rewrite !update_new. split; [done|]. split.
    + split; [done|]. by intros (e & ? & _).
    + by eexists.
Qed.

End Connect.

Example report_lines :
  report demo_creation demo_network "192.168.0.100" []
    = Returned "SUCCESS: Connection established!"
               [mkSocket (Some TIMEOUT_SECONDS) (Some ("192.168.0.100", PORT)) true]
  ∧ report demo_creation demo_network "192.168.0.101" []
    = Returned "FAILURE: Could not connect."
               [mkSocket (Some TIMEOUT_SECONDS) None true]
  ∧ report demo_creation demo_network "10.0.0.1" []
    = Returned "FAILURE: Could not connect."
               [mkSocket (Some TIMEOUT_SECONDS) None true].
Proof. repeat split. Qed.

(** A process with no descriptor left, and an address that would have
    answered: [socket.socket] raises the [OSError] of [EMFILE] at line 23,
    and the [OSError] leaves [try_connect], which returns no boolean. *)
Lemma socket_creation_counterexample :
  demo_network ("192.168.0.100", PORT) (Some TIMEOUT_SECONDS) = None
  ∧ handled (OSError 24) = true
  ∧ try_connect exhausted demo_network ("192.168.0.100", PORT) []
    = Raised (OSError 24) [].
Proof. repeat split. Qed.

End LedSpec.

(** * Properties of the whole connection test *)

Module LedProps.
Import LedTest LedSpec.

(** The line holds white space only. *)
Definition blank (s : string) : bool :=
  forallb is_space (list_ascii_of_string s).

Lemma py_lstrip_empty s : py_lstrip s = "" ↔ blank s = true.
Proof.
  unfold blank. induction s as [|c s IH]; simpl; [done|].
  destruct (is_space c) eqn:Hc; simpl; [done|]. split; done.
Qed.

Lemma py_rstrip_empty s : py_rstrip s = "" ↔ blank s = true.
Proof.
  unfold blank. induction s as [|c s IH]; simpl; [done|].
  destruct (py_rstrip s) eqn:Hs.
  - destruct (is_space c) eqn:Hc; simpl; [|done].
    split; [intros _; by apply IH | done].
  - split; [done|]. intros [_ Hall]%andb_true_iff. by apply IH in Hall.
Qed.

Lemma blank_lstrip s : blank (py_lstrip s) = blank s.
Proof.
  unfold blank. induction s as [|c s IH]; simpl; [done|].
  destruct (is_space c) eqn:Hc; simpl; [done|]. by rewrite Hc.
Qed.

Lemma py_strip_empty s : py_strip s = "" ↔ blank s = true.
Proof. unfold py_strip. by rewrite py_rstrip_empty, blank_lstrip. Qed.

Lemma prompt_for_ip_blank typed :
  prompt_for_ip typed = if blank typed then None else Some (py_strip typed).
Proof.
  unfold prompt_for_ip. pose proof (py_strip_empty typed) as Hempty.
  destruct (String.eqb_spec (py_strip typed) "") as [Heq|Hne].
  - by rewrite (proj1 Hempty Heq).
  - destruct (blank typed); [|done]. destruct Hne. by apply Hempty.
Qed.

Section Program.
Context (creation : Sockets → option py_exc).
Context (network : string * Z → option Q → option py_exc).

(** The sockets a connection attempt leaves: those it found, and behind
    them the one it made, closed, with the timeout set. *)
Definition one_more_closed (st st' : Sockets) : Prop :=
  ∃ so, st' = st ++ [so] ∧ closed so = true
        ∧ timeout so = Some TIMEOUT_SECONDS.

Lemma try_connect_result address st :
  match creation st with
  | Some e => try_connect creation network address st = Raised e st
  | None =>
      match try_connect creation network address st with
      | Returned b st' =>
          one_more_closed st st'
          ∧ (if b then network address (Some TIMEOUT_SECONDS) = None
             else ∃ e, network address (Some TIMEOUT_SECONDS) = Some e
                       ∧ handled e = true)
      | Raised e st' =>
          one_more_closed st st'
          ∧ network address (Some TIMEOUT_SECONDS) = Some e ∧ handled e = false
      end
  end.
Proof.
  unfold try_connect, socket_socket.
  destruct (creation st) as [e0|]; [done|].
  unfold settimeout, close, connect, one_more_closed.
  rewrite !update_new. simpl.
  rewrite lookup_app_r by lia.
  rewrite Nat.sub_diag. simpl.
  destruct (network address (Some TIMEOUT_SECONDS)) as [e|] eqn:Hnet.
  - destruct e; simpl; rewrite ?update_new; (split; [by eexists|]); eauto.
  - simpl. rewrite !update_new. split; [by eexists|done].
Qed.

(** X23. [main] calls [sys.exit(1)] exactly on a line of white space
    only, the empty line included: it then prints that no address was
    provided, and no socket has been made. *)
Theorem main_refuses_blank_line (typed : string) (st : Sockets) :
  (ended (main creation network typed st) = SystemExit 1 ↔ blank typed = true)
  ∧ (blank typed = true →
       main creation network typed st
       = mkRun ["FAILURE: No IP address provided."] (SystemExit 1) st).
Proof.
  unfold main. rewrite prompt_for_ip_blank.
  destruct (blank typed); [done|]. split; [|done].
  split; [|done].
  by destruct (try_connect creation network (py_strip typed, PORT) st)
    as [[] st'|e st'].
Qed.

(** X24. On a line that is not blank [main] asks for a socket.  When
    [socket.socket] raises, the run ends with that exception, an
    [OSError] included: nothing is printed, no attempt is made and no
    socket has been made.  Otherwise [main] makes one connection
    attempt, to the address typed, stripped of the white space around it,
    at port 5200 and with the timeout of three seconds.  It prints the
    line of success exactly when the connection is established, the line
    of failure exactly when the attempt raises [socket.timeout] or
    [OSError], and nothing when another exception ends it; in each of
    these cases the socket it made is closed and the other sockets are as
    before. *)
Theorem main_reports_attempt (typed : string) (st : Sockets) :
  blank typed = false →
  match creation st with
  | Some e => main creation network typed st = mkRun [] (Uncaught e) st
  | None =>
      one_more_closed st (sockets (main creation network typed st))
      ∧ match network (py_strip typed, PORT) (Some TIMEOUT_SECONDS) with
        | None =>
            printed (main creation network typed st)
            = ["SUCCESS: Connection established!"]
            ∧ ended (main creation network typed st) = Finished
        | Some e =>
            if handled e then
              printed (main creation network typed st)
              = ["FAILURE: Could not connect."]
              ∧ ended (main creation network typed st) = Finished
            else
              printed (main creation network typed st) = []
              ∧ ended (main creation network typed st) = Uncaught e
        end
  end.
Proof.
  intros Hblank. unfold main. rewrite prompt_for_ip_blank, Hblank.
  pose proof (try_connect_result (py_strip typed, PORT) st) as Hconnect.
  destruct (creation st) as [e0|]; [by rewrite Hconnect|].
  destruct (try_connect creation network (py_strip typed, PORT) st)
    as [[] st'|e st'].
  - destruct Hconnect as [Hclosed ->]. done.
  - destruct Hconnect as [Hclosed (e & -> & ->)]. done.
  - destruct Hconnect as [Hclosed [-> ->]]. done.
Qed.

End Program.

Lemma main_reports_attempt_witness :
  blank "  192.168.0.100 " = false
  ∧ one_more_closed [] (sockets (main demo_creation demo_network "  192.168.0.100 " []))
  ∧ match demo_network (py_strip "  192.168.0.100 ", PORT) (Some TIMEOUT_SECONDS) with
    | None =>
        printed (main demo_creation demo_network "  192.168.0.100 " [])
        = ["SUCCESS: Connection established!"]
        ∧ ended (main demo_creation demo_network "  192.168.0.100 " []) = Finished
    | Some e =>
        if handled e then
          printed (main demo_creation demo_network "  192.168.0.100 " [])
          = ["FAILURE: Could not connect."]
          ∧ ended (main demo_creation demo_network "  192.168.0.100 " []) = Finished
        else
          printed (main demo_creation demo_network "  192.168.0.100 " []) = []
          ∧ ended (main demo_creation demo_network "  192.168.0.100 " []) = Uncaught e
    end.
Proof.
  split; [reflexivity|].
  apply (main_reports_attempt demo_creation demo_network "  192.168.0.100 " []).
  reflexivity.
Defined.

(** Runs of the program: an address that answers, typed with white
    space around it; one that does not answer; a blank line; a name the
    socket module refuses with an exception of another class; and a
    process with no descriptor left. *)
Example main_runs :
  main demo_creation demo_network "  192.168.0.100 " []
  = mkRun ["SUCCESS: Connection established!"] Finished
          [mkSocket (Some TIMEOUT_SECONDS) (Some ("192.168.0.100", PORT)) true]
  ∧ main demo_creation demo_network "192.168.0.101" []
    = mkRun ["FAILURE: Could not connect."] Finished
            [mkSocket (Some TIMEOUT_SECONDS) None true]
  ∧ main demo_creation demo_network "   " []
    = mkRun ["FAILURE: No IP address provided."] (SystemExit 1) []
  ∧ main demo_creation demo_network "a..b" []
    = mkRun [] (Uncaught (OtherError "UnicodeError"))
            [mkSocket (Some TIMEOUT_SECONDS) None true]
  ∧ main exhausted demo_network "192.168.0.100" []
    = mkRun [] (Uncaught (OSError 24)) [].
Proof. repeat split. Qed.

End LedProps.
